(** * Contrastive losses of the NT-Xent notebook: NT-Xent and NT-BXent

    A shallow embedding of the two functions defined in
    [nt-xent-loss/NT-Xent Loss.ipynb],

      - [nt_xent_loss(x, temperature)]
      - [nt_bxent_loss(x, pos_indices, temperature)]

    together with the tensor operations of PyTorch they call, and the proofs
    of what they compute.

    State.  Tensors are Python objects handled by reference, and both
    functions write tensors in place ([xcs[mask] = inf], [target[0::2] += 1],
    [target[rows, cols] = 1.0]).  The functions are therefore programs of a
    small state-and-exception monad over a heap of tensors: the arguments
    are references, every tensor a function writes to is a heap cell, and
    tensors that are only read are values.

    Numbers.  A [float32] element is modelled as an extended real: a real
    number, one of the two infinities, or NaN.  Arithmetic follows IEEE 754
    on the special values and is exact on the finite ones (no rounding, no
    overflow, one zero).  Two places where [float32] leaves the real numbers
    by more than a rounding error bound the statements about values: the
    sigmoid of a [float32] is exactly 1 from an argument of about 17, where
    the exact sigmoid stays below 1, and norms beyond about 1e19 overflow.
    The equation of NT-BXent with the formula of the specification is
    therefore stated for temperatures from 1/10 upwards (scaled similarities
    within [-10, 10]), and the invariance under scaling for norms up to
    [max_norm].

    PyTorch.  The library functions follow their documentation:
    [F.cosine_similarity] divides the dot product by the product of the
    norms, each floored at [eps = 1e-8]; [F.cross_entropy] requires as many
    targets as rows and takes the mean of the negated [log_softmax] at the
    targets; [F.binary_cross_entropy] requires inputs in [0, 1] and clamps
    its logarithms at -100; advanced indexing accepts indices in [-n, n),
    and an indexed assignment that meets an index out of range raises
    [IndexError] with the elements before it already assigned.

    The file has two parts: the definitions (scalars, tensor operations,
    heap, the two functions, the closed forms of what they compute, and the
    losses as the specification words them), then the lemmas and
    theorems. *)

From Stdlib Require Import Reals Lra Lia List ZArith Bool Arith.
Import ListNotations.

Set Implicit Arguments.

(* ===================================================================== *)
(** ** Scalars *)
(* ===================================================================== *)

Inductive scalar : Type :=
| Fin (r : R)
| PInf
| NInf
| NaN.

Module Scalar.

Local Open Scope R_scope.

(** The infinity a product or quotient takes from the sign of its finite
    operand; a zero operand gives NaN ([0 * inf], [0 / 0]). *)
Definition by_sign (r : R) (pos neg : scalar) : scalar :=
  if Rlt_dec 0 r then pos else if Rlt_dec r 0 then neg else NaN.

Definition fneg (a : scalar) : scalar :=
  match a with
  | Fin x => Fin (- x)
  | PInf => NInf
  | NInf => PInf
  | NaN => NaN
  end.

Definition fadd (a b : scalar) : scalar :=
  match a, b with
  | NaN, _ | _, NaN => NaN
  | Fin x, Fin y => Fin (x + y)
  | PInf, NInf | NInf, PInf => NaN
  | PInf, _ | _, PInf => PInf
  | NInf, _ | _, NInf => NInf
  end.

Definition fsub (a b : scalar) : scalar := fadd a (fneg b).

Definition fmul (a b : scalar) : scalar :=
  match a, b with
  | NaN, _ | _, NaN => NaN
  | Fin x, Fin y => Fin (x * y)
  | Fin x, PInf | PInf, Fin x => by_sign x PInf NInf
  | Fin x, NInf | NInf, Fin x => by_sign x NInf PInf
  | PInf, PInf | NInf, NInf => PInf
  | PInf, NInf | NInf, PInf => NInf
  end.

Definition fdiv (a b : scalar) : scalar :=
  match a, b with
  | NaN, _ | _, NaN => NaN
  | Fin x, Fin y => if Req_EM_T y 0 then by_sign x PInf NInf else Fin (x / y)
  | Fin _, PInf | Fin _, NInf => Fin 0
  | PInf, Fin y => if Rlt_dec y 0 then NInf else PInf
  | NInf, Fin y => if Rlt_dec y 0 then PInf else NInf
  | PInf, PInf | PInf, NInf | NInf, PInf | NInf, NInf => NaN
  end.

(** [torch.max] of two elements, as [clamp_min] and the row maximum of
    [log_softmax] use it: NaN propagates. *)
Definition fmax (a b : scalar) : scalar :=
  match a, b with
  | NaN, _ | _, NaN => NaN
  | PInf, _ | _, PInf => PInf
  | NInf, c | c, NInf => c
  | Fin x, Fin y => Fin (Rmax x y)
  end.

Definition fsqrt (a : scalar) : scalar :=
  match a with
  | Fin x => if Rlt_dec x 0 then NaN else Fin (sqrt x)
  | PInf => PInf
  | NInf | NaN => NaN
  end.

Definition fexp (a : scalar) : scalar :=
  match a with
  | Fin x => Fin (exp x)
  | PInf => PInf
  | NInf => Fin 0
  | NaN => NaN
  end.

Definition flog (a : scalar) : scalar :=
  match a with
  | Fin x => if Rlt_dec 0 x then Fin (ln x)
             else if Req_EM_T x 0 then NInf else NaN
  | PInf => PInf
  | NInf | NaN => NaN
  end.

(** [Tensor.sigmoid]: [1 / (1 + exp(-x))], saturating at the infinities.
    On a real number the value is exact, hence strictly between 0 and 1. *)
Definition sigmoid (a : scalar) : scalar :=
  match a with
  | Fin x => Fin (1 / (1 + exp (- x)))
  | PInf => Fin 1
  | NInf => Fin 0
  | NaN => NaN
  end.

(** [Tensor.bool()]: an element is [True] unless it is zero. *)
Definition to_bool (a : scalar) : bool :=
  match a with
  | Fin x => if Req_EM_T x 0 then false else true
  | _ => true
  end.

(** The test [0 <= a <= 1] of [binary_cross_entropy]; NaN fails it. *)
Definition in_unit (a : scalar) : bool :=
  match a with
  | Fin x => if Rle_dec 0 x then (if Rle_dec x 1 then true else false) else false
  | _ => false
  end.

Definition is_finite (a : scalar) : Prop := exists r, a = Fin r.

(** Sum of a list, left to right from zero ([Tensor.sum]). *)
Definition fsum (l : list scalar) : scalar := fold_left fadd l (Fin 0).

(** [Tensor.mean] of a one-dimensional tensor: sum divided by the number
    of elements (NaN on the empty tensor). *)
Definition mean (l : list scalar) : scalar :=
  fdiv (fsum l) (Fin (INR (length l))).

End Scalar.
Import Scalar.

(* ===================================================================== *)
(** ** Tensor operations *)
(* ===================================================================== *)

(** Python exceptions the two functions can run into. *)
Inductive exn : Type :=
| AssertionError
| ValueError
| IndexError
| RuntimeError
| TypeError.

Definition result (A : Type) : Type := (exn + A)%type.

Definition matrix : Type := list (list scalar).
Definition mask : Type := list (list bool).

Module Torch.

Definition zip_with {A B C} (f : A -> B -> C) (l1 : list A) (l2 : list B)
  : list C :=
  map (fun p => f (fst p) (snd p)) (combine l1 l2).

(** Element [j] of row [i]; NaN outside the tensor. *)
Definition entry (m : matrix) (i j : nat) : scalar := nth j (nth i m []) NaN.

Definition same_shape {A B} (a : list (list A)) (b : list (list B)) : bool :=
  (length a =? length b)
  && forallb (fun p => length (fst p) =? length (snd p)) (combine a b).

(** [torch.zeros(n, k)], [torch.eye(n)], [torch.arange(n)]. *)
Definition zeros (n k : nat) : matrix := repeat (repeat (Fin 0) k) n.

Definition eye (n : nat) : matrix :=
  map (fun i => map (fun j => if i =? j then Fin 1 else Fin 0) (seq 0 n))
      (seq 0 n).

Definition arange (n : nat) : list Z := map Z.of_nat (seq 0 n).

(** [m.bool()] and [~mask]. *)
Definition bool_ (m : matrix) : mask := map (map to_bool) m.
Definition logical_not (k : mask) : mask := map (map negb) k.

(** [x[None,:,:]] and [x[:,None,:]]: a new leading, respectively middle,
    dimension of size one. *)
Definition unsqueeze0 (x : matrix) : list matrix := [x].
Definition unsqueeze1 (x : matrix) : list matrix := map (fun r => [r]) x.

Fixpoint map_result {A B} (f : A -> result B) (l : list A) : result (list B) :=
  match l with
  | [] => inr []
  | a :: l' =>
      match f a with
      | inl e => inl e
      | inr b =>
          match map_result f l' with
          | inl e => inl e
          | inr bs => inr (b :: bs)
          end
      end
  end.

(** Broadcasting along one dimension: a dimension of size one is stretched
    to the size of the other operand, equal sizes are paired, anything
    else is an error. *)
Definition broadcast {A B C} (f : A -> B -> result C)
           (l1 : list A) (l2 : list B) : result (list C) :=
  match l1, l2 with
  | [a], _ => map_result (f a) l2
  | _, [b] => map_result (fun a => f a b) l1
  | _, _ =>
      if length l1 =? length l2
      then map_result (fun p => f (fst p) (snd p)) (combine l1 l2)
      else inl RuntimeError
  end.

Local Open Scope R_scope.

(** [F.cosine_similarity(x1, x2, dim=-1, eps=1e-8)] on two vectors:
    [x1 . x2 / (max(|x1|, eps) * max(|x2|, eps))]. *)
Definition eps : R := 1 / 100000000.

Definition dot (u v : list scalar) : scalar := fsum (zip_with fmul u v).

Definition norm (u : list scalar) : scalar :=
  fsqrt (fsum (map (fun a => fmul a a) u)).

(** The two operands are vectors of one size: in the losses they are rows
    of one two-dimensional tensor. *)
Definition cos_sim (u v : list scalar) : scalar :=
  fdiv (dot u v) (fmul (fmax (norm u) (Fin eps)) (fmax (norm v) (Fin eps))).

(** [F.cosine_similarity] on three-dimensional operands, reducing the last
    dimension and broadcasting the first two. *)
Definition cosine_similarity (x1 x2 : list matrix) : result matrix :=
  broadcast (broadcast (fun u v => inr (cos_sim u v))) x1 x2.

(** [m[k] = v] for a boolean mask [k] of the shape of [m]. *)
Definition masked_fill (m : matrix) (k : mask) (v : scalar) : result matrix :=
  if same_shape m k
  then inr (zip_with (zip_with (fun e (b : bool) => if b then v else e)) m k)
  else inl IndexError.

(** [v[start::step] += c] on a one-dimensional integer tensor: the
    elements at [start], [start + step], ... are changed; [pos] is the
    distance of the head of the list to the next selected position. *)
Fixpoint slice_add (pos step : nat) (c : Z) (v : list Z) : list Z :=
  match v with
  | [] => []
  | a :: v' =>
      match pos with
      | O => (a + c)%Z :: slice_add (Nat.pred step) step c v'
      | S p => a :: slice_add p step c v'
      end
  end.

(** An index of advanced indexing into a dimension of size [n]: negative
    indices count from the end, anything outside [-n, n) is an error. *)
Definition wrap (n : nat) (i : Z) : option nat :=
  if ((0 <=? i) && (i <? Z.of_nat n))%Z then Some (Z.to_nat i)
  else if ((- Z.of_nat n <=? i) && (i <? 0))%Z
       then Some (Z.to_nat (i + Z.of_nat n))
       else None.

Fixpoint update {A} (i : nat) (f : A -> A) (l : list A) : list A :=
  match l with
  | [] => []
  | a :: l' =>
      match i with
      | O => f a :: l'
      | S i' => a :: update i' f l'
      end
  end.

Definition set_entry (m : matrix) (i j : nat) (v : scalar) : matrix :=
  update i (update j (fun _ => v)) m.

Definition ncols (m : matrix) : nat := length (hd [] m).

(** [m[rows, cols] = v] for two index tensors of the same length.  The
    assignment works in place, one line of the index after the other: the
    first index out of range ends it with [IndexError], and the elements
    assigned before that stay assigned.  The outcome comes with the matrix
    as the assignment leaves it. *)
Fixpoint index_put_pairs (m : matrix) (idx : list (Z * Z)) (v : scalar)
  : result unit * matrix :=
  match idx with
  | [] => (inr tt, m)
  | (r, c) :: rest =>
      match wrap (length m) r, wrap (ncols m) c with
      | Some i, Some j => index_put_pairs (set_entry m i j v) rest v
      | _, _ => (inl IndexError, m)
      end
  end.

Definition index_put (m : matrix) (rows cols : list Z) (v : scalar)
  : result unit * matrix :=
  if (length rows =? length cols)%nat
  then index_put_pairs m (combine rows cols) v
  else (inl IndexError, m).

(** [m / t] for a Python float [t]. *)
Definition div_scalar (m : matrix) (t : R) : matrix :=
  map (map (fun a => fdiv a (Fin t))) m.

(** [log_softmax] of one row, computed as PyTorch does: the row maximum
    is subtracted before exponentiating. *)
Definition row_max (row : list scalar) : scalar := fold_right fmax NInf row.

Definition log_softmax (row : list scalar) : list scalar :=
  let m := row_max row in
  let lse := flog (fsum (map (fun a => fexp (fsub a m)) row)) in
  map (fun a => fsub (fsub a m) lse) row.

(** [F.cross_entropy(input, target, reduction="mean")] for class-index
    targets: the batch sizes must agree and every target must be a class
    of its row.  ([ignore_index] is -100 and no target of this notebook is
    negative.) *)
Definition target_ok (row : list scalar) (t : Z) : bool :=
  ((0 <=? t) && (t <? Z.of_nat (length row)))%Z.

Definition cross_entropy (input : matrix) (target : list Z) : result scalar :=
  if negb (length input =? length target)%nat then inl ValueError
  else if negb (forallb (fun p => target_ok (fst p) (snd p))
                        (combine input target))
       then inl IndexError
       else inr (mean (zip_with
                         (fun row t => fneg (nth (Z.to_nat t) (log_softmax row) NaN))
                         input target)).

(** [F.binary_cross_entropy(input, target, reduction="none")]: shapes must
    agree, every input must lie in [0, 1], and each logarithm is clamped
    to be at least -100. *)
Definition bce (p t : scalar) : scalar :=
  fsub (fmul (fsub t (Fin 1)) (fmax (flog (fsub (Fin 1) p)) (Fin (-100))))
       (fmul t (fmax (flog p) (Fin (-100)))).

Definition binary_cross_entropy (input target : matrix) : result matrix :=
  if negb (same_shape input target) then inl ValueError
  else if negb (forallb (forallb in_unit) input) then inl RuntimeError
       else inr (zip_with (zip_with bce) input target).

(** [m[k]] for a boolean mask: the selected elements in row-major order. *)
Definition select_row (row : list scalar) (krow : list bool) : list scalar :=
  map fst (filter snd (combine row krow)).

Definition masked_select (m : matrix) (k : mask) : result (list scalar) :=
  if same_shape m k then inr (concat (zip_with select_row m k))
  else inl IndexError.

(** [m.masked_scatter(k, source)]: a copy of [m] in which the positions
    selected by [k] receive, in row-major order, the successive elements
    of [source]. *)
Fixpoint scatter_row (row : list scalar) (krow : list bool) (src : list scalar)
  : option (list scalar * list scalar) :=
  match row, krow with
  | e :: row', b :: krow' =>
      if b then
        match src with
        | s :: src' =>
            match scatter_row row' krow' src' with
            | Some (r, rest) => Some (s :: r, rest)
            | None => None
            end
        | [] => None
        end
      else
        match scatter_row row' krow' src with
        | Some (r, rest) => Some (e :: r, rest)
        | None => None
        end
  | _, _ => Some ([], src)
  end.

Fixpoint scatter_rows (m : matrix) (k : mask) (src : list scalar)
  : option matrix :=
  match m, k with
  | row :: m', krow :: k' =>
      match scatter_row row krow src with
      | Some (r, rest) =>
          match scatter_rows m' k' rest with
          | Some rs => Some (r :: rs)
          | None => None
          end
      | None => None
      end
  | _, _ => Some []
  end.

Definition masked_scatter (m : matrix) (k : mask) (src : list scalar)
  : result matrix :=
  if same_shape m k then
    match scatter_rows m k src with
    | Some r => inr r
    | None => inl RuntimeError
    end
  else inl RuntimeError.

(** [m.sum(dim=1)], and elementwise operations on one-dimensional
    tensors. *)
Definition sum_dim1 (m : matrix) : list scalar := map fsum m.

Definition rsub_scalar (n : nat) (v : list scalar) : list scalar :=
  map (fun a => fsub (Fin (INR n)) a) v.

Definition vdiv (u v : list scalar) : list scalar := zip_with fdiv u v.
Definition vadd (u v : list scalar) : list scalar := zip_with fadd u v.

End Torch.
Import Torch.

(* ===================================================================== *)
(** ** The heap of tensors and its monad *)
(* ===================================================================== *)

(** The tensors of the notebook: two-dimensional [float32] tensors (the
    batch, similarity and target matrices), one-dimensional [int64] tensors
    (the class targets), and [int64] tensors of shape [(K, 2)] (the positive
    pairs, one [(row, column)] per line). *)
Inductive tensor : Type :=
| FloatT (m : matrix)
| LongV (v : list Z)
| PairsT (p : list (Z * Z)).

Definition ref : Type := nat.
Definition heap : Type := list tensor.

(** A program takes the heap to a value or an exception, and a new heap. *)
Definition M (A : Type) : Type := heap -> result A * heap.

Module Heap.

Definition ret {A} (a : A) : M A := fun h => (inr a, h).

Definition bind {A B} (c : M A) (f : A -> M B) : M B :=
  fun h =>
    match c h with
    | (inl e, h') => (inl e, h')
    | (inr a, h') => f a h'
    end.

Definition raise {A} (e : exn) : M A := fun h => (inl e, h).

Definition lift {A} (r : result A) : M A := fun h => (r, h).

(** A new tensor object. *)
Definition alloc (t : tensor) : M ref := fun h => (inr (length h), h ++ [t]).

(** Reading through a reference; a reference to no object cannot occur in
    Python and is answered by [RuntimeError]. *)
Definition load (l : ref) : M tensor :=
  fun h =>
    match nth_error h l with
    | Some t => (inr t, h)
    | None => (inl RuntimeError, h)
    end.

(** Overwriting the object behind a reference. *)
Definition store (l : ref) (t : tensor) : M unit :=
  fun h =>
    if l <? length h then (inr tt, update l (fun _ => t) h)
    else (inl RuntimeError, h).

End Heap.
Import Heap.

Notation "x <- c1 ;; c2" := (bind c1 (fun x => c2))
  (at level 61, c1 at next level, right associativity).
Notation "c1 ;; c2" := (bind c1 (fun _ => c2))
  (at level 61, right associativity).

(** [len(t.size())] *)
Definition ndim (t : tensor) : nat :=
  match t with
  | FloatT _ => 2
  | LongV _ => 1
  | PairsT _ => 2
  end.

(** [assert len(x.size()) == 2] *)
Definition assert_2d (x : ref) : M unit :=
  t <- load x ;;
  if ndim t =? 2 then ret tt else raise AssertionError.

(** The elements of the float tensor behind a reference.  The operations
    that read them ([F.cosine_similarity], the masked assignments) raise
    [RuntimeError] on an integer tensor. *)
Definition load_float (l : ref) : M matrix :=
  t <- load l ;;
  match t with
  | FloatT m => ret m
  | _ => raise RuntimeError
  end.

Definition load_long (l : ref) : M (list Z) :=
  t <- load l ;;
  match t with
  | LongV v => ret v
  | _ => raise TypeError
  end.

Definition load_pairs (l : ref) : M (list (Z * Z)) :=
  t <- load l ;;
  match t with
  | PairsT p => ret p
  | _ => raise TypeError
  end.

(** [t[k] = v], in place. *)
Definition setitem_mask (l : ref) (k : mask) (v : scalar) : M unit :=
  m <- load_float l ;;
  m' <- lift (masked_fill m k v) ;;
  store l (FloatT m').

(** [t[start::2] += c] and [t[start::2] -= c], in place. *)
Definition iadd_slice (l : ref) (start step : nat) (c : Z) : M unit :=
  v <- load_long l ;;
  store l (LongV (slice_add start step c v)).

Definition isub_slice (l : ref) (start step : nat) (c : Z) : M unit :=
  v <- load_long l ;;
  store l (LongV (slice_add start step (- c) v)).

(** [t[rows, cols] = v], in place. *)
Definition setitem_index (l : ref) (rows cols : list Z) (v : scalar) : M unit :=
  m <- load_float l ;;
  let outcome := index_put m rows cols v in
  store l (FloatT (snd outcome)) ;;
  lift (fst outcome).

(* ===================================================================== *)
(** ** The two loss functions *)
(* ===================================================================== *)

(** [[
def nt_xent_loss(x, temperature):
    assert len(x.size()) == 2
    xcs = F.cosine_similarity(x[None,:,:], x[:,None,:], dim=-1)
    xcs[torch.eye(x.size(0)).bool()] = float("-inf")
    target = torch.arange(8)
    target[0::2] += 1
    target[1::2] -= 1
    return F.cross_entropy(xcs / temperature, target, reduction="mean")
]] *)
Definition nt_xent_loss (x : ref) (temperature : R) : M scalar :=
  assert_2d x ;;
  xv <- load_float x ;;
  (* Cosine similarity *)
  sim <- lift (cosine_similarity (unsqueeze0 xv) (unsqueeze1 xv)) ;;
  xcs <- alloc (FloatT sim) ;;
  setitem_mask xcs (bool_ (eye (length xv))) NInf ;;
  (* Ground truth labels *)
  target <- alloc (LongV (arange 8)) ;;
  iadd_slice target 0 2 1 ;;
  isub_slice target 1 2 1 ;;
  (* Standard cross entropy loss *)
  xcs_v <- load_float xcs ;;
  target_v <- load_long target ;;
  lift (cross_entropy (div_scalar xcs_v temperature) target_v).

(** [torch.cat([p, q], dim=0)] on pair tensors, and
    [v.reshape(n, 1).expand(-1, 2)]: every element twice in its line. *)
Definition cat (p q : list (Z * Z)) : list (Z * Z) := p ++ q.
Definition expand2 (v : list Z) : list (Z * Z) := map (fun i => (i, i)) v.

(** [[
def nt_bxent_loss(x, pos_indices, temperature):
    assert len(x.size()) == 2
    pos_indices = torch.cat([
        pos_indices,
        torch.arange(x.size(0)).reshape(x.size(0), 1).expand(-1, 2),
    ], dim=0)
    target = torch.zeros(x.size(0), x.size(0))
    target[pos_indices[:,0], pos_indices[:,1]] = 1.0
    xcs = F.cosine_similarity(x[None,:,:], x[:,None,:], dim=-1)
    xcs[torch.eye(x.size(0)).bool()] = float("inf")
    loss = F.binary_cross_entropy((xcs / temperature).sigmoid(), target, reduction="none")
    target_pos = target.bool()
    target_neg = ~target_pos
    loss_pos = torch.zeros(x.size(0), x.size(0)).masked_scatter(target_pos, loss[target_pos])
    loss_neg = torch.zeros(x.size(0), x.size(0)).masked_scatter(target_neg, loss[target_neg])
    loss_pos = loss_pos.sum(dim=1)
    loss_neg = loss_neg.sum(dim=1)
    num_pos = target.sum(dim=1)
    num_neg = x.size(0) - num_pos
    return ((loss_pos / num_pos) + (loss_neg / num_neg)).mean()
]] *)
Definition nt_bxent_loss (x pos_indices : ref) (temperature : R) : M scalar :=
  assert_2d x ;;
  xv <- load_float x ;;
  let n := length xv in
  (* Add indexes of the principal diagonal elements to pos_indices *)
  p <- load_pairs pos_indices ;;
  let pos_indices := cat p (expand2 (arange n)) in
  (* Ground truth labels *)
  target <- alloc (FloatT (zeros n n)) ;;
  setitem_index target (map fst pos_indices) (map snd pos_indices) (Fin 1) ;;
  (* Cosine similarity *)
  sim <- lift (cosine_similarity (unsqueeze0 xv) (unsqueeze1 xv)) ;;
  xcs <- alloc (FloatT sim) ;;
  setitem_mask xcs (bool_ (eye n)) PInf ;;
  (* Binary cross entropy on the sigmoid of the scaled similarities *)
  xcs_v <- load_float xcs ;;
  target_v <- load_float target ;;
  loss <- lift (binary_cross_entropy
                  (map (map sigmoid) (div_scalar xcs_v temperature)) target_v) ;;
  let target_pos := bool_ target_v in
  let target_neg := logical_not target_pos in
  sel_pos <- lift (masked_select loss target_pos) ;;
  loss_pos <- lift (masked_scatter (zeros n n) target_pos sel_pos) ;;
  sel_neg <- lift (masked_select loss target_neg) ;;
  loss_neg <- lift (masked_scatter (zeros n n) target_neg sel_neg) ;;
  let loss_pos := sum_dim1 loss_pos in
  let loss_neg := sum_dim1 loss_neg in
  let num_pos := sum_dim1 target_v in
  let num_neg := rsub_scalar n num_pos in
  ret (mean (vadd (vdiv loss_pos num_pos) (vdiv loss_neg num_neg))).

(* ===================================================================== *)
(** ** Matrices given entry by entry *)
(* ===================================================================== *)

(** The [n] by [k] matrix whose entry [(i, j)] is [f i j]. *)
Definition tabulate {A} (n k : nat) (f : nat -> nat -> A) : list (list A) :=
  map (fun i => map (fun j => f i j) (seq 0 k)) (seq 0 n).

(* ===================================================================== *)
(** ** What the programs compute *)
(* ===================================================================== *)

(** The matrix [F.cosine_similarity(x[None,:,:], x[:,None,:], dim=-1)]
    evaluates to: by broadcasting, entry [(i, j)] compares row [j] of the
    first operand to row [i] of the second. *)
Definition similarity (xv : matrix) : matrix :=
  tabulate (length xv) (length xv)
           (fun i j => cos_sim (nth j xv []) (nth i xv [])).

(** The similarity matrix with its diagonal overwritten by [v]. *)
Definition with_diagonal (v : scalar) (xv : matrix) : matrix :=
  tabulate (length xv) (length xv)
           (fun i j => if i =? j then v else cos_sim (nth j xv []) (nth i xv [])).

(** The class targets [nt_xent_loss] ends up with. *)
Definition xent_target : list Z :=
  slice_add 1 2 (- (1)) (slice_add 0 2 1 (arange 8)).

(** What [nt_xent_loss] returns, from the object behind its argument. *)
Definition xent_value (xv : matrix) (t : R) : result scalar :=
  cross_entropy (div_scalar (with_diagonal NInf xv) t) xent_target.

(** The same for any content of the heap cell. *)
Definition xent_result (o : option tensor) (t : R) : result scalar :=
  match o with
  | None => inl RuntimeError
  | Some (FloatT xv) => xent_value xv t
  | Some (LongV _) => inl AssertionError
  | Some (PairsT _) => inl RuntimeError
  end.

(** Row [i] of the scaled logits of [nt_xent_loss]. *)
Definition xent_logits (xv : matrix) (t : R) (i : nat) : list scalar :=
  map (fun j => fdiv (if i =? j then NInf
                      else cos_sim (nth j xv []) (nth i xv [])) (Fin t))
      (seq 0 (length xv)).

(** Whether the line [(r, c)] of an index list addresses entry [(i, j)] of
    an [n] by [n] matrix. *)
Definition addresses (n : nat) (rc : Z * Z) (i j : nat) : bool :=
  match wrap n (fst rc), wrap n (snd rc) with
  | Some a, Some b => (a =? i) && (b =? j)
  | _, _ => false
  end.

(** Whether some line of an index list addresses entry [(i, j)]. *)
Definition hit (n : nat) (idx : list (Z * Z)) (i j : nat) : bool :=
  existsb (fun rc => addresses n rc i j) idx.

(** Whether every line of an index list is a valid index. *)
Definition valid_index (n : nat) (rc : Z * Z) : bool :=
  match wrap n (fst rc), wrap n (snd rc) with
  | Some _, Some _ => true
  | _, _ => false
  end.

(** The lines of an index list that an assignment gets to write: those
    before the first invalid one. *)
Fixpoint written (n : nat) (idx : list (Z * Z)) : list (Z * Z) :=
  match idx with
  | [] => []
  | rc :: rest => if valid_index n rc then rc :: written n rest else []
  end.

(** The positive pairs [nt_bxent_loss] works with: the caller's, followed by
    the diagonal. *)
Definition all_pairs (n : nat) (p : list (Z * Z)) : list (Z * Z) :=
  cat p (expand2 (arange n)).

(** The tensor [target] as the assignment
    [target[pos_indices[:,0], pos_indices[:,1]] = 1.0] leaves it. *)
Definition written_target (n : nat) (p : list (Z * Z)) : matrix :=
  tabulate n n (fun i j => if hit n (written n (all_pairs n p)) i j
                           then Fin 1 else Fin 0).

(** Entry [(i, j)] of the target matrix is positive. *)
Definition positive (n : nat) (p : list (Z * Z)) (i j : nat) : bool :=
  hit n (all_pairs n p) i j.

Definition bxent_target (n : nat) (p : list (Z * Z)) : matrix :=
  tabulate n n (fun i j => if positive n p i j then Fin 1 else Fin 0).

(** Entry [(i, j)] of [(xcs / temperature).sigmoid()] after the diagonal of
    [xcs] has been set to [inf]. *)
Definition bxent_prob (xv : matrix) (t : R) (i j : nat) : scalar :=
  sigmoid (fdiv (if i =? j then PInf else cos_sim (nth j xv []) (nth i xv []))
                (Fin t)).

(** Entry [(i, j)] of [target]. *)
Definition bxent_label (n : nat) (p : list (Z * Z)) (i j : nat) : scalar :=
  if positive n p i j then Fin 1 else Fin 0.

(** Entry [(i, j)] of [loss]. *)
Definition bxent_bce (xv : matrix) (p : list (Z * Z)) (t : R) (i j : nat)
  : scalar :=
  bce (bxent_prob xv t i j) (bxent_label (length xv) p i j).

(** Element [i] of [(loss_pos / num_pos) + (loss_neg / num_neg)]. *)
Definition bxent_row (xv : matrix) (p : list (Z * Z)) (t : R) (i : nat)
  : scalar :=
  let n := length xv in
  let loss_pos :=
    fsum (map (fun j => if positive n p i j then bxent_bce xv p t i j else Fin 0)
              (seq 0 n)) in
  let loss_neg :=
    fsum (map (fun j => if negb (positive n p i j) then bxent_bce xv p t i j
                        else Fin 0)
              (seq 0 n)) in
  let num_pos := fsum (map (bxent_label n p i) (seq 0 n)) in
  let num_neg := fsub (Fin (INR n)) num_pos in
  fadd (fdiv loss_pos num_pos) (fdiv loss_neg num_neg).

Definition bxent_value (xv : matrix) (p : list (Z * Z)) (t : R) : result scalar :=
  let n := length xv in
  if forallb (valid_index n) p then
    if forallb (forallb in_unit) (tabulate n n (bxent_prob xv t))
    then inr (mean (map (bxent_row xv p t) (seq 0 n)))
    else inl RuntimeError
  else inl IndexError.

(** What [nt_bxent_loss] returns for any content of the two heap cells. *)
Definition bxent_result (ox op : option tensor) (t : R) : result scalar :=
  match ox with
  | None => inl RuntimeError
  | Some (LongV _) => inl AssertionError
  | Some (PairsT _) => inl RuntimeError
  | Some (FloatT xv) =>
      match op with
      | None => inl RuntimeError
      | Some (PairsT p) => bxent_value xv p t
      | Some _ => inl TypeError
      end
  end.

(* ===================================================================== *)
(** ** Real-valued batches, pair sets and rows of logits *)
(* ===================================================================== *)

(** A batch of real vectors as a tensor. *)
Definition of_reals (xr : list (list R)) : matrix := map (map Fin) xr.

(** Sums, dot products, norms and cosine similarities of real vectors. *)
Definition rsum (l : list R) : R := fold_left Rplus l 0%R.

Definition rdot (u v : list R) : R := rsum (zip_with Rmult u v).

Definition rnorm (u : list R) : R := sqrt (rsum (map (fun a => (a * a)%R) u)).

Definition rcos (u v : list R) : R :=
  (rdot u v / (Rmax (rnorm u) eps * Rmax (rnorm v) eps))%R.

(** The pairing rule of the notebook: the partner of an even index is the
    next index, the partner of an odd index the previous one. *)
Definition partner (i : nat) : Z :=
  if Nat.even i then Z.of_nat i + 1 else Z.of_nat i - 1.

(** A positive-pair set for a batch of [n] vectors: both indices of every
    pair lie in [0, n). *)
Definition in_range (n : nat) (p : list (Z * Z)) : Prop :=
  Forall (fun rc => (0 <= fst rc < Z.of_nat n)%Z /\ (0 <= snd rc < Z.of_nat n)%Z) p.

(** Two pair lists with the same members. *)
Definition same_pairs (p q : list (Z * Z)) : Prop :=
  forall rc, In rc p <-> In rc q.

(** An element that is a real number or [inf]. *)
Definition real_or_pinf (a : scalar) : Prop := a = PInf \/ is_finite a.

(** A row of logits: [-inf] in column [i], the real [l j] in column [j];
    and the exponentials of its elements. *)
Definition logit (i : nat) (l : nat -> R) (j : nat) : scalar :=
  if i =? j then NInf else Fin (l j).

Definition weight (i : nat) (l : nat -> R) (j : nat) : R :=
  if i =? j then 0%R else exp (l j).

(* ===================================================================== *)
(** ** NT-BXent and NT-Xent as the specification words them *)
(* ===================================================================== *)

(** The target matrix in the specification's words: entry [(i, j)] is 1 iff
    [(i, j)] is a declared positive pair or lies on the diagonal. *)
Definition spec_positive (p : list (Z * Z)) (i j : nat) : bool :=
  (i =? j)
  || existsb (fun rc => ((fst rc =? Z.of_nat i) && (snd rc =? Z.of_nat j))%Z) p.

(** The class-balanced mean over PyTorch's terms.  The term of entry
    [(i, j)] is [F.binary_cross_entropy]'s, with each logarithm clamped at
    -100, of the sigmoid of the scaled similarity of the vectors [i] and [j]
    ([inf] on the diagonal) against the target. *)
Definition clamped_bce (xv : matrix) (p : list (Z * Z)) (t : R) (i j : nat)
  : scalar :=
  let m := if i =? j then PInf else cos_sim (nth i xv []) (nth j xv []) in
  bce (sigmoid (fdiv m (Fin t))) (if spec_positive p i j then Fin 1 else Fin 0).

Definition positive_columns (n : nat) (p : list (Z * Z)) (i : nat) : list nat :=
  filter (spec_positive p i) (seq 0 n).

Definition negative_columns (n : nat) (p : list (Z * Z)) (i : nat) : list nat :=
  filter (fun j => negb (spec_positive p i j)) (seq 0 n).

(** The loss of row [i]: the mean term over its positive columns plus the
    mean term over its negative columns. *)
Definition clamped_row_loss (xv : matrix) (p : list (Z * Z)) (t : R) (i : nat)
  : scalar :=
  let n := length xv in
  let num_pos := length (positive_columns n p i) in
  let num_neg := n - num_pos in
  fadd (fdiv (fsum (map (clamped_bce xv p t i) (positive_columns n p i)))
             (Fin (INR num_pos)))
       (fdiv (fsum (map (clamped_bce xv p t i) (negative_columns n p i)))
             (Fin (INR num_neg))).

(** The loss: the arithmetic mean of the row losses. *)
Definition clamped_bxent_loss (xv : matrix) (p : list (Z * Z)) (t : R) : scalar :=
  mean (map (clamped_row_loss xv p t) (seq 0 (length xv))).

(** NT-BXent in the specification's words, on real numbers.  [P] is the
    sigmoid of the similarities divided by the temperature, and exactly 1
    on the diagonal, where the specification puts the sentinel [+inf]:
    [P = sigmoid(M / t)].  The term of an entry is
    [bce[i,j] = -(T[i,j] * log(P[i,j]) + (1 - T[i,j]) * log(1 - P[i,j]))];
    on the diagonal, where [T = P = 1], the product [0 * log 0] is 0.  The
    loss of row [i] is
    [(sum of bce[i,j] over positive j) / num_pos_i
     + (sum of bce[i,j] over negative j) / num_neg_i]
    with [num_neg_i = N - num_pos_i], and the loss is the arithmetic mean of
    the row losses. *)
Definition spec_sigmoid (x : R) : R := (1 / (1 + exp (- x)))%R.

Definition spec_probability (xr : list (list R)) (t : R) (i j : nat) : R :=
  if i =? j then 1%R
  else spec_sigmoid (rcos (nth i xr []) (nth j xr []) / t).

Definition spec_label (p : list (Z * Z)) (i j : nat) : R :=
  if spec_positive p i j then 1%R else 0%R.

Definition spec_bce (xr : list (list R)) (p : list (Z * Z)) (t : R)
           (i j : nat) : R :=
  (- (spec_label p i j * ln (spec_probability xr t i j)
      + (1 - spec_label p i j) * ln (1 - spec_probability xr t i j)))%R.

Definition spec_row_loss (xr : list (list R)) (p : list (Z * Z)) (t : R)
           (i : nat) : R :=
  let n := length xr in
  let num_pos := INR (length (positive_columns n p i)) in
  let num_neg := (INR n - num_pos)%R in
  (rsum (map (spec_bce xr p t i) (positive_columns n p i)) / num_pos
   + rsum (map (spec_bce xr p t i) (negative_columns n p i)) / num_neg)%R.

Definition spec_nt_bxent_loss (xr : list (list R)) (p : list (Z * Z)) (t : R)
  : R :=
  (rsum (map (spec_row_loss xr p t) (seq 0 (length xr)))
   / INR (length xr))%R.

(** NT-Xent in the specification's words: the logits are the similarities,
    with [-inf] on the diagonal, divided by the temperature; the loss of row
    [i] is [-log(exp(L[i, partner i]) / sum_j exp(L[i, j]))]; the loss is the
    mean of the row losses. *)
Definition spec_logit (xv : matrix) (t : R) (i j : nat) : scalar :=
  fdiv (if i =? j then NInf else cos_sim (nth i xv []) (nth j xv [])) (Fin t).

Definition spec_xent_row (xv : matrix) (t : R) (i : nat) : scalar :=
  fneg (flog (fdiv (fexp (spec_logit xv t i (Z.to_nat (partner i))))
                   (fsum (map (fun j => fexp (spec_logit xv t i j))
                              (seq 0 (length xv)))))).

Definition spec_nt_xent_loss (xv : matrix) (t : R) : scalar :=
  mean (map (spec_xent_row xv t) (seq 0 (length xv))).

(* ===================================================================== *)
(** ** Sample batches *)
(* ===================================================================== *)

Definition batch3 : matrix := of_reals [[1; 0]; [1; 1]; [0; 1]]%R.

Definition batch4 : matrix := of_reals [[1; 0]; [1; 1]; [0; 1]; [2; 1]]%R.

Definition batch7 : matrix :=
  of_reals [[1; 0]; [1; 1]; [0; 1]; [2; 1]; [1; 2]; [3; 1]; [1; 3]]%R.

Definition batch8 : matrix :=
  of_reals [[1; 0]; [1; 1]; [0; 1]; [2; 1]; [1; 2]; [3; 1]; [1; 3]; [2; 3]]%R.

(** A batch of ten vectors and a batch of four vectors. *)
Definition batch10 : matrix :=
  of_reals [[1; 0]; [1; 1]; [0; 1]; [2; 1]; [1; 2];
            [3; 1]; [1; 3]; [2; 3]; [3; 2]; [1; 4]]%R.

(* ===================================================================== *)
(** ** The other cells of the two notebooks *)
(* ===================================================================== *)

(** Sequencing of tensor operations that can fail. *)
Definition and_then {A B} (r : result A) (f : A -> result B) : result B :=
  match r with
  | inl e => inl e
  | inr a => f a
  end.

(** [x[None,:]] and [x[:,None]] on a one-dimensional tensor. *)
Definition unsqueeze0_vec (x : list scalar) : matrix := [x].
Definition unsqueeze1_vec (x : list scalar) : matrix := map (fun a => [a]) x.

(** [t.expand(n, ...)] along one dimension: a dimension of size one is
    repeated [n] times, a dimension of size [n] is kept, any other size is
    an error. *)
Definition expand_dim {A} (n : nat) (l : list A) : result (list A) :=
  match l with
  | [a] => inr (repeat a n)
  | _ => if length l =? n then inr l else inl RuntimeError
  end.

(** [t.expand(n, k)] on a two-dimensional tensor and [t.expand(n, k, d)] on
    a three-dimensional one. *)
Definition expand_2d {A} (n k : nat) (m : list (list A))
  : result (list (list A)) :=
  and_then (expand_dim n m) (map_result (expand_dim k)).

Definition expand_3d {A} (n k d : nat) (t : list (list (list A)))
  : result (list (list (list A))) :=
  and_then (expand_dim n t) (map_result (expand_2d k d)).

(** [t.reshape(n, k, 1)] on a two-dimensional tensor: its elements, in
    row-major order, as [n] rows of [k] vectors of size one; an error unless
    there are [n * k] of them. *)
Definition chunk {A} (k n : nat) (l : list A) : list (list A) :=
  map (fun i => firstn k (skipn (i * k) l)) (seq 0 n).

Definition reshape_unit (n k : nat) (m : matrix) : result (list matrix) :=
  let flat := concat m in
  if length flat =? n * k
  then inr (map (map (fun a => [a])) (chunk k n flat))
  else inl RuntimeError.

(** The cells "Unsqueeze", "Expand" and "Compute pairwise cosine similarity"
    of [Cosine Similarity.ipynb], from the tensor [x = torch.randn(3)]:
[[
x_row_dup, x_col_dup = x[None,:], x[:,None]
x_row_dup, x_col_dup = x_row_dup.expand(3, 3), x_col_dup.expand(3, 3)
x_row_dup = x_row_dup.reshape(3, 3, 1)
x_col_dup = x_col_dup.reshape(3, 3, 1)
x_cosine_similarity = F.cosine_similarity(x_row_dup, x_col_dup, dim=-1)
]] *)
Definition scalar_pairs (x : list scalar) : result matrix :=
  let x_row_dup := unsqueeze0_vec x in
  let x_col_dup := unsqueeze1_vec x in
  and_then (expand_2d 3 3 x_row_dup) (fun x_row_dup =>
  and_then (expand_2d 3 3 x_col_dup) (fun x_col_dup =>
  and_then (reshape_unit 3 3 x_row_dup) (fun x_row_dup =>
  and_then (reshape_unit 3 3 x_col_dup) (fun x_col_dup =>
  cosine_similarity x_row_dup x_col_dup)))).

(** The cells "Stretch the tensors" and "Pairwise cosine similarity on
    expanded tensors", from the tensor [x = torch.randn(3, 2)]:
[[
x_row_dup, x_col_dup = x[None,:,:], x[:,None,:]
x_row_dup, x_col_dup = x_row_dup.expand(3, 3, 2), x_col_dup.expand(3, 3, 2)
x_cosine_similarity = F.cosine_similarity(x_row_dup, x_col_dup, dim=-1)
]] *)
Definition expanded_pairs (x : matrix) : result matrix :=
  let x_row_dup := unsqueeze0 x in
  let x_col_dup := unsqueeze1 x in
  and_then (expand_3d 3 3 2 x_row_dup) (fun x_row_dup =>
  and_then (expand_3d 3 3 2 x_col_dup) (fun x_col_dup =>
  cosine_similarity x_row_dup x_col_dup)).

(** The cell "Pairwise cosine similarity using broadcasting":
[[
x_row_dup, x_col_dup = x[None,:,:], x[:,None,:]
x_cosine_similarity = F.cosine_similarity(x_row_dup, x_col_dup, dim=-1)
]] *)
Definition broadcast_pairs (x : matrix) : result matrix :=
  let x_row_dup := unsqueeze0 x in
  let x_col_dup := unsqueeze1 x in
  cosine_similarity x_row_dup x_col_dup.

(** A tensor of shape [(n, k)], and one of shape [(a, b, d)]. *)
Definition has_shape {A} (n k : nat) (m : list (list A)) : Prop :=
  length m = n /\ Forall (fun row => length row = k) m.

Definition has_shape3 {A} (a b d : nat) (t : list (list (list A))) : Prop :=
  length t = a /\ Forall (has_shape b d) t.

(** [t.clone()]: a new tensor with the elements of [t]. *)
Definition clone (l : ref) : M ref :=
  t <- load l ;;
  alloc t.

(** The positive pairs of the notebook. *)
Definition notebook_pos_indices : list (Z * Z) :=
  [(0, 0); (0, 2); (0, 4);
   (1, 4); (1, 6); (1, 1);
   (2, 3);
   (3, 7);
   (4, 3);
   (7, 6)]%Z.

(** The cells of [NT-Xent Loss.ipynb] that build the two losses step by
    step, from the tensor [x = torch.randn(8, 2)]; the cells that only print
    or draw ([index], [ground_truth_labels]) are left out.  The first loss
    is [F.cross_entropy(y, target, reduction="mean")], the second
    [overall_loss].
[[
eye = torch.eye(8)
xcs = F.cosine_similarity(x[None,:,:], x[:,None,:], dim=-1)
y = xcs.clone()
y[eye.bool()] = float("-inf")
target = torch.arange(8)
target[0::2] += 1
target[1::2] -= 1
F.cross_entropy(y, target, reduction="mean")

target = torch.zeros(8, 8)
pos_indices = torch.tensor([(0, 0), (0, 2), (0, 4), (1, 4), (1, 6), (1, 1),
                            (2, 3), (3, 7), (4, 3), (7, 6)])
pos_indices = torch.cat([pos_indices, torch.arange(8).reshape(8, 1).expand(-1, 2)], dim=0)
target[pos_indices[:,0], pos_indices[:,1]] = 1
y = xcs.clone()
y[eye.bool()] = float("inf")
temperature = 0.1
loss = F.binary_cross_entropy((y / temperature).sigmoid(), target, reduction="none")
target_pos = target.bool()
target_neg = ~target_pos
loss_pos = torch.zeros(x.size(0), x.size(0)).masked_scatter(target_pos, loss[target_pos])
loss_neg = torch.zeros(x.size(0), x.size(0)).masked_scatter(target_neg, loss[target_neg])
loss_pos = loss_pos.sum(dim=1)
loss_neg = loss_neg.sum(dim=1)
num_pos = target.sum(dim=1)
num_neg = target.size(0) - num_pos
overall_loss = ((loss_pos / num_pos) + (loss_neg / num_neg)).mean()
]] *)
Definition notebook (x : ref) : M (scalar * scalar) :=
  let eye := eye 8 in
  xv <- load_float x ;;
  sim <- lift (cosine_similarity (unsqueeze0 xv) (unsqueeze1 xv)) ;;
  xcs <- alloc (FloatT sim) ;;
  y <- clone xcs ;;
  setitem_mask y (bool_ eye) NInf ;;
  target <- alloc (LongV (arange 8)) ;;
  iadd_slice target 0 2 1 ;;
  isub_slice target 1 2 1 ;;
  y_v <- load_float y ;;
  target_v <- load_long target ;;
  xent <- lift (cross_entropy y_v target_v) ;;
  target <- alloc (FloatT (zeros 8 8)) ;;
  let pos_indices := cat notebook_pos_indices (expand2 (arange 8)) in
  setitem_index target (map fst pos_indices) (map snd pos_indices) (Fin 1) ;;
  y <- clone xcs ;;
  setitem_mask y (bool_ eye) PInf ;;
  let temperature := (1 / 10)%R in
  y_v <- load_float y ;;
  target_v <- load_float target ;;
  loss <- lift (binary_cross_entropy
                  (map (map sigmoid) (div_scalar y_v temperature)) target_v) ;;
  let target_pos := bool_ target_v in
  let target_neg := logical_not target_pos in
  sel_pos <- lift (masked_select loss target_pos) ;;
  loss_pos <- lift (masked_scatter (zeros (length xv) (length xv))
                                   target_pos sel_pos) ;;
  sel_neg <- lift (masked_select loss target_neg) ;;
  loss_neg <- lift (masked_scatter (zeros (length xv) (length xv))
                                   target_neg sel_neg) ;;
  let loss_pos := sum_dim1 loss_pos in
  let loss_neg := sum_dim1 loss_neg in
  let num_pos := sum_dim1 target_v in
  let num_neg := rsub_scalar (length target_v) num_pos in
  let overall_loss := mean (vadd (vdiv loss_pos num_pos) (vdiv loss_neg num_neg)) in
  ret (xent, overall_loss).

(** Two results as one: the first error, or both values. *)
Definition both {A B} (r1 : result A) (r2 : result B) : result (A * B) :=
  match r1, r2 with
  | inl e, _ => inl e
  | inr _, inl e => inl e
  | inr a, inr b => inr (a, b)
  end.

(** The pairing steps [target[0::2] += 1; target[1::2] -= 1] on
    [torch.arange(n)]. *)
Definition pair_target (n : nat) : list Z :=
  slice_add 1 2 (- (1)) (slice_add 0 2 1 (arange n)).

(** A pair list with its negative indices counted from the end. *)
Definition from_end (n : nat) (z : Z) : Z :=
  if (z <? 0)%Z then (z + Z.of_nat n)%Z else z.

Definition pairs_from_end (n : nat) (p : list (Z * Z)) : list (Z * Z) :=
  map (fun rc => (from_end n (fst rc), from_end n (snd rc))) p.

(** A scalar that is a real number between 0 and [c]. *)
Definition bounded (c : R) (a : scalar) : Prop :=
  exists r, a = Fin r /\ (0 <= r <= c)%R.

(** A batch with every vector multiplied by [c]. *)
Definition scaled (c : R) (xr : list (list R)) : list (list R) :=
  map (map (Rmult c)) xr.

(** A bound on the norms of the vectors that keeps the norms, their
    squares and their products far inside the range of float32, so that
    nothing in [F.cosine_similarity] overflows. *)
Definition max_norm : R := 1000000000%R.

(* ===================================================================== *)
(** ** Facts about lists and entry-wise matrices *)
(* ===================================================================== *)

Section ListFacts.

Context {A B C : Type}.

Lemma map_seq_ext (f g : nat -> A) (s n : nat) :
  (forall i, s <= i < s + n -> f i = g i) ->
  map f (seq s n) = map g (seq s n).
Proof.
  intros H. apply map_ext_in. intros i Hi. apply in_seq in Hi. apply H. lia.
Qed.

Lemma map_as_seq (f : A -> B) (l : list A) (d : A) :
  map f l = map (fun i => f (nth i l d)) (seq 0 (length l)).
Proof.
  induction l as [|a l IH]; simpl; [reflexivity|].
  f_equal. rewrite <- seq_shift, map_map. exact IH.
Qed.

Lemma zip_with_map_seq (g : A -> B -> C) (f1 : nat -> A) (f2 : nat -> B)
      (s n : nat) :
  zip_with g (map f1 (seq s n)) (map f2 (seq s n))
  = map (fun i => g (f1 i) (f2 i)) (seq s n).
Proof.
  unfold zip_with. revert s. induction n as [|n IH]; intros s; simpl.
  - reflexivity.
  - f_equal. apply IH.
Qed.

Lemma combine_map_seq (f1 : nat -> A) (f2 : nat -> B) (s n : nat) :
  combine (map f1 (seq s n)) (map f2 (seq s n))
  = map (fun i => (f1 i, f2 i)) (seq s n).
Proof.
  revert s. induction n as [|n IH]; intros s; simpl.
  - reflexivity.
  - f_equal. apply IH.
Qed.

Lemma length_update (i : nat) (g : A -> A) (l : list A) :
  length (update i g l) = length l.
Proof.
  revert i. induction l as [|a l IH]; intros [|i]; simpl; auto.
Qed.

Lemma nth_update (i k : nat) (g : A -> A) (l : list A) (d : A) :
  k < length l ->
  nth k (update i g l) d = if k =? i then g (nth k l d) else nth k l d.
Proof.
  revert i k. induction l as [|a l IH]; intros i k Hk; simpl in Hk; [lia|].
  destruct i as [|i], k as [|k]; simpl; try reflexivity.
  apply IH. lia.
Qed.

Lemma update_map_seq (i : nat) (g : A -> A) (f : nat -> A) (n : nat) :
  update i g (map f (seq 0 n))
  = map (fun k => if k =? i then g (f k) else f k) (seq 0 n).
Proof.
  apply nth_ext with (d := f 0) (d' := (fun k => if k =? i then g (f k) else f k) 0).
  - rewrite length_update. now rewrite !length_map.
  - intros k Hk. rewrite length_update, length_map, length_seq in Hk.
    rewrite nth_update by (now rewrite length_map, length_seq).
    rewrite (map_nth f), (map_nth (fun k => if k =? i then g (f k) else f k)).
    rewrite seq_nth by exact Hk. reflexivity.
Qed.

End ListFacts.

Lemma length_tabulate {A} (n k : nat) (f : nat -> nat -> A) :
  length (tabulate n k f) = n.
Proof. unfold tabulate. now rewrite length_map, length_seq. Qed.

Lemma nth_tabulate {A} (n k : nat) (f : nat -> nat -> A) (i : nat) (d : list A) :
  i < n -> nth i (tabulate n k f) d = map (f i) (seq 0 k).
Proof.
  intros Hi. unfold tabulate.
  rewrite nth_indep with (d' := (fun i => map (fun j => f i j) (seq 0 k)) 0)
    by (now rewrite length_map, length_seq).
  rewrite (map_nth (fun i => map (fun j => f i j) (seq 0 k))).
  now rewrite seq_nth.
Qed.

Section TabulateFacts.

Context {A B C : Type}.

Lemma tabulate_ext (n k : nat) (f g : nat -> nat -> A) :
  (forall i j, i < n -> j < k -> f i j = g i j) ->
  tabulate n k f = tabulate n k g.
Proof.
  intros H. unfold tabulate. apply map_seq_ext. intros i Hi.
  apply map_seq_ext. intros j Hj. apply H; lia.
Qed.

Lemma map_tabulate (h : A -> B) (n k : nat) (f : nat -> nat -> A) :
  map (map h) (tabulate n k f) = tabulate n k (fun i j => h (f i j)).
Proof.
  unfold tabulate. rewrite map_map. apply map_ext. intros i.
  now rewrite map_map.
Qed.

Lemma zip_with_tabulate (g : A -> B -> C) (n k : nat)
      (f1 : nat -> nat -> A) (f2 : nat -> nat -> B) :
  zip_with (zip_with g) (tabulate n k f1) (tabulate n k f2)
  = tabulate n k (fun i j => g (f1 i j) (f2 i j)).
Proof.
  unfold tabulate. rewrite zip_with_map_seq. apply map_ext. intros i.
  apply zip_with_map_seq.
Qed.

Lemma same_shape_tabulate (n k : nat) (f1 : nat -> nat -> A)
      (f2 : nat -> nat -> B) :
  same_shape (tabulate n k f1) (tabulate n k f2) = true.
Proof.
  unfold same_shape. rewrite !length_tabulate, Nat.eqb_refl. simpl.
  unfold tabulate. rewrite combine_map_seq.
  apply forallb_forall. intros p Hin.
  apply in_map_iff in Hin. destruct Hin as (i & <- & _). simpl.
  rewrite !length_map. apply Nat.eqb_refl.
Qed.

End TabulateFacts.

Lemma entry_tabulate (n k : nat) (f : nat -> nat -> scalar) (i j : nat) :
  i < n -> j < k -> entry (tabulate n k f) i j = f i j.
Proof.
  intros Hi Hj. unfold entry. rewrite nth_tabulate by exact Hi.
  rewrite nth_indep with (d' := f i 0) by (now rewrite length_map, length_seq).
  rewrite (map_nth (f i)). now rewrite seq_nth.
Qed.

Lemma repeat_map_seq {A} (a : A) (s n : nat) :
  repeat a n = map (fun _ => a) (seq s n).
Proof.
  revert s. induction n as [|n IH]; intros s; simpl; [reflexivity|].
  f_equal. apply IH.
Qed.

Lemma zeros_tabulate (n k : nat) : zeros n k = tabulate n k (fun _ _ => Fin 0).
Proof.
  unfold zeros, tabulate. rewrite (repeat_map_seq _ 0 n).
  apply map_ext. intros _. apply repeat_map_seq.
Qed.

Lemma to_bool_one : to_bool (Fin 1) = true.
Proof. simpl. destruct (Req_EM_T 1 0) as [H|H]; [lra | reflexivity]. Qed.

Lemma to_bool_zero : to_bool (Fin 0) = false.
Proof. simpl. destruct (Req_EM_T 0 0) as [H|H]; [reflexivity | congruence]. Qed.

Lemma bool_eye (n : nat) : bool_ (eye n) = tabulate n n Nat.eqb.
Proof.
  unfold bool_, eye. fold (tabulate n n (fun i j => if i =? j then Fin 1 else Fin 0)).
  rewrite map_tabulate. apply tabulate_ext. intros i j _ _.
  destruct (i =? j); [apply to_bool_one | apply to_bool_zero].
Qed.

(* ===================================================================== *)
(** ** The similarity matrix *)
(* ===================================================================== *)

Lemma map_result_inr {A B} (h : A -> B) (l : list A) :
  map_result (fun a => inr (h a)) l = inr (map h l).
Proof.
  induction l as [|a l IH]; simpl; [reflexivity|]. now rewrite IH.
Qed.

Lemma map_result_map {A B C} (f : B -> result C) (h : A -> B) (l : list A) :
  map_result f (map h l) = map_result (fun a => f (h a)) l.
Proof.
  induction l as [|a l IH]; simpl; [reflexivity|]. now rewrite IH.
Qed.

Lemma map_result_ext {A B} (f g : A -> result B) (l : list A) :
  (forall a, f a = g a) -> map_result f l = map_result g l.
Proof.
  intros H. induction l as [|a l IH]; simpl; [reflexivity|].
  now rewrite H, IH.
Qed.

Lemma broadcast_singleton_r {A B C} (g : A -> B -> result C) (l : list A) (b : B) :
  broadcast g l [b] = map_result (fun a => g a b) l.
Proof.
  destruct l as [|a [|a' l]]; reflexivity.
Qed.

Lemma cosine_similarity_unsqueeze (xv : matrix) :
  cosine_similarity (unsqueeze0 xv) (unsqueeze1 xv) = inr (similarity xv).
Proof.
  unfold cosine_similarity, unsqueeze0, unsqueeze1. simpl.
  rewrite map_result_map.
  rewrite map_result_ext
    with (g := fun r => inr (map (fun u => cos_sim u r) xv)).
  - rewrite map_result_inr. apply f_equal. unfold similarity, tabulate.
    rewrite (map_as_seq _ xv []). apply map_ext. intros i.
    apply (map_as_seq (fun u => cos_sim u (nth i xv [])) xv []).
  - intros r. rewrite broadcast_singleton_r. apply map_result_inr.
Qed.

Lemma masked_fill_similarity (v : scalar) (xv : matrix) :
  masked_fill (similarity xv) (bool_ (eye (length xv))) v
  = inr (with_diagonal v xv).
Proof.
  unfold masked_fill, similarity. rewrite bool_eye, same_shape_tabulate.
  apply f_equal. rewrite zip_with_tabulate. reflexivity.
Qed.

(* ===================================================================== *)
(** ** Running the programs *)
(* ===================================================================== *)

Lemma nth_error_last (h : heap) (c : tensor) :
  nth_error (h ++ [c]) (length h) = Some c.
Proof.
  rewrite nth_error_app2 by lia. now rewrite Nat.sub_diag.
Qed.

Lemma nth_error_before_last (h : heap) (c d : tensor) :
  nth_error ((h ++ [c]) ++ [d]) (length h) = Some c.
Proof.
  rewrite nth_error_app1 by (rewrite length_app; simpl; lia).
  apply nth_error_last.
Qed.

Lemma update_last (h : heap) (c c' : tensor) :
  update (length h) (fun _ => c') (h ++ [c]) = h ++ [c'].
Proof.
  induction h as [|a h IH]; simpl; [reflexivity|]. now rewrite IH.
Qed.

Lemma update_before_last (h : heap) (c c' d : tensor) :
  update (length h) (fun _ => c') ((h ++ [c]) ++ [d]) = (h ++ [c']) ++ [d].
Proof.
  induction h as [|a h IH]; simpl; [reflexivity|]. now rewrite IH.
Qed.

Lemma ltb_length_last (h : heap) (c : tensor) :
  (length h <? length (h ++ [c])) = true.
Proof. apply Nat.ltb_lt. rewrite length_app. simpl. lia. Qed.

Lemma store_last (h : heap) (c c' : tensor) :
  store (length h) c' (h ++ [c]) = (inr tt, h ++ [c']).
Proof.
  unfold store. now rewrite ltb_length_last, update_last.
Qed.

Lemma load_last (h : heap) (c : tensor) :
  load (length h) (h ++ [c]) = (inr c, h ++ [c]).
Proof. unfold load. now rewrite nth_error_last. Qed.

Lemma setitem_mask_last (h : heap) (m : matrix) (k : mask) (v : scalar) :
  setitem_mask (length h) k v (h ++ [FloatT m])
  = match masked_fill m k v with
    | inl e => (inl e, h ++ [FloatT m])
    | inr m' => (inr tt, h ++ [FloatT m'])
    end.
Proof.
  unfold setitem_mask, load_float, bind, lift, ret. rewrite load_last.
  destruct (masked_fill m k v) as [e|m']; [reflexivity|]. apply store_last.
Qed.

Lemma setitem_index_last (h : heap) (m : matrix) (rows cols : list Z) (v : scalar) :
  setitem_index (length h) rows cols v (h ++ [FloatT m])
  = (fst (index_put m rows cols v),
     h ++ [FloatT (snd (index_put m rows cols v))]).
Proof.
  unfold setitem_index, load_float, bind, lift, ret. cbv zeta.
  rewrite load_last, store_last.
  destruct (index_put m rows cols v) as [[e|[]] m']; reflexivity.
Qed.

Lemma iadd_slice_last (h : heap) (v : list Z) (start step : nat) (c : Z) :
  iadd_slice (length h) start step c (h ++ [LongV v])
  = (inr tt, h ++ [LongV (slice_add start step c v)]).
Proof.
  unfold iadd_slice, load_long, bind, ret. rewrite load_last. apply store_last.
Qed.

Lemma isub_slice_last (h : heap) (v : list Z) (start step : nat) (c : Z) :
  isub_slice (length h) start step c (h ++ [LongV v])
  = (inr tt, h ++ [LongV (slice_add start step (- c) v)]).
Proof.
  unfold isub_slice, load_long, bind, ret. rewrite load_last. apply store_last.
Qed.

Lemma xent_target_value : xent_target = [1; 0; 3; 2; 5; 4; 7; 6]%Z.
Proof. reflexivity. Qed.

Lemma run_bind {A B} (c : M A) (f : A -> M B) (h h' : heap) (a : A) :
  c h = (inr a, h') -> bind c f h = f a h'.
Proof. intros H. unfold bind. now rewrite H. Qed.

Lemma run_bind_raise {A B} (c : M A) (f : A -> M B) (h h' : heap) (e : exn) :
  c h = (inl e, h') -> bind c f h = (inl e, h').
Proof. intros H. unfold bind. now rewrite H. Qed.

Lemma assert_2d_float (h : heap) (x : ref) (xv : matrix) :
  nth_error h x = Some (FloatT xv) -> assert_2d x h = (inr tt, h).
Proof. intros H. unfold assert_2d, bind, load. now rewrite H. Qed.

Lemma load_float_ok (h : heap) (x : ref) (xv : matrix) :
  nth_error h x = Some (FloatT xv) -> load_float x h = (inr xv, h).
Proof. intros H. unfold load_float, bind, load. now rewrite H. Qed.

Lemma load_long_ok (h : heap) (x : ref) (v : list Z) :
  nth_error h x = Some (LongV v) -> load_long x h = (inr v, h).
Proof. intros H. unfold load_long, bind, load. now rewrite H. Qed.

Lemma load_pairs_ok (h : heap) (x : ref) (p : list (Z * Z)) :
  nth_error h x = Some (PairsT p) -> load_pairs x h = (inr p, h).
Proof. intros H. unfold load_pairs, bind, load. now rewrite H. Qed.

(** One step of a program: the first command of a [bind] returns. *)
Ltac run_step tac :=
  eapply eq_trans; [ eapply run_bind; tac | cbv beta zeta ].

Lemma nt_xent_loss_run (h : heap) (x : ref) (xv : matrix) (t : R) :
  nth_error h x = Some (FloatT xv) ->
  nt_xent_loss x t h
  = (xent_value xv t,
     (h ++ [FloatT (with_diagonal NInf xv)]) ++ [LongV xent_target]).
Proof.
  intros Hx. unfold nt_xent_loss.
  run_step ltac:(apply (assert_2d_float _ _ Hx)).
  run_step ltac:(apply (load_float_ok _ _ Hx)).
  run_step ltac:(unfold lift; rewrite cosine_similarity_unsqueeze; reflexivity).
  run_step ltac:(reflexivity).
  run_step ltac:(rewrite setitem_mask_last, masked_fill_similarity; reflexivity).
  run_step ltac:(reflexivity).
  run_step ltac:(apply iadd_slice_last).
  run_step ltac:(apply isub_slice_last).
  run_step ltac:(apply load_float_ok; apply nth_error_before_last).
  run_step ltac:(apply load_long_ok; apply nth_error_last).
  reflexivity.
Qed.

Lemma nt_xent_loss_any (h : heap) (x : ref) (t : R) :
  exists k,
    nt_xent_loss x t h = (xent_result (nth_error h x) t, h ++ k)
    /\ (k = [] \/ x < length h).
Proof.
  destruct (nth_error h x) as [[xv|v|p]|] eqn:Hx; simpl.
  - eexists. split.
    + rewrite (@nt_xent_loss_run h x xv t Hx), <- app_assoc. reflexivity.
    + right. apply nth_error_Some. congruence.
  - exists []. split; [|now left]. rewrite app_nil_r. unfold nt_xent_loss.
    apply run_bind_raise. unfold assert_2d, bind, load. now rewrite Hx.
  - exists []. split; [|now left]. rewrite app_nil_r. unfold nt_xent_loss.
    run_step ltac:(unfold assert_2d, bind, load; rewrite Hx; reflexivity).
    apply run_bind_raise. unfold load_float, bind, load. now rewrite Hx.
  - exists []. split; [|now left]. rewrite app_nil_r. unfold nt_xent_loss.
    apply run_bind_raise. unfold assert_2d, bind, load. now rewrite Hx.
Qed.

Lemma length_div_scalar (m : matrix) (t : R) :
  length (div_scalar m t) = length m.
Proof. unfold div_scalar. apply length_map. Qed.

Lemma length_with_diagonal (v : scalar) (xv : matrix) :
  length (with_diagonal v xv) = length xv.
Proof. apply length_tabulate. Qed.

(** The batch-size check of [cross_entropy] compares the number of rows of
    the batch to the eight targets. *)
Lemma xent_value_mismatch (xv : matrix) (t : R) :
  length xv <> 8 -> xent_value xv t = inl ValueError.
Proof.
  intros Hn. unfold xent_value, cross_entropy.
  rewrite length_div_scalar, length_with_diagonal.
  change (length xent_target) with 8.
  apply Nat.eqb_neq in Hn. now rewrite Hn.
Qed.

Lemma div_scalar_with_diagonal (v : scalar) (xv : matrix) (t : R) :
  div_scalar (with_diagonal v xv) t
  = map (fun i => map (fun j => fdiv (if i =? j then v
                                      else cos_sim (nth j xv []) (nth i xv []))
                                     (Fin t))
                      (seq 0 (length xv)))
        (seq 0 (length xv)).
Proof.
  unfold div_scalar, with_diagonal. rewrite map_tabulate. reflexivity.
Qed.

Lemma cross_entropy_seq (F : nat -> list scalar) (T : nat -> Z) (n : nat) :
  (forall i, i < n -> target_ok (F i) (T i) = true) ->
  cross_entropy (map F (seq 0 n)) (map T (seq 0 n))
  = inr (mean (map (fun i => fneg (nth (Z.to_nat (T i)) (log_softmax (F i)) NaN))
                   (seq 0 n))).
Proof.
  intros Hok. unfold cross_entropy.
  rewrite !length_map, Nat.eqb_refl. simpl negb at 1. cbv iota.
  unfold zip_with. rewrite combine_map_seq, map_map.
  replace (forallb _ _) with true; [reflexivity|].
  symmetry. apply forallb_forall. intros p Hp. apply in_map_iff in Hp.
  destruct Hp as (i & <- & Hi). apply in_seq in Hi. apply Hok. lia.
Qed.

Lemma xent_value_8 (xv : matrix) (t : R) :
  length xv = 8 ->
  xent_value xv t
  = inr (mean (map (fun i => fneg (nth (Z.to_nat (nth i xent_target 0%Z))
                                       (log_softmax (xent_logits xv t i)) NaN))
                   (seq 0 8))).
Proof.
  intros Hn. unfold xent_value. rewrite div_scalar_with_diagonal.
  change (map _ (seq 0 (length xv)))
    with (map (xent_logits xv t) (seq 0 (length xv))).
  rewrite Hn.
  change xent_target with (map (fun i => nth i xent_target 0%Z) (seq 0 8)) at 1.
  apply cross_entropy_seq.
  intros i Hi. unfold target_ok, xent_logits. rewrite length_map, length_seq, Hn.
  do 8 (destruct i as [|i]; [reflexivity|]). lia.
Qed.

(* ===================================================================== *)
(** ** The target matrix of [nt_bxent_loss] *)
(* ===================================================================== *)

Lemma set_entry_tabulate (n k : nat) (f : nat -> nat -> scalar) (i j : nat)
      (v : scalar) :
  set_entry (tabulate n k f) i j v
  = tabulate n k (fun a b => if (a =? i) && (b =? j) then v else f a b).
Proof.
  unfold set_entry, tabulate. rewrite update_map_seq.
  apply map_ext. intros a. destruct (a =? i); simpl.
  - apply update_map_seq.
  - reflexivity.
Qed.

Lemma ncols_tabulate (n : nat) (f : nat -> nat -> scalar) :
  ncols (tabulate n n f) = n.
Proof.
  unfold ncols, tabulate. destruct n as [|n]; [reflexivity|].
  simpl. now rewrite length_map, length_seq.
Qed.

Lemma written_valid (n : nat) (idx : list (Z * Z)) :
  forallb (valid_index n) idx = true -> written n idx = idx.
Proof.
  induction idx as [|rc idx IH]; simpl; [reflexivity|].
  intros H. apply andb_prop in H. destruct H as [H1 H2].
  now rewrite H1, IH.
Qed.

Lemma written_app (n : nat) (p q : list (Z * Z)) :
  forallb (valid_index n) p = false -> written n (p ++ q) = written n p.
Proof.
  induction p as [|rc p IH]; simpl; [discriminate|].
  destruct (valid_index n rc); [|reflexivity].
  simpl. intros H. now rewrite IH.
Qed.

Lemma index_put_pairs_tabulate (n : nat) (idx : list (Z * Z)) (v : scalar)
      (f : nat -> nat -> scalar) :
  index_put_pairs (tabulate n n f) idx v
  = (if forallb (valid_index n) idx then inr tt else inl IndexError,
     tabulate n n (fun i j => if hit n (written n idx) i j then v else f i j)).
Proof.
  revert f. induction idx as [|[r c] idx IH]; intros f.
  - reflexivity.
  - simpl index_put_pairs. rewrite length_tabulate, ncols_tabulate.
    simpl forallb. simpl written. unfold valid_index at 1 3.
    simpl fst. simpl snd.
    destruct (wrap n r) as [i|] eqn:Hr; [|reflexivity].
    destruct (wrap n c) as [j|] eqn:Hc; [|reflexivity].
    rewrite set_entry_tabulate, IH. simpl andb.
    f_equal. apply tabulate_ext. intros a b _ _.
    simpl hit. unfold addresses at 1. simpl fst. simpl snd. rewrite Hr, Hc.
    rewrite (Nat.eqb_sym i a), (Nat.eqb_sym j b).
    destruct (hit n (written n idx) a b); [now rewrite orb_true_r|].
    now rewrite orb_false_r.
Qed.

Lemma combine_fst_snd {A B} (l : list (A * B)) :
  combine (map fst l) (map snd l) = l.
Proof.
  induction l as [|[a b] l IH]; simpl; [reflexivity|]. now rewrite IH.
Qed.

Lemma index_put_target (n : nat) (p : list (Z * Z)) :
  index_put (zeros n n) (map fst (all_pairs n p)) (map snd (all_pairs n p)) (Fin 1)
  = (if forallb (valid_index n) (all_pairs n p) then inr tt else inl IndexError,
     written_target n p).
Proof.
  unfold index_put. rewrite !length_map, Nat.eqb_refl, combine_fst_snd.
  rewrite zeros_tabulate. apply index_put_pairs_tabulate.
Qed.

Lemma wrap_of_nat (n i : nat) : i < n -> wrap n (Z.of_nat i) = Some i.
Proof.
  intros Hi. unfold wrap.
  replace ((0 <=? Z.of_nat i)%Z) with true by (symmetry; apply Z.leb_le; lia).
  replace ((Z.of_nat i <? Z.of_nat n)%Z) with true
    by (symmetry; apply Z.ltb_lt; lia).
  simpl. now rewrite Nat2Z.id.
Qed.

Lemma wrap_bound (n : nat) (z : Z) (i : nat) : wrap n z = Some i -> i < n.
Proof.
  unfold wrap.
  destruct ((0 <=? z)%Z && (z <? Z.of_nat n)%Z) eqn:H1.
  - intros [= <-]. apply andb_prop in H1. destruct H1 as [H1 H2].
    apply Z.leb_le in H1. apply Z.ltb_lt in H2. lia.
  - destruct ((- Z.of_nat n <=? z)%Z && (z <? 0)%Z) eqn:H2; [|discriminate].
    intros [= <-]. apply andb_prop in H2. destruct H2 as [H2 H3].
    apply Z.leb_le in H2. apply Z.ltb_lt in H3. lia.
Qed.

Lemma valid_diagonal (n : nat) :
  forallb (valid_index n) (expand2 (arange n)) = true.
Proof.
  apply forallb_forall. intros rc Hin. unfold expand2, arange in Hin.
  rewrite map_map in Hin. apply in_map_iff in Hin.
  destruct Hin as (i & <- & Hi). apply in_seq in Hi.
  unfold valid_index. simpl. now rewrite wrap_of_nat by lia.
Qed.

Lemma valid_all_pairs (n : nat) (p : list (Z * Z)) :
  forallb (valid_index n) (all_pairs n p) = forallb (valid_index n) p.
Proof.
  unfold all_pairs, cat. rewrite forallb_app, valid_diagonal.
  apply andb_true_r.
Qed.

Lemma written_target_valid (n : nat) (p : list (Z * Z)) :
  forallb (valid_index n) p = true -> written_target n p = bxent_target n p.
Proof.
  intros H. unfold written_target, bxent_target, positive.
  rewrite written_valid; [reflexivity|]. now rewrite valid_all_pairs.
Qed.

Lemma written_target_invalid (n : nat) (p : list (Z * Z)) :
  forallb (valid_index n) p = false ->
  written_target n p
  = tabulate n n (fun i j => if hit n (written n p) i j then Fin 1 else Fin 0).
Proof.
  intros H. unfold written_target, all_pairs, cat. now rewrite written_app.
Qed.

Lemma hit_diagonal (n i j : nat) :
  i < n -> hit n (expand2 (arange n)) i j = (i =? j).
Proof.
  intros Hi. unfold hit. destruct (i =? j) eqn:Hij.
  - apply Nat.eqb_eq in Hij. subst j. apply existsb_exists.
    exists (Z.of_nat i, Z.of_nat i). split.
    + unfold expand2, arange. rewrite map_map. apply in_map_iff.
      exists i. split; [reflexivity|]. apply in_seq. lia.
    + unfold addresses. simpl. rewrite wrap_of_nat by exact Hi.
      now rewrite Nat.eqb_refl.
  - apply Nat.eqb_neq in Hij.
    destruct (existsb _ _) eqn:He; [|reflexivity]. exfalso.
    apply existsb_exists in He. destruct He as (rc & Hin & Hrc).
    unfold expand2, arange in Hin. rewrite map_map in Hin.
    apply in_map_iff in Hin. destruct Hin as (a & <- & Ha).
    apply in_seq in Ha. unfold addresses in Hrc. simpl in Hrc.
    rewrite wrap_of_nat in Hrc by lia.
    apply andb_prop in Hrc. destruct Hrc as [H1 H2].
    apply Nat.eqb_eq in H1. apply Nat.eqb_eq in H2. lia.
Qed.

Lemma positive_split (n : nat) (p : list (Z * Z)) (i j : nat) :
  i < n -> positive n p i j = hit n p i j || (i =? j).
Proof.
  intros Hi. unfold positive, all_pairs, cat, hit. rewrite existsb_app.
  f_equal. apply (hit_diagonal j Hi).
Qed.

(* ===================================================================== *)
(** ** Selecting and scattering through a mask *)
(* ===================================================================== *)

Lemma select_row_cons (a : scalar) (r : list scalar) (b : bool) (k : list bool) :
  select_row (a :: r) (b :: k)
  = if b then a :: select_row r k else select_row r k.
Proof. destruct b; reflexivity. Qed.

Lemma scatter_row_seq (E L : nat -> scalar) (K : nat -> bool) (n s : nat)
      (rest : list scalar) :
  scatter_row (map E (seq s n)) (map K (seq s n))
              (select_row (map L (seq s n)) (map K (seq s n)) ++ rest)
  = Some (map (fun j => if K j then L j else E j) (seq s n), rest).
Proof.
  revert s. induction n as [|n IH]; intros s.
  - reflexivity.
  - simpl map. rewrite select_row_cons.
    destruct (K s); simpl; now rewrite IH.
Qed.

Lemma scatter_rows_seq (E L : nat -> nat -> scalar) (K : nat -> nat -> bool)
      (k n s : nat) (rest : list scalar) :
  scatter_rows (map (fun i => map (E i) (seq 0 k)) (seq s n))
               (map (fun i => map (K i) (seq 0 k)) (seq s n))
               (concat (zip_with select_row
                                 (map (fun i => map (L i) (seq 0 k)) (seq s n))
                                 (map (fun i => map (K i) (seq 0 k)) (seq s n)))
                ++ rest)
  = Some (map (fun i => map (fun j => if K i j then L i j else E i j) (seq 0 k))
              (seq s n)).
Proof.
  revert s. induction n as [|n IH]; intros s.
  - reflexivity.
  - rewrite zip_with_map_seq. simpl map. simpl concat. rewrite <- app_assoc.
    simpl scatter_rows. rewrite scatter_row_seq.
    rewrite <- (zip_with_map_seq select_row
                  (fun i => map (L i) (seq 0 k)) (fun i => map (K i) (seq 0 k))).
    now rewrite IH.
Qed.

(** Scattering the selected elements of [L] back through the same mask:
    [E.masked_scatter(K, L[K])] is [L] where [K] holds and [E] elsewhere. *)
Lemma masked_scatter_select (n k : nat) (E L : nat -> nat -> scalar)
      (K : nat -> nat -> bool) :
  match masked_select (tabulate n k L) (tabulate n k K) with
  | inl e => inl e
  | inr sel => masked_scatter (tabulate n k E) (tabulate n k K) sel
  end
  = inr (tabulate n k (fun i j => if K i j then L i j else E i j)).
Proof.
  unfold masked_select, masked_scatter. rewrite !same_shape_tabulate.
  unfold tabulate.
  rewrite <- (app_nil_r (concat _)). now rewrite scatter_rows_seq.
Qed.

Lemma masked_select_scatter (n k : nat) (E L : nat -> nat -> scalar)
      (K : nat -> nat -> bool) :
  exists sel,
    masked_select (tabulate n k L) (tabulate n k K) = inr sel
    /\ masked_scatter (tabulate n k E) (tabulate n k K) sel
       = inr (tabulate n k (fun i j => if K i j then L i j else E i j)).
Proof.
  pose proof (masked_scatter_select n k E L K) as H.
  destruct (masked_select (tabulate n k L) (tabulate n k K)) as [e|sel].
  - discriminate H.
  - exists sel. split; [reflexivity | exact H].
Qed.

(* ===================================================================== *)
(** ** Running [nt_bxent_loss] *)
(* ===================================================================== *)

Lemma bxent_probs_tabulate (xv : matrix) (t : R) :
  map (map sigmoid) (div_scalar (with_diagonal PInf xv) t)
  = tabulate (length xv) (length xv) (bxent_prob xv t).
Proof.
  unfold div_scalar, with_diagonal. now rewrite !map_tabulate.
Qed.

Lemma bool_target (n : nat) (p : list (Z * Z)) :
  bool_ (bxent_target n p) = tabulate n n (positive n p).
Proof.
  unfold bool_, bxent_target. rewrite map_tabulate.
  apply tabulate_ext. intros i j _ _.
  destruct (positive n p i j); [apply to_bool_one | apply to_bool_zero].
Qed.

Lemma binary_cross_entropy_tabulate (n : nat) (P T : nat -> nat -> scalar) :
  binary_cross_entropy (tabulate n n P) (tabulate n n T)
  = if forallb (forallb in_unit) (tabulate n n P)
    then inr (tabulate n n (fun i j => bce (P i j) (T i j)))
    else inl RuntimeError.
Proof.
  unfold binary_cross_entropy. rewrite same_shape_tabulate. simpl negb.
  destruct (forallb (forallb in_unit) (tabulate n n P)); simpl; [|reflexivity].
  now rewrite zip_with_tabulate.
Qed.

Lemma nt_bxent_loss_run (h : heap) (x pr : ref) (xv : matrix)
      (p : list (Z * Z)) (t : R) :
  nth_error h x = Some (FloatT xv) ->
  nth_error h pr = Some (PairsT p) ->
  nt_bxent_loss x pr t h
  = (bxent_value xv p t,
     h ++ (if forallb (valid_index (length xv)) p
           then [FloatT (bxent_target (length xv) p);
                 FloatT (with_diagonal PInf xv)]
           else [FloatT (written_target (length xv) p)])).
Proof.
  intros Hx Hp. unfold nt_bxent_loss, bxent_value.
  cbv zeta.
  destruct (forallb (valid_index (length xv)) p) eqn:Hvalid.
  - destruct (forallb (forallb in_unit) (tabulate (length xv) (length xv) (bxent_prob xv t)))
      eqn:Hunit.
      destruct (masked_select_scatter (length xv) (length xv) (fun _ _ => Fin 0)
                  (bxent_bce xv p t) (positive (length xv) p)) as (sp & Hsp1 & Hsp2).
      destruct (masked_select_scatter (length xv) (length xv) (fun _ _ => Fin 0)
                  (bxent_bce xv p t) (fun i j => negb (positive (length xv) p i j)))
        as (sn & Hsn1 & Hsn2).
      run_step ltac:(apply (assert_2d_float _ _ Hx)).
      run_step ltac:(apply (load_float_ok _ _ Hx)).
      run_step ltac:(apply (load_pairs_ok _ _ Hp)).
      run_step ltac:(reflexivity).
      run_step ltac:(fold (all_pairs (length xv) p);
                     rewrite setitem_index_last, index_put_target,
                       valid_all_pairs, Hvalid,
                       (written_target_valid _ _ Hvalid);
                     cbv beta iota delta [fst snd]; reflexivity).
      run_step ltac:(unfold lift; rewrite cosine_similarity_unsqueeze; reflexivity).
      run_step ltac:(reflexivity).
      run_step ltac:(rewrite setitem_mask_last, masked_fill_similarity; reflexivity).
      run_step ltac:(apply load_float_ok; apply nth_error_last).
      run_step ltac:(apply load_float_ok; apply nth_error_before_last).
      run_step ltac:(unfold lift; rewrite bxent_probs_tabulate;
                     unfold bxent_target;
                     rewrite binary_cross_entropy_tabulate;
                     rewrite Hunit; reflexivity).
      fold (bxent_target (length xv) p). rewrite bool_target.
      change (tabulate (length xv) (length xv) (fun i j => bce (bxent_prob xv t i j)
                (if positive (length xv) p i j then Fin 1 else Fin 0)))
        with (tabulate (length xv) (length xv) (bxent_bce xv p t)).
      rewrite zeros_tabulate.
      run_step ltac:(unfold lift; rewrite Hsp1; reflexivity).
      run_step ltac:(unfold lift; rewrite Hsp2; reflexivity).
      run_step ltac:(unfold lift, logical_not; rewrite map_tabulate, Hsn1;
                     reflexivity).
      run_step ltac:(unfold lift, logical_not; rewrite map_tabulate, Hsn2;
                     reflexivity).
      unfold ret. rewrite <- app_assoc. simpl app. f_equal. f_equal. f_equal.
      unfold vadd, vdiv, rsub_scalar, sum_dim1, bxent_target, tabulate.
      rewrite !map_map, !zip_with_map_seq. reflexivity.
      run_step ltac:(apply (assert_2d_float _ _ Hx)).
      run_step ltac:(apply (load_float_ok _ _ Hx)).
      run_step ltac:(apply (load_pairs_ok _ _ Hp)).
      run_step ltac:(reflexivity).
      run_step ltac:(fold (all_pairs (length xv) p);
                     rewrite setitem_index_last, index_put_target,
                       valid_all_pairs, Hvalid,
                       (written_target_valid _ _ Hvalid);
                     cbv beta iota delta [fst snd]; reflexivity).
      run_step ltac:(unfold lift; rewrite cosine_similarity_unsqueeze; reflexivity).
      run_step ltac:(reflexivity).
      run_step ltac:(rewrite setitem_mask_last, masked_fill_similarity; reflexivity).
      run_step ltac:(apply load_float_ok; apply nth_error_last).
      run_step ltac:(apply load_float_ok; apply nth_error_before_last).
      rewrite <- app_assoc. apply run_bind_raise.
      unfold lift. rewrite bxent_probs_tabulate. unfold bxent_target.
      rewrite binary_cross_entropy_tabulate. now rewrite Hunit.
  - run_step ltac:(apply (assert_2d_float _ _ Hx)).
    run_step ltac:(apply (load_float_ok _ _ Hx)).
    run_step ltac:(apply (load_pairs_ok _ _ Hp)).
    run_step ltac:(reflexivity).
    apply run_bind_raise. fold (all_pairs (length xv) p).
    rewrite setitem_index_last, index_put_target, valid_all_pairs, Hvalid.
    reflexivity.
Qed.

Lemma nt_bxent_loss_any (h : heap) (x pr : ref) (t : R) :
  exists k,
    nt_bxent_loss x pr t h
    = (bxent_result (nth_error h x) (nth_error h pr) t, h ++ k)
    /\ (k = [] \/ (x < length h /\ pr < length h)).
Proof.
  destruct (nth_error h x) as [[xv|v|q]|] eqn:Hx; simpl.
  - destruct (nth_error h pr) as [[m|v|p]|] eqn:Hp.
    + exists []. split; [|now left]. rewrite app_nil_r. unfold nt_bxent_loss.
      run_step ltac:(apply (assert_2d_float _ _ Hx)).
      run_step ltac:(apply (load_float_ok _ _ Hx)).
      apply run_bind_raise. unfold load_pairs, bind, load. now rewrite Hp.
    + exists []. split; [|now left]. rewrite app_nil_r. unfold nt_bxent_loss.
      run_step ltac:(apply (assert_2d_float _ _ Hx)).
      run_step ltac:(apply (load_float_ok _ _ Hx)).
      apply run_bind_raise. unfold load_pairs, bind, load. now rewrite Hp.
    + eexists. split.
      * apply (@nt_bxent_loss_run h x pr xv p t Hx Hp).
      * right. split; apply nth_error_Some; congruence.
    + exists []. split; [|now left]. rewrite app_nil_r. unfold nt_bxent_loss.
      run_step ltac:(apply (assert_2d_float _ _ Hx)).
      run_step ltac:(apply (load_float_ok _ _ Hx)).
      apply run_bind_raise. unfold load_pairs, bind, load. now rewrite Hp.
  - exists []. split; [|now left]. rewrite app_nil_r. unfold nt_bxent_loss.
    apply run_bind_raise. unfold assert_2d, bind, load. now rewrite Hx.
  - exists []. split; [|now left]. rewrite app_nil_r. unfold nt_bxent_loss.
    run_step ltac:(unfold assert_2d, bind, load; rewrite Hx; reflexivity).
    apply run_bind_raise. unfold load_float, bind, load. now rewrite Hx.
  - exists []. split; [|now left]. rewrite app_nil_r. unfold nt_bxent_loss.
    apply run_bind_raise. unfold assert_2d, bind, load. now rewrite Hx.
Qed.

(* ===================================================================== *)
(** ** Arithmetic on real-valued batches *)
(* ===================================================================== *)

Section RealBatches.

Local Open Scope R_scope.

Lemma fold_fadd_Fin (l : list R) (a : R) :
  fold_left fadd (map Fin l) (Fin a) = Fin (fold_left Rplus l a).
Proof.
  revert a. induction l as [|b l IH]; intros a; simpl; [reflexivity|].
  apply IH.
Qed.

Lemma fsum_Fin (l : list R) : fsum (map Fin l) = Fin (rsum l).
Proof. apply fold_fadd_Fin. Qed.

Lemma zip_with_fmul_Fin (u v : list R) :
  zip_with fmul (map Fin u) (map Fin v) = map Fin (zip_with Rmult u v).
Proof.
  unfold zip_with. revert v. induction u as [|a u IH]; intros [|b v]; simpl;
    try reflexivity.
  now rewrite IH.
Qed.

Lemma dot_reals (u v : list R) : dot (map Fin u) (map Fin v) = Fin (rdot u v).
Proof. unfold dot. rewrite zip_with_fmul_Fin. apply fsum_Fin. Qed.

Lemma fold_Rplus_nonneg (l : list R) (a : R) :
  0 <= a -> Forall (fun b => 0 <= b) l -> 0 <= fold_left Rplus l a.
Proof.
  revert a. induction l as [|b l IH]; intros a Ha Hl; simpl; [exact Ha|].
  inversion Hl; subst. apply IH; [lra | assumption].
Qed.

Lemma rsum_squares_nonneg (u : list R) : 0 <= rsum (map (fun a => a * a) u).
Proof.
  apply fold_Rplus_nonneg; [lra|].
  apply Forall_forall. intros b Hb. apply in_map_iff in Hb.
  destruct Hb as (a & <- & _). nra.
Qed.

Lemma norm_reals (u : list R) : norm (map Fin u) = Fin (rnorm u).
Proof.
  unfold norm, rnorm. rewrite map_map.
  change (map (fun a => fmul (Fin a) (Fin a)) u)
    with (map (fun a => Fin (a * a)) u).
  rewrite <- (map_map (fun a => a * a) Fin), fsum_Fin. simpl.
  destruct (Rlt_dec (rsum (map (fun a => a * a) u)) 0) as [H|H]; [|reflexivity].
  pose proof (rsum_squares_nonneg u). lra.
Qed.

Lemma eps_pos : 0 < eps.
Proof. unfold eps. lra. Qed.

Lemma floor_pos (a : R) : 0 < Rmax a eps.
Proof.
  pose proof eps_pos. pose proof (Rmax_r a eps). lra.
Qed.

Lemma cos_sim_reals (u v : list R) :
  cos_sim (map Fin u) (map Fin v) = Fin (rcos u v).
Proof.
  unfold cos_sim, rcos. rewrite dot_reals, !norm_reals. simpl.
  destruct (Req_EM_T (Rmax (rnorm u) eps * Rmax (rnorm v) eps) 0) as [H|H];
    [|reflexivity].
  pose proof (floor_pos (rnorm u)). pose proof (floor_pos (rnorm v)). nra.
Qed.

Lemma nth_of_reals (xr : list (list R)) (i : nat) :
  nth i (of_reals xr) [] = map Fin (nth i xr []).
Proof.
  unfold of_reals. change (@nil scalar) with (map Fin []).
  apply map_nth.
Qed.

Lemma length_of_reals (xr : list (list R)) : length (of_reals xr) = length xr.
Proof. apply length_map. Qed.

(** Every entry of the similarity matrix of a real batch is a real number:
    no division by zero occurs. *)
Lemma similarity_reals (xr : list (list R)) (i j : nat) :
  cos_sim (nth j (of_reals xr) []) (nth i (of_reals xr) [])
  = Fin (rcos (nth j xr []) (nth i xr [])).
Proof. rewrite !nth_of_reals. apply cos_sim_reals. Qed.

Lemma sigmoid_in_unit (r : R) : in_unit (sigmoid (Fin r)) = true.
Proof.
  simpl. pose proof (exp_pos (- r)) as He.
  assert (H0 : 0 < 1 / (1 + exp (- r))).
  { apply Rdiv_lt_0_compat; lra. }
  assert (H1 : 1 / (1 + exp (- r)) <= 1).
  { apply (Rmult_le_reg_r (1 + exp (- r))); [lra|].
    unfold Rdiv. rewrite Rmult_assoc, Rinv_l by lra. lra. }
  destruct (Rle_dec 0 (1 / (1 + exp (- r)))) as [Ha|Ha]; [|lra].
  destruct (Rle_dec (1 / (1 + exp (- r))) 1) as [Hb|Hb]; [reflexivity|lra].
Qed.

Lemma fdiv_Fin (a t : R) : t <> 0 -> fdiv (Fin a) (Fin t) = Fin (a / t).
Proof.
  intros Ht. simpl. destruct (Req_EM_T t 0) as [H|H]; [contradiction|reflexivity].
Qed.

Lemma prob_in_unit (xr : list (list R)) (t : R) (i j : nat) :
  t <> 0 -> in_unit (bxent_prob (of_reals xr) t i j) = true.
Proof.
  intros Ht. unfold bxent_prob. destruct (i =? j).
  - simpl. destruct (Rlt_dec t 0); simpl.
    + destruct (Rle_dec 0 0) as [_|H]; [|lra].
      destruct (Rle_dec 0 1) as [_|H]; [reflexivity|lra].
    + destruct (Rle_dec 0 1) as [_|H]; [|lra].
      destruct (Rle_dec 1 1) as [_|H]; [reflexivity|lra].
  - rewrite similarity_reals, fdiv_Fin by exact Ht. apply sigmoid_in_unit.
Qed.

Lemma forallb_tabulate {A} (q : A -> bool) (n k : nat) (f : nat -> nat -> A) :
  (forall i j, (i < n)%nat -> (j < k)%nat -> q (f i j) = true) ->
  forallb (forallb q) (tabulate n k f) = true.
Proof.
  intros H. unfold tabulate. apply forallb_forall. intros row Hrow.
  apply in_map_iff in Hrow. destruct Hrow as (i & <- & Hi). apply in_seq in Hi.
  apply forallb_forall. intros a Ha. apply in_map_iff in Ha.
  destruct Ha as (j & <- & Hj). apply in_seq in Hj. apply H; lia.
Qed.

Lemma probs_in_unit (xr : list (list R)) (t : R) :
  t <> 0 ->
  forallb (forallb in_unit)
          (tabulate (length (of_reals xr)) (length (of_reals xr))
                    (bxent_prob (of_reals xr) t)) = true.
Proof.
  intros Ht. apply forallb_tabulate. intros i j _ _. now apply prob_in_unit.
Qed.

End RealBatches.

(* ===================================================================== *)
(** ** Properties of the similarity matrix *)
(* ===================================================================== *)

Lemma fmul_comm (a b : scalar) : fmul a b = fmul b a.
Proof.
  destruct a as [x| | |], b as [y| | |]; simpl; try reflexivity.
  now rewrite Rmult_comm.
Qed.

Lemma zip_with_comm {A B} (f : A -> A -> B) (u v : list A) :
  (forall a b, f a b = f b a) -> zip_with f u v = zip_with f v u.
Proof.
  intros Hf. unfold zip_with. revert v.
  induction u as [|a u IH]; intros [|b v]; simpl; try reflexivity.
  now rewrite Hf, IH.
Qed.

Lemma cos_sim_comm (u v : list scalar) : cos_sim u v = cos_sim v u.
Proof.
  unfold cos_sim, dot.
  rewrite (zip_with_comm fmul u v fmul_comm).
  now rewrite (fmul_comm (fmax (norm u) (Fin eps))).
Qed.

(** C7.  The cosine-similarity matrix computed by both losses,
    [F.cosine_similarity(x[None,:,:], x[:,None,:], dim=-1)], is symmetric:
    for every batch of [N] vectors (of any elements, finite or not) and all
    [i], [j] below [N], entries [(i, j)] and [(j, i)] are equal. *)
Theorem cosine_similarity_symmetric (xv : matrix) (i j : nat) :
  i < length xv -> j < length xv ->
  exists m,
    cosine_similarity (unsqueeze0 xv) (unsqueeze1 xv) = inr m
    /\ entry m i j = entry m j i.
Proof.
  intros Hi Hj. exists (similarity xv). split.
  - apply cosine_similarity_unsqueeze.
  - unfold similarity. rewrite !entry_tabulate by assumption.
    apply cos_sim_comm.
Qed.

Lemma cosine_similarity_symmetric_witness :
  exists m,
    cosine_similarity (unsqueeze0 (of_reals [[1; 2]; [3; 4]; [0; 0]]%R))
                      (unsqueeze1 (of_reals [[1; 2]; [3; 4]; [0; 0]]%R)) = inr m
    /\ entry m 0 2 = entry m 2 0.
Proof.
  apply (@cosine_similarity_symmetric
           (of_reals [[1; 2]; [3; 4]; [0; 0]]%R) 0 2); simpl; lia.
Defined.

Section ZeroVectors.

Local Open Scope R_scope.

Lemma rsum_zeros (l : list R) : Forall (fun a => a = 0) l -> rsum l = 0.
Proof.
  unfold rsum. induction l as [|a l IH]; intros H; simpl; [reflexivity|].
  inversion H; subst. rewrite Rplus_0_l. now apply IH.
Qed.

Lemma zip_mult_zeros_l (z v : list R) :
  Forall (fun a => a = 0) z -> Forall (fun a => a = 0) (zip_with Rmult z v).
Proof.
  unfold zip_with. intros Hz. revert v.
  induction Hz as [|a z Ha Hz IH]; intros [|b v]; simpl; constructor.
  - simpl. subst a. apply Rmult_0_l.
  - apply IH.
Qed.

Lemma rdot_comm (u v : list R) : rdot u v = rdot v u.
Proof.
  unfold rdot. now rewrite (zip_with_comm Rmult u v Rmult_comm).
Qed.

Lemma rdot_zeros_l (z v : list R) : Forall (fun a => a = 0) z -> rdot z v = 0.
Proof. intros Hz. apply rsum_zeros. now apply zip_mult_zeros_l. Qed.

Lemma rcos_zeros_l (z v : list R) : Forall (fun a => a = 0) z -> rcos z v = 0.
Proof.
  intros Hz. unfold rcos. rewrite rdot_zeros_l by exact Hz.
  unfold Rdiv. apply Rmult_0_l.
Qed.

Lemma rcos_zeros_r (z v : list R) : Forall (fun a => a = 0) z -> rcos v z = 0.
Proof.
  intros Hz. unfold rcos. rewrite rdot_comm, rdot_zeros_l by exact Hz.
  unfold Rdiv. apply Rmult_0_l.
Qed.

End ZeroVectors.

(** C10.  For every real-valued batch whose vector [i] is all zeros, the raw
    cosine-similarity matrix (before any sentinel is written) is well
    defined: every entry is a real number, and every entry of row [i] and of
    column [i], the diagonal entry included, is 0. *)
Theorem zero_vector_similarity (xr : list (list R)) (i j : nat) :
  i < length xr -> j < length xr ->
  Forall (fun a => a = 0%R) (nth i xr []) ->
  exists m,
    cosine_similarity (unsqueeze0 (of_reals xr)) (unsqueeze1 (of_reals xr))
    = inr m
    /\ entry m i j = Fin 0 /\ entry m j i = Fin 0 /\ entry m i i = Fin 0
    /\ (forall a b, a < length xr -> b < length xr -> is_finite (entry m a b)).
Proof.
  intros Hi Hj Hz. exists (similarity (of_reals xr)).
  split; [apply cosine_similarity_unsqueeze|].
  unfold similarity. rewrite length_of_reals.
  repeat split.
  - rewrite entry_tabulate, similarity_reals by assumption.
    now rewrite rcos_zeros_r.
  - rewrite entry_tabulate, similarity_reals by assumption.
    now rewrite rcos_zeros_l.
  - rewrite entry_tabulate, similarity_reals by assumption.
    now rewrite rcos_zeros_l.
  - intros a b Ha Hb. rewrite entry_tabulate, similarity_reals by assumption.
    now eexists.
Qed.

Lemma zero_vector_similarity_witness :
  exists m,
    cosine_similarity (unsqueeze0 (of_reals [[0; 0]; [3; 4]]%R))
                      (unsqueeze1 (of_reals [[0; 0]; [3; 4]]%R)) = inr m
    /\ entry m 0 1 = Fin 0 /\ entry m 1 0 = Fin 0 /\ entry m 0 0 = Fin 0
    /\ (forall a b, a < 2 -> b < 2 -> is_finite (entry m a b)).
Proof.
  apply (@zero_vector_similarity [[0; 0]; [3; 4]]%R 0 1).
  - simpl; lia.
  - simpl; lia.
  - simpl. repeat constructor.
Defined.

(* ===================================================================== *)
(** ** The class targets and the batch size of [nt_xent_loss] *)
(* ===================================================================== *)

(** Whatever the batch, the target tensor holds the partners of the indices
    0 to 7 and nothing else. *)
Lemma xent_target_partner (i : nat) :
  nth_error xent_target i = if i <? 8 then Some (partner i) else None.
Proof.
  do 8 (destruct i as [|i]; [reflexivity|]). destruct i; reflexivity.
Qed.

Lemma nt_xent_loss_target (h : heap) (x : ref) (xv : matrix) (t : R) :
  nth_error h x = Some (FloatT xv) ->
  nth_error (snd (nt_xent_loss x t h)) (S (length h)) = Some (LongV xent_target).
Proof.
  intros Hx. rewrite (@nt_xent_loss_run h x xv t Hx). simpl snd.
  replace (S (length h)) with (length (h ++ [FloatT (with_diagonal NInf xv)]))
    by (rewrite length_app; simpl; lia).
  apply nth_error_last.
Qed.

Lemma nt_xent_loss_batch_size (h : heap) (x : ref) (xv : matrix) (t : R) :
  nth_error h x = Some (FloatT xv) ->
  length xv <> 8 ->
  fst (nt_xent_loss x t h) = inl ValueError.
Proof.
  intros Hx Hn. rewrite (@nt_xent_loss_run h x xv t Hx). simpl fst.
  now apply xent_value_mismatch.
Qed.

(** C1.  On a batch of ten vectors the target tensor of [nt_xent_loss] is
    the tensor of eight partners built by [torch.arange(8)]: it has no entry
    for the rows 8 and 9, where the pairing rule asks for 9 and 8, and the
    call ends in the batch-size error of [cross_entropy]. *)
Theorem xent_target_of_ten_rows (t : R) :
  nth_error (snd (nt_xent_loss 0 t [FloatT batch10])) 2
  = Some (LongV [1; 0; 3; 2; 5; 4; 7; 6]%Z)
  /\ nth_error [1; 0; 3; 2; 5; 4; 7; 6]%Z 8 = None
  /\ partner 8 = 9%Z
  /\ fst (nt_xent_loss 0 t [FloatT batch10]) = inl ValueError.
Proof.
  split; [|split; [reflexivity|split; [reflexivity|]]].
  - apply (@nt_xent_loss_target [FloatT batch10] 0 batch10 t). reflexivity.
  - apply (@nt_xent_loss_batch_size [FloatT batch10] 0 batch10 t).
    + reflexivity.
    + simpl. lia.
Qed.

(** C3.  On a batch of four vectors and temperature 1, [nt_xent_loss] does
    not return the mean cross entropy of its four rows: [cross_entropy]
    rejects the four rows against the eight targets. *)
Theorem xent_loss_of_four_rows :
  fst (nt_xent_loss 0 1 [FloatT batch4]) = inl ValueError.
Proof.
  apply (@nt_xent_loss_batch_size [FloatT batch4] 0 batch4 1%R).
  - reflexivity.
  - simpl. lia.
Qed.

(** C5.  For every batch with an odd number of vectors, [nt_xent_loss]
    computes no loss: the call fails, with the [ValueError] that
    [cross_entropy] raises for a batch that does not match the targets. *)
Theorem xent_loss_odd_batch (h : heap) (x : ref) (xv : matrix) (t : R) :
  nth_error h x = Some (FloatT xv) ->
  Nat.odd (length xv) = true ->
  fst (nt_xent_loss x t h) = inl ValueError.
Proof.
  intros Hx Hodd. apply (@nt_xent_loss_batch_size h x xv t Hx).
  intros Hn. rewrite Hn in Hodd. discriminate Hodd.
Qed.

Lemma xent_loss_odd_batch_witness :
  nth_error [FloatT batch7] 0 = Some (FloatT batch7)
  /\ Nat.odd (length batch7) = true
  /\ fst (nt_xent_loss 0 1 [FloatT batch7]) = inl ValueError.
Proof.
  split; [reflexivity|]. split; [reflexivity|].
  apply (@xent_loss_odd_batch [FloatT batch7] 0 batch7 1%R); reflexivity.
Defined.

(* ===================================================================== *)
(** ** No hidden state *)
(* ===================================================================== *)

Lemma nt_xent_loss_result (h : heap) (x : ref) (t : R) :
  fst (nt_xent_loss x t h) = xent_result (nth_error h x) t.
Proof.
  destruct (nt_xent_loss_any h x t) as (k & Hk & _). now rewrite Hk.
Qed.

Lemma nt_bxent_loss_result (h : heap) (x pr : ref) (t : R) :
  fst (nt_bxent_loss x pr t h) = bxent_result (nth_error h x) (nth_error h pr) t.
Proof.
  destruct (nt_bxent_loss_any h x pr t) as (k & Hk & _). now rewrite Hk.
Qed.

Lemma nth_error_grown (h k : heap) (x : ref) :
  k = [] \/ x < length h -> nth_error (h ++ k) x = nth_error h x.
Proof.
  intros [-> | Hx].
  - now rewrite app_nil_r.
  - now apply nth_error_app1.
Qed.

(** C9.  Both losses are deterministic and keep no state.  A call leaves
    every tensor that existed before it as it was (the heap only grows by
    the tensors the call creates, so neither the batch nor the pair tensor
    of the caller is written); the result is determined by the tensors the
    arguments refer to, in whatever heap and behind whatever references;
    and a second call with the same arguments returns what the first
    returned. *)
Theorem losses_keep_no_state (h : heap) (x pr : ref) (t : R) :
  (exists k, snd (nt_xent_loss x t h) = h ++ k)
  /\ (exists k, snd (nt_bxent_loss x pr t h) = h ++ k)
  /\ (forall h' x',
         nth_error h' x' = nth_error h x ->
         fst (nt_xent_loss x' t h') = fst (nt_xent_loss x t h))
  /\ (forall h' x' pr',
         nth_error h' x' = nth_error h x ->
         nth_error h' pr' = nth_error h pr ->
         fst (nt_bxent_loss x' pr' t h') = fst (nt_bxent_loss x pr t h))
  /\ fst (nt_xent_loss x t (snd (nt_xent_loss x t h)))
     = fst (nt_xent_loss x t h)
  /\ fst (nt_bxent_loss x pr t (snd (nt_bxent_loss x pr t h)))
     = fst (nt_bxent_loss x pr t h).
Proof.
  destruct (nt_xent_loss_any h x t) as (k1 & Hk1 & Hx1).
  destruct (nt_bxent_loss_any h x pr t) as (k2 & Hk2 & Hx2).
  split; [exists k1; now rewrite Hk1|].
  split; [exists k2; now rewrite Hk2|].
  split; [intros h' x' H; rewrite !nt_xent_loss_result; now rewrite H|].
  split; [intros h' x' pr' H1 H2; rewrite !nt_bxent_loss_result;
          now rewrite H1, H2|].
  split.
  - rewrite !nt_xent_loss_result. rewrite Hk1. simpl snd.
    now rewrite (@nth_error_grown h k1 x Hx1).
  - rewrite !nt_bxent_loss_result. rewrite Hk2. simpl snd.
    assert (Hx : k2 = [] \/ x < length h) by tauto.
    assert (Hp : k2 = [] \/ pr < length h) by tauto.
    now rewrite (@nth_error_grown h k2 x Hx), (@nth_error_grown h k2 pr Hp).
Qed.

(* ===================================================================== *)
(** ** The positive pairs and the target matrix *)
(* ===================================================================== *)

Lemma wrap_in_range (n : nat) (z : Z) :
  (0 <= z < Z.of_nat n)%Z -> wrap n z = Some (Z.to_nat z).
Proof.
  intros Hz. unfold wrap.
  replace ((0 <=? z)%Z) with true by (symmetry; apply Z.leb_le; lia).
  replace ((z <? Z.of_nat n)%Z) with true by (symmetry; apply Z.ltb_lt; lia).
  reflexivity.
Qed.

Lemma in_range_valid (n : nat) (p : list (Z * Z)) :
  in_range n p -> forallb (valid_index n) p = true.
Proof.
  intros Hp. apply forallb_forall. intros rc Hrc.
  unfold in_range in Hp. rewrite Forall_forall in Hp.
  destruct (Hp rc Hrc) as [Hr Hc]. unfold valid_index.
  now rewrite (wrap_in_range _ Hr), (wrap_in_range _ Hc).
Qed.

Lemma hit_in_range (n : nat) (p : list (Z * Z)) (i j : nat) :
  in_range n p -> i < n -> j < n ->
  hit n p i j = true <-> In (Z.of_nat i, Z.of_nat j) p.
Proof.
  intros Hp Hi Hj. unfold hit. rewrite existsb_exists. split.
  - intros ([r c] & Hin & Hrc).
    unfold in_range in Hp. rewrite Forall_forall in Hp.
    destruct (Hp _ Hin) as [Hr Hc]. simpl in Hr, Hc.
    unfold addresses in Hrc. simpl in Hrc.
    rewrite (wrap_in_range _ Hr), (wrap_in_range _ Hc) in Hrc.
    apply andb_prop in Hrc. destruct Hrc as [H1 H2].
    apply Nat.eqb_eq in H1. apply Nat.eqb_eq in H2. subst i j.
    now rewrite !Z2Nat.id by lia.
  - intros Hin. exists (Z.of_nat i, Z.of_nat j). split; [exact Hin|].
    unfold addresses. simpl. rewrite !wrap_of_nat by assumption.
    now rewrite !Nat.eqb_refl.
Qed.

Lemma bool_eq_iff (a b : bool) : (a = true <-> b = true) -> a = b.
Proof.
  destruct a, b; intros [H1 H2]; try reflexivity.
  - symmetry. now apply H1.
  - now apply H2.
Qed.

Lemma hit_same_pairs (n : nat) (p q : list (Z * Z)) (i j : nat) :
  same_pairs p q -> hit n p i j = hit n q i j.
Proof.
  intros H. apply bool_eq_iff. unfold hit. rewrite !existsb_exists.
  split; intros (rc & Hin & Hrc); exists rc; split; try exact Hrc; now apply H.
Qed.

Lemma valid_same_pairs (n : nat) (p q : list (Z * Z)) :
  same_pairs p q -> forallb (valid_index n) p = forallb (valid_index n) q.
Proof.
  intros H. apply bool_eq_iff. rewrite !forallb_forall.
  split; intros Hall rc Hin; apply Hall; now apply H.
Qed.

Lemma positive_same_pairs (n : nat) (p q : list (Z * Z)) (i j : nat) :
  same_pairs p q -> positive n p i j = positive n q i j.
Proof.
  intros H. unfold positive. apply hit_same_pairs.
  intros rc. unfold all_pairs, cat. rewrite !in_app_iff. now rewrite (H rc).
Qed.

Lemma bxent_target_same_pairs (n : nat) (p q : list (Z * Z)) :
  same_pairs p q -> bxent_target n p = bxent_target n q.
Proof.
  intros H. apply tabulate_ext. intros i j _ _.
  now rewrite (positive_same_pairs n i j H).
Qed.

Lemma bxent_row_same_pairs (xv : matrix) (p q : list (Z * Z)) (t : R) (i : nat) :
  same_pairs p q -> bxent_row xv p t i = bxent_row xv q t i.
Proof.
  intros H. unfold bxent_row. cbv zeta.
  assert (E : forall j, positive (length xv) p i j = positive (length xv) q i j)
    by (intros j; now apply positive_same_pairs).
  assert (E1 : forall j,
             (if positive (length xv) p i j then bxent_bce xv p t i j else Fin 0)
             = (if positive (length xv) q i j then bxent_bce xv q t i j else Fin 0))
    by (intros j; unfold bxent_bce, bxent_label; now rewrite E).
  assert (E2 : forall j,
             (if negb (positive (length xv) p i j) then bxent_bce xv p t i j
              else Fin 0)
             = (if negb (positive (length xv) q i j) then bxent_bce xv q t i j
                else Fin 0))
    by (intros j; unfold bxent_bce, bxent_label; now rewrite E).
  assert (E3 : forall j, bxent_label (length xv) p i j = bxent_label (length xv) q i j)
    by (intros j; unfold bxent_label; now rewrite E).
  now rewrite (map_ext _ _ E1), (map_ext _ _ E2), (map_ext _ _ E3).
Qed.

Lemma bxent_value_same_pairs (xv : matrix) (p q : list (Z * Z)) (t : R) :
  same_pairs p q -> bxent_value xv p t = bxent_value xv q t.
Proof.
  intros H. unfold bxent_value. cbv zeta.
  rewrite (valid_same_pairs (length xv) H).
  destruct (forallb (valid_index (length xv)) q); [|reflexivity].
  destruct (forallb _ _); [|reflexivity].
  do 2 f_equal. apply map_ext. intros i. now apply bxent_row_same_pairs.
Qed.

Lemma nt_bxent_loss_target (h : heap) (x pr : ref) (xv : matrix)
      (p : list (Z * Z)) (t : R) :
  nth_error h x = Some (FloatT xv) ->
  nth_error h pr = Some (PairsT p) ->
  forallb (valid_index (length xv)) p = true ->
  nth_error (snd (nt_bxent_loss x pr t h)) (length h)
  = Some (FloatT (bxent_target (length xv) p)).
Proof.
  intros Hx Hp Hv. rewrite (@nt_bxent_loss_run h x pr xv p t Hx Hp), Hv.
  simpl snd. rewrite nth_error_app2 by lia. now rewrite Nat.sub_diag.
Qed.

Lemma target_entry (n : nat) (p : list (Z * Z)) (i j : nat) :
  in_range n p -> i < n -> j < n ->
  entry (bxent_target n p) i j
  = if hit n p i j || (i =? j) then Fin 1 else Fin 0.
Proof.
  intros Hp Hi Hj. unfold bxent_target.
  rewrite entry_tabulate by assumption. now rewrite positive_split.
Qed.

(** C8.  For a batch of [N] vectors and an in-range list [p] of positive
    pairs, the target matrix that [nt_bxent_loss] builds (the first tensor
    it allocates) is binary, and its entry [(i, j)] is 1 exactly when
    [(i, j)] is in [p] or [i = j]: the diagonal is positive whether or not
    the caller lists it.  A list [q] with the same members as [p], such as
    [p] with pairs repeated, gives the same target matrix and the same
    loss. *)
Theorem target_matrix_of_pairs (h : heap) (x pr : ref) (xv : matrix)
        (p : list (Z * Z)) (t : R) :
  nth_error h x = Some (FloatT xv) ->
  nth_error h pr = Some (PairsT p) ->
  in_range (length xv) p ->
  exists T,
    nth_error (snd (nt_bxent_loss x pr t h)) (length h) = Some (FloatT T)
    /\ (forall i j, i < length xv -> j < length xv ->
          (entry T i j = Fin 1 \/ entry T i j = Fin 0)
          /\ (entry T i j = Fin 1 <-> In (Z.of_nat i, Z.of_nat j) p \/ i = j))
    /\ (forall h' x' pr' q,
          nth_error h' x' = Some (FloatT xv) ->
          nth_error h' pr' = Some (PairsT q) ->
          same_pairs p q ->
          nth_error (snd (nt_bxent_loss x' pr' t h')) (length h')
          = Some (FloatT T)
          /\ fst (nt_bxent_loss x' pr' t h') = fst (nt_bxent_loss x pr t h)).
Proof.
  intros Hx Hp Hr. exists (bxent_target (length xv) p).
  pose proof (in_range_valid Hr) as Hv.
  split; [now apply nt_bxent_loss_target|]. split.
  - intros i j Hi Hj. rewrite (target_entry Hr Hi Hj).
    pose proof (hit_in_range Hr Hi Hj) as Hhit.
    destruct (hit (length xv) p i j) eqn:Eh; simpl.
    + split; [now left|]. split; [intros _; left; now apply Hhit|reflexivity].
    + destruct (i =? j) eqn:Eij.
      * apply Nat.eqb_eq in Eij. split; [now left|].
        split; [intros _; now right|reflexivity].
      * apply Nat.eqb_neq in Eij. split; [now right|]. split.
        -- intros H. injection H as H. exfalso. apply R1_neq_R0. now symmetry.
        -- intros [Hin|Heq]; [|contradiction].
           apply Hhit in Hin. discriminate Hin.
  - intros h' x' pr' q Hx' Hq Hsame. split.
    + rewrite (bxent_target_same_pairs (length xv) Hsame).
      apply nt_bxent_loss_target; try assumption.
      now rewrite <- (valid_same_pairs (length xv) Hsame).
    + rewrite (@nt_bxent_loss_run h x pr xv p t Hx Hp).
      rewrite (@nt_bxent_loss_run h' x' pr' xv q t Hx' Hq). simpl fst.
      symmetry. now apply bxent_value_same_pairs.
Qed.

Lemma target_matrix_of_pairs_witness :
  exists T,
    nth_error (snd (nt_bxent_loss 0 1 1
                      [FloatT batch3; PairsT [(0, 1); (2, 0); (0, 1)]%Z])) 2
    = Some (FloatT T)
    /\ (forall i j, i < 3 -> j < 3 ->
          (entry T i j = Fin 1 \/ entry T i j = Fin 0)
          /\ (entry T i j = Fin 1
              <-> In (Z.of_nat i, Z.of_nat j) [(0, 1); (2, 0); (0, 1)]%Z
                  \/ i = j))
    /\ (forall h' x' pr' q,
          nth_error h' x' = Some (FloatT batch3) ->
          nth_error h' pr' = Some (PairsT q) ->
          same_pairs [(0, 1); (2, 0); (0, 1)]%Z q ->
          nth_error (snd (nt_bxent_loss x' pr' 1 h')) (length h')
          = Some (FloatT T)
          /\ fst (nt_bxent_loss x' pr' 1 h')
             = fst (nt_bxent_loss 0 1 1
                      [FloatT batch3; PairsT [(0, 1); (2, 0); (0, 1)]%Z])).
Proof.
  apply (@target_matrix_of_pairs
           [FloatT batch3; PairsT [(0, 1); (2, 0); (0, 1)]%Z] 0 1 batch3
           [(0, 1); (2, 0); (0, 1)]%Z 1%R).
  - reflexivity.
  - reflexivity.
  - repeat constructor; simpl; lia.
Defined.

(* ===================================================================== *)
(** ** Sums over the positive and negative columns *)
(* ===================================================================== *)

Section Sums.

Local Open Scope R_scope.

Lemma fadd_0_r (a : scalar) : fadd a (Fin 0) = a.
Proof. destruct a; simpl; try reflexivity. now rewrite Rplus_0_r. Qed.

Lemma fadd_NaN_r (a : scalar) : fadd a NaN = NaN.
Proof. destruct a; reflexivity. Qed.

Lemma fold_fadd_NaN (l : list scalar) : fold_left fadd l NaN = NaN.
Proof. induction l as [|a l IH]; simpl; [reflexivity | exact IH]. Qed.

Lemma fold_fadd_In_NaN (l : list scalar) (a : scalar) :
  In NaN l -> fold_left fadd l a = NaN.
Proof.
  revert a. induction l as [|b l IH]; intros a Hin; simpl; [contradiction|].
  destruct Hin as [-> | Hin].
  - rewrite fadd_NaN_r. apply fold_fadd_NaN.
  - now apply IH.
Qed.

Lemma mean_NaN (l : list scalar) : In NaN l -> mean l = NaN.
Proof.
  intros H. unfold mean, fsum. now rewrite fold_fadd_In_NaN.
Qed.

(** Adding the masked entries of a row, zeros included, is adding the
    entries the mask selects. *)
Lemma fold_fadd_masked {A} (K : A -> bool) (L : A -> scalar) (l : list A)
      (a : scalar) :
  fold_left fadd (map (fun j => if K j then L j else Fin 0) l) a
  = fold_left fadd (map L (filter K l)) a.
Proof.
  revert a. induction l as [|j l IH]; intros a; simpl; [reflexivity|].
  destruct (K j); simpl.
  - apply IH.
  - rewrite fadd_0_r. apply IH.
Qed.

Lemma fsum_masked {A} (K : A -> bool) (L : A -> scalar) (l : list A) :
  fsum (map (fun j => if K j then L j else Fin 0) l) = fsum (map L (filter K l)).
Proof. apply fold_fadd_masked. Qed.

Lemma fold_fadd_ones {A} (l : list A) (a : R) :
  fold_left fadd (map (fun _ => Fin 1) l) (Fin a) = Fin (a + INR (length l)).
Proof.
  revert a. induction l as [|j l IH]; intros a.
  - simpl. now rewrite Rplus_0_r.
  - simpl map. simpl fold_left. rewrite IH. f_equal.
    change (length (j :: l)) with (S (length l)). rewrite S_INR. lra.
Qed.

(** The sum of a 0/1 row is the number of its ones. *)
Lemma fsum_indicator {A} (K : A -> bool) (l : list A) :
  fsum (map (fun j => if K j then Fin 1 else Fin 0) l)
  = Fin (INR (length (filter K l))).
Proof.
  rewrite (fsum_masked K (fun _ => Fin 1)). unfold fsum.
  rewrite fold_fadd_ones. f_equal. lra.
Qed.

Lemma fsub_INR (n c : nat) :
  (c <= n)%nat -> fsub (Fin (INR n)) (Fin (INR c)) = Fin (INR (n - c)).
Proof.
  intros H. unfold fsub. simpl. f_equal. rewrite minus_INR by exact H. lra.
Qed.

Lemma filter_length_le {A} (K : A -> bool) (l : list A) :
  (length (filter K l) <= length l)%nat.
Proof.
  induction l as [|a l IH]; simpl; [lia|]. destruct (K a); simpl; lia.
Qed.

Lemma filter_all {A} (K : A -> bool) (l : list A) :
  (forall a, In a l -> K a = true) -> filter K l = l.
Proof.
  induction l as [|a l IH]; intros H; simpl; [reflexivity|].
  rewrite (H a (or_introl eq_refl)). f_equal. apply IH.
  intros b Hb. apply H. now right.
Qed.

Lemma filter_none {A} (K : A -> bool) (l : list A) :
  (forall a, In a l -> K a = false) -> filter K l = [].
Proof.
  induction l as [|a l IH]; intros H; simpl; [reflexivity|].
  rewrite (H a (or_introl eq_refl)). apply IH.
  intros b Hb. apply H. now right.
Qed.

Lemma filter_negb_length {A} (K : A -> bool) (l : list A) :
  (length (filter K l) + length (filter (fun a => negb (K a)) l)
   = length l)%nat.
Proof.
  induction l as [|a l IH]; simpl; [reflexivity|].
  destruct (K a); simpl; lia.
Qed.

End Sums.

(* ===================================================================== *)
(** ** NT-BXent as the class-balanced mean of PyTorch's terms *)
(* ===================================================================== *)

Lemma positive_spec (n : nat) (p : list (Z * Z)) (i j : nat) :
  in_range n p -> i < n -> j < n -> positive n p i j = spec_positive p i j.
Proof.
  intros Hp Hi Hj. rewrite positive_split by exact Hi.
  unfold spec_positive. rewrite orb_comm. f_equal.
  apply bool_eq_iff. rewrite (hit_in_range Hp Hi Hj), existsb_exists. split.
  - intros Hin. exists (Z.of_nat i, Z.of_nat j). split; [exact Hin|].
    simpl. now rewrite !Z.eqb_refl.
  - intros ([r c] & Hin & Hrc). simpl in Hrc.
    apply andb_prop in Hrc. destruct Hrc as [H1 H2].
    apply Z.eqb_eq in H1. apply Z.eqb_eq in H2. now subst r c.
Qed.

Lemma bxent_bce_clamped (xv : matrix) (p : list (Z * Z)) (t : R) (i j : nat) :
  in_range (length xv) p -> i < length xv -> j < length xv ->
  bxent_bce xv p t i j = clamped_bce xv p t i j.
Proof.
  intros Hp Hi Hj. unfold bxent_bce, clamped_bce, bxent_prob, bxent_label.
  cbv zeta. rewrite (positive_spec Hp Hi Hj).
  now rewrite (cos_sim_comm (nth j xv []) (nth i xv [])).
Qed.

Lemma bxent_row_clamped (xv : matrix) (p : list (Z * Z)) (t : R) (i : nat) :
  in_range (length xv) p -> i < length xv ->
  bxent_row xv p t i = clamped_row_loss xv p t i.
Proof.
  intros Hp Hi. unfold bxent_row, clamped_row_loss. cbv zeta.
  set (n := length xv).
  assert (E1 : map (fun j => if positive n p i j then bxent_bce xv p t i j
                             else Fin 0) (seq 0 n)
               = map (fun j => if spec_positive p i j then clamped_bce xv p t i j
                               else Fin 0) (seq 0 n)).
  { apply map_seq_ext. intros j Hj.
    rewrite (positive_spec Hp Hi), bxent_bce_clamped; try assumption;
      try reflexivity; unfold n in *; lia. }
  assert (E2 : map (fun j => if negb (positive n p i j)
                             then bxent_bce xv p t i j else Fin 0) (seq 0 n)
               = map (fun j => if negb (spec_positive p i j)
                               then clamped_bce xv p t i j else Fin 0) (seq 0 n)).
  { apply map_seq_ext. intros j Hj.
    rewrite (positive_spec Hp Hi), bxent_bce_clamped; try assumption;
      try reflexivity; unfold n in *; lia. }
  assert (E3 : map (bxent_label n p i) (seq 0 n)
               = map (fun j => if spec_positive p i j then Fin 1 else Fin 0)
                     (seq 0 n)).
  { apply map_seq_ext. intros j Hj. unfold bxent_label.
    rewrite (positive_spec Hp Hi); [reflexivity | unfold n in *; lia]. }
  rewrite E1, E2, E3.
  rewrite (fsum_masked (spec_positive p i) (clamped_bce xv p t i)).
  rewrite (fsum_masked (fun j => negb (spec_positive p i j)) (clamped_bce xv p t i)).
  rewrite fsum_indicator.
  fold (positive_columns n p i). fold (negative_columns n p i).
  rewrite fsub_INR; [reflexivity|].
  unfold positive_columns.
  pose proof (filter_length_le (spec_positive p i) (seq 0 n)) as Hle.
  now rewrite length_seq in Hle.
Qed.

(* ===================================================================== *)
(** ** Finite losses *)
(* ===================================================================== *)

Section Finite.

Local Open Scope R_scope.

Lemma in_unit_inv (a : scalar) :
  in_unit a = true -> exists q, a = Fin q /\ 0 <= q <= 1.
Proof.
  destruct a as [q| | |]; simpl; try discriminate.
  destruct (Rle_dec 0 q) as [H0|H0]; [|discriminate].
  destruct (Rle_dec q 1) as [H1|H1]; [|discriminate].
  intros _. exists q. split; [reflexivity | lra].
Qed.

Lemma clamp_log_finite (y : R) :
  0 <= y -> is_finite (fmax (flog (Fin y)) (Fin (-100))).
Proof.
  intros Hy. simpl. destruct (Rlt_dec 0 y) as [H|H].
  - simpl. now eexists.
  - destruct (Req_EM_T y 0) as [E|E]; [|lra]. simpl. now eexists.
Qed.

Lemma bce_finite (q tau : R) : 0 <= q <= 1 -> is_finite (bce (Fin q) (Fin tau)).
Proof.
  intros Hq. unfold bce.
  change (fsub (Fin 1) (Fin q)) with (Fin (1 + - q)).
  destruct (@clamp_log_finite (1 + - q)) as (a & Ha); [lra|].
  destruct (@clamp_log_finite q) as (b & Hb); [lra|].
  rewrite Ha, Hb. simpl. now eexists.
Qed.

(** Where neither logarithm falls below -100, the clamp is idle and [bce]
    is the textbook binary cross entropy
    [-(t * log p + (1 - t) * log (1 - p))]. *)
Lemma bce_textbook (q tau : R) :
  0 < q < 1 -> -100 <= ln q -> -100 <= ln (1 - q) ->
  bce (Fin q) (Fin tau) = Fin (- (tau * ln q + (1 - tau) * ln (1 - q))).
Proof.
  intros Hq H1 H2. unfold Rminus in *. unfold bce. simpl.
  destruct (Rlt_dec 0 (1 + - q)) as [_|H]; [|lra].
  destruct (Rlt_dec 0 q) as [_|H]; [|lra].
  simpl. f_equal. rewrite !Rmax_left by lra. lra.
Qed.

Lemma fold_fadd_finite (l : list scalar) (a : R) :
  (forall b, In b l -> is_finite b) -> is_finite (fold_left fadd l (Fin a)).
Proof.
  revert a. induction l as [|b l IH]; intros a H; simpl.
  - now eexists.
  - destruct (H b (or_introl eq_refl)) as (r & ->). simpl. apply IH.
    intros c Hc. apply H. now right.
Qed.

Lemma fsum_finite (l : list scalar) :
  (forall b, In b l -> is_finite b) -> is_finite (fsum l).
Proof. apply fold_fadd_finite. Qed.

Lemma fdiv_count_finite (a : scalar) (k : nat) :
  is_finite a -> (1 <= k)%nat -> is_finite (fdiv a (Fin (INR k))).
Proof.
  intros (r & ->) Hk. rewrite fdiv_Fin.
  - now eexists.
  - apply not_0_INR. lia.
Qed.

Lemma fadd_finite (a b : scalar) :
  is_finite a -> is_finite b -> is_finite (fadd a b).
Proof. intros (r & ->) (s & ->). simpl. now eexists. Qed.

Lemma mean_finite (l : list scalar) :
  (forall b, In b l -> is_finite b) -> (1 <= length l)%nat -> is_finite (mean l).
Proof.
  intros H Hl. unfold mean. apply fdiv_count_finite; [|exact Hl].
  now apply fsum_finite.
Qed.

Lemma length_In {A} (a : A) (l : list A) : In a l -> (1 <= length l)%nat.
Proof. destruct l; simpl; [contradiction | lia]. Qed.

Lemma spec_positive_diagonal (p : list (Z * Z)) (i : nat) :
  spec_positive p i i = true.
Proof. unfold spec_positive. now rewrite Nat.eqb_refl. Qed.

Lemma clamped_bce_finite (xr : list (list R)) (p : list (Z * Z)) (t : R)
      (i j : nat) :
  t <> 0 -> is_finite (clamped_bce (of_reals xr) p t i j).
Proof.
  intros Ht. unfold clamped_bce. cbv zeta.
  pose proof (@prob_in_unit xr t j i Ht) as Hu. unfold bxent_prob in Hu.
  rewrite (Nat.eqb_sym j i) in Hu.
  apply in_unit_inv in Hu. destruct Hu as (q & Hq & Hq01). rewrite Hq.
  destruct (spec_positive p i j); now apply bce_finite.
Qed.

(** The diagonal sentinel: for a positive temperature the diagonal term of
    the binary cross entropy is zero. *)
Lemma clamped_bce_diagonal (xv : matrix) (p : list (Z * Z)) (t : R) (i : nat) :
  0 < t -> clamped_bce xv p t i i = Fin 0.
Proof.
  intros Ht. unfold clamped_bce. cbv zeta.
  rewrite Nat.eqb_refl, spec_positive_diagonal. simpl fdiv.
  destruct (Rlt_dec t 0) as [H|_]; [lra|]. unfold bce. simpl.
  destruct (Rlt_dec 0 (1 + - (1))) as [H|_]; [lra|].
  destruct (Req_EM_T (1 + - (1)) 0) as [_|H]; [|lra].
  destruct (Rlt_dec 0 1) as [_|H]; [|lra]. simpl.
  f_equal. rewrite ln_1. rewrite Rmax_left by lra. lra.
Qed.

Lemma clamped_row_loss_finite (xr : list (list R)) (p : list (Z * Z)) (t : R)
      (i : nat) :
  t <> 0 ->
  (i < length xr)%nat ->
  (exists j, (j < length xr)%nat /\ spec_positive p i j = false) ->
  is_finite (clamped_row_loss (of_reals xr) p t i).
Proof.
  intros Ht Hi (j & Hj & Hneg). unfold clamped_row_loss. cbv zeta.
  rewrite length_of_reals. set (n := length xr) in *.
  assert (Hpos : (1 <= length (positive_columns n p i))%nat).
  { apply (length_In i). apply filter_In. split.
    - apply in_seq. lia.
    - apply spec_positive_diagonal. }
  assert (Hnegs : (1 <= length (negative_columns n p i))%nat).
  { apply (length_In j). apply filter_In. split.
    - apply in_seq. lia.
    - now rewrite Hneg. }
  pose proof (filter_negb_length (spec_positive p i) (seq 0 n)) as Hsum.
  rewrite length_seq in Hsum.
  fold (positive_columns n p i) in Hsum. fold (negative_columns n p i) in Hsum.
  apply fadd_finite; apply fdiv_count_finite; try lia;
    apply fsum_finite; intros b Hb; apply in_map_iff in Hb;
    destruct Hb as (c & <- & _); now apply clamped_bce_finite.
Qed.

End Finite.

(* ===================================================================== *)
(** ** The result of [nt_bxent_loss] *)
(* ===================================================================== *)

Lemma bxent_value_clamped (xr : list (list R)) (p : list (Z * Z)) (t : R) :
  in_range (length xr) p -> t <> 0%R ->
  bxent_value (of_reals xr) p t = inr (clamped_bxent_loss (of_reals xr) p t).
Proof.
  intros Hp Ht. unfold bxent_value. cbv zeta.
  rewrite probs_in_unit by exact Ht.
  rewrite length_of_reals, (in_range_valid Hp).
  unfold clamped_bxent_loss. rewrite length_of_reals.
  do 2 f_equal. apply map_seq_ext. intros i Hi.
  apply bxent_row_clamped; rewrite length_of_reals; [exact Hp | lia].
Qed.

(* ===================================================================== *)
(** ** A row without negatives *)
(* ===================================================================== *)

Lemma clamped_row_loss_saturated (xv : matrix) (p : list (Z * Z)) (t : R) (i : nat) :
  (forall j, j < length xv -> spec_positive p i j = true) ->
  clamped_row_loss xv p t i = NaN.
Proof.
  intros Hall. unfold clamped_row_loss. cbv zeta.
  unfold positive_columns, negative_columns.
  rewrite filter_all, filter_none.
  - rewrite length_seq, Nat.sub_diag. simpl map. unfold fsum at 2. simpl fold_left.
    simpl INR. simpl fdiv at 2.
    destruct (Req_EM_T 0 0) as [_|H]; [|congruence].
    unfold by_sign. destruct (Rlt_dec 0 0) as [H|_]; [lra|].
    apply fadd_NaN_r.
  - intros j Hj. apply in_seq in Hj. rewrite Hall by lia. reflexivity.
  - intros j Hj. apply in_seq in Hj. apply Hall. lia.
Qed.

Lemma bxent_value_saturated (xr : list (list R)) (p : list (Z * Z)) (t : R)
      (i : nat) :
  in_range (length xr) p -> t <> 0%R ->
  i < length xr ->
  (forall j, j < length xr -> spec_positive p i j = true) ->
  bxent_value (of_reals xr) p t = inr NaN.
Proof.
  intros Hp Ht Hi Hall. rewrite bxent_value_clamped by assumption. f_equal.
  unfold clamped_bxent_loss. apply mean_NaN. apply in_map_iff.
  exists i. split.
  - apply clamped_row_loss_saturated. now rewrite length_of_reals.
  - apply in_seq. rewrite length_of_reals. lia.
Qed.

(** C6, as the code has it.  For every real-valued batch, every in-range
    set of positive pairs and every positive temperature, if the pairs
    declare every off-diagonal entry of some row positive, [nt_bxent_loss]
    does not fail: it divides zero by zero in that row and returns NaN. *)
Theorem bxent_loss_without_negatives (h : heap) (x pr : ref)
        (xr : list (list R)) (p : list (Z * Z)) (t : R) (i : nat) :
  nth_error h x = Some (FloatT (of_reals xr)) ->
  nth_error h pr = Some (PairsT p) ->
  in_range (length xr) p ->
  (0 < t)%R ->
  i < length xr ->
  (forall j, j < length xr -> spec_positive p i j = true) ->
  fst (nt_bxent_loss x pr t h) = inr NaN.
Proof.
  intros Hx Hpr Hp Ht Hi Hall.
  rewrite (@nt_bxent_loss_run h x pr (of_reals xr) p t Hx Hpr). simpl fst.
  apply (@bxent_value_saturated xr p t i); try assumption. lra.
Qed.

Lemma bxent_loss_without_negatives_witness :
  fst (nt_bxent_loss 0 1 1 [FloatT batch3; PairsT [(1, 0); (1, 2)]%Z])
  = inr NaN.
Proof.
  apply (@bxent_loss_without_negatives
           [FloatT batch3; PairsT [(1, 0); (1, 2)]%Z] 0 1
           [[1; 0]; [1; 1]; [0; 1]]%R [(1, 0); (1, 2)]%Z 1%R 1).
  - reflexivity.
  - reflexivity.
  - repeat constructor; simpl; lia.
  - lra.
  - simpl. lia.
  - intros j Hj. simpl in Hj. destruct j as [|[|[|j]]]; try reflexivity. lia.
Defined.

(** A call the specification wants rejected: with the pairs (0,1) and (0,2)
    on a batch of three vectors, row 0 has no negative column, and the call
    at temperature 1 returns NaN; no error is raised. *)
Lemma bxent_loss_without_negatives_returns :
  fst (nt_bxent_loss 0 1 1 [FloatT batch3; PairsT [(0, 1); (0, 2)]%Z])
  = inr NaN
  /\ ~ (exists e,
          fst (nt_bxent_loss 0 1 1 [FloatT batch3; PairsT [(0, 1); (0, 2)]%Z])
          = inl e).
Proof.
  assert (H : fst (nt_bxent_loss 0 1 1
                     [FloatT batch3; PairsT [(0, 1); (0, 2)]%Z]) = inr NaN).
  { rewrite (@nt_bxent_loss_run
               [FloatT batch3; PairsT [(0, 1); (0, 2)]%Z] 0 1 batch3
               [(0, 1); (0, 2)]%Z 1%R eq_refl eq_refl).
    simpl fst.
    apply (@bxent_value_saturated [[1; 0]; [1; 1]; [0; 1]]%R
             [(0, 1); (0, 2)]%Z 1%R 0).
    - repeat constructor; simpl; lia.
    - lra.
    - simpl. lia.
    - intros j Hj. simpl in Hj. destruct j as [|[|[|j]]]; try reflexivity. lia. }
  split; [exact H|]. intros (e & He). rewrite H in He. discriminate He.
Qed.

(* ===================================================================== *)
(** ** Temperatures that are not positive *)
(* ===================================================================== *)

Lemma row_max_cases (row : list scalar) :
  (forall a, In a row -> real_or_pinf a) ->
  row_max row = NInf \/ real_or_pinf (row_max row).
Proof.
  induction row as [|a row IH]; intros H; simpl; [now left|].
  destruct IH as [E | [E | (r & E)]].
  - intros b Hb. apply H. now right.
  - rewrite E. right.
    destruct (H a (or_introl eq_refl)) as [-> | (s & ->)];
      [now left | right; now eexists].
  - rewrite E. right. left.
    destruct (H a (or_introl eq_refl)) as [-> | (s & ->)]; reflexivity.
  - rewrite E. right.
    destruct (H a (or_introl eq_refl)) as [-> | (s & ->)];
      [now left | right; simpl; now eexists].
Qed.

Lemma row_max_pinf (row : list scalar) :
  (forall a, In a row -> real_or_pinf a) -> In PInf row -> row_max row = PInf.
Proof.
  induction row as [|a row IH]; intros H Hin; simpl; [contradiction|].
  assert (Hrow : forall b, In b row -> real_or_pinf b)
    by (intros b Hb; apply H; now right).
  destruct Hin as [-> | Hin].
  - destruct (row_max_cases row Hrow) as [E | [E | (r & E)]];
      rewrite E; reflexivity.
  - rewrite (IH Hrow Hin).
    destruct (H a (or_introl eq_refl)) as [-> | (s & ->)]; reflexivity.
Qed.

Lemma nth_all_NaN (l : list scalar) (k : nat) :
  (forall a, In a l -> a = NaN) -> nth k l NaN = NaN.
Proof.
  intros H. destruct (Nat.lt_ge_cases k (length l)) as [Hk|Hk].
  - apply H. now apply nth_In.
  - now apply nth_overflow.
Qed.

(** A row of logits that holds [inf] beside real numbers: the stable
    [log_softmax] subtracts [inf] from [inf], and every output is NaN. *)
Lemma log_softmax_pinf (row : list scalar) (k : nat) :
  (forall a, In a row -> real_or_pinf a) -> In PInf row ->
  nth k (log_softmax row) NaN = NaN.
Proof.
  intros H Hin. apply nth_all_NaN. intros a Ha.
  unfold log_softmax in Ha. cbv zeta in Ha. rewrite (row_max_pinf row H Hin) in Ha.
  assert (Hsum : fsum (map (fun a => fexp (fsub a PInf)) row) = NaN).
  { apply fold_fadd_In_NaN. apply in_map_iff. exists PInf. now split. }
  rewrite Hsum in Ha. simpl flog in Ha.
  apply in_map_iff in Ha. destruct Ha as (b & <- & _).
  unfold fsub. simpl fneg. apply fadd_NaN_r.
Qed.

Lemma xent_logits_negative (xr : list (list R)) (t : R) (i : nat) :
  (t < 0)%R -> i < length xr ->
  (forall a, In a (xent_logits (of_reals xr) t i) -> real_or_pinf a)
  /\ In PInf (xent_logits (of_reals xr) t i).
Proof.
  intros Ht Hi. unfold xent_logits. rewrite length_of_reals. split.
  - intros a Ha. apply in_map_iff in Ha. destruct Ha as (j & <- & _).
    destruct (i =? j).
    + left. simpl. destruct (Rlt_dec t 0) as [_|H]; [reflexivity | lra].
    + right. rewrite similarity_reals, fdiv_Fin by lra. now eexists.
  - apply in_map_iff. exists i. split.
    + rewrite Nat.eqb_refl. simpl.
      destruct (Rlt_dec t 0) as [_|H]; [reflexivity | lra].
    + apply in_seq. lia.
Qed.

Lemma xent_value_negative (xr : list (list R)) (t : R) :
  (t < 0)%R -> length xr = 8 -> xent_value (of_reals xr) t = inr NaN.
Proof.
  intros Ht Hn. rewrite xent_value_8 by (now rewrite length_of_reals).
  f_equal. apply mean_NaN. apply in_map_iff. exists 0. split.
  - destruct (@xent_logits_negative xr t 0 Ht) as [H1 H2]; [lia|].
    rewrite (log_softmax_pinf _ _ H1 H2). reflexivity.
  - apply in_seq. lia.
Qed.

(** C4, as the code has it.  Neither loss examines the temperature.  On a
    real-valued batch of eight vectors [nt_xent_loss] returns a scalar for
    every temperature [t <= 0], and NaN when [t < 0]; on a real-valued batch
    with in-range positive pairs [nt_bxent_loss] returns, for [t < 0], the
    class-balanced mean it returns for a positive temperature, computed
    with the negative scale. *)
Theorem nonpositive_temperature_accepted (h : heap) (x pr : ref)
        (xr : list (list R)) (p : list (Z * Z)) (t : R) :
  nth_error h x = Some (FloatT (of_reals xr)) ->
  nth_error h pr = Some (PairsT p) ->
  in_range (length xr) p ->
  (t <= 0)%R ->
  (length xr = 8 -> exists v, fst (nt_xent_loss x t h) = inr v)
  /\ ((t < 0)%R -> length xr = 8 -> fst (nt_xent_loss x t h) = inr NaN)
  /\ ((t < 0)%R ->
      fst (nt_bxent_loss x pr t h)
      = inr (clamped_bxent_loss (of_reals xr) p t)).
Proof.
  intros Hx Hpr Hp Ht. split; [|split].
  - intros Hn. rewrite (@nt_xent_loss_run h x (of_reals xr) t Hx). simpl fst.
    rewrite xent_value_8 by (now rewrite length_of_reals). now eexists.
  - intros Hneg Hn. rewrite (@nt_xent_loss_run h x (of_reals xr) t Hx).
    simpl fst. now apply xent_value_negative.
  - intros Hneg.
    rewrite (@nt_bxent_loss_run h x pr (of_reals xr) p t Hx Hpr). simpl fst.
    apply bxent_value_clamped; [exact Hp | lra].
Qed.

Lemma nonpositive_temperature_accepted_witness :
  (exists v, fst (nt_xent_loss 0 (-1) [FloatT batch8; PairsT [(0, 2)]%Z]) = inr v)
  /\ fst (nt_xent_loss 0 (-1) [FloatT batch8; PairsT [(0, 2)]%Z]) = inr NaN
  /\ fst (nt_bxent_loss 0 1 (-1) [FloatT batch8; PairsT [(0, 2)]%Z])
     = inr (clamped_bxent_loss batch8 [(0, 2)]%Z (-1)).
Proof.
  destruct (@nonpositive_temperature_accepted
              [FloatT batch8; PairsT [(0, 2)]%Z] 0 1
              [[1; 0]; [1; 1]; [0; 1]; [2; 1]; [1; 2]; [3; 1]; [1; 3]; [2; 3]]%R
              [(0, 2)]%Z (-1)%R eq_refl eq_refl) as (H1 & H2 & H3).
  - repeat constructor; simpl; lia.
  - lra.
  - split; [apply H1; reflexivity|].
    split; [apply H2; [lra | reflexivity] | apply H3; lra].
Defined.

(** A call the specification wants rejected: at temperature -1 both losses
    return a scalar on a batch of eight vectors; neither raises an error. *)
Lemma negative_temperature_returns :
  fst (nt_xent_loss 0 (-1) [FloatT batch8; PairsT [(0, 2)]%Z]) = inr NaN
  /\ (exists v,
        fst (nt_bxent_loss 0 1 (-1) [FloatT batch8; PairsT [(0, 2)]%Z]) = inr v)
  /\ ~ ((exists e,
           fst (nt_xent_loss 0 (-1) [FloatT batch8; PairsT [(0, 2)]%Z]) = inl e)
        /\ (exists e,
              fst (nt_bxent_loss 0 1 (-1) [FloatT batch8; PairsT [(0, 2)]%Z])
              = inl e)).
Proof.
  assert (H1 : fst (nt_xent_loss 0 (-1) [FloatT batch8; PairsT [(0, 2)]%Z])
               = inr NaN).
  { rewrite (@nt_xent_loss_run [FloatT batch8; PairsT [(0, 2)]%Z] 0 batch8
               (-1)%R eq_refl).
    simpl fst. apply xent_value_negative; [lra | reflexivity]. }
  split; [exact H1|]. split.
  - rewrite (@nt_bxent_loss_run [FloatT batch8; PairsT [(0, 2)]%Z] 0 1 batch8
               [(0, 2)]%Z (-1)%R eq_refl eq_refl).
    simpl fst. eexists.
    apply (@bxent_value_clamped
             [[1; 0]; [1; 1]; [0; 1]; [2; 1]; [1; 2]; [3; 1]; [1; 3]; [2; 3]]%R
             [(0, 2)]%Z (-1)%R).
    + repeat constructor; simpl; lia.
    + lra.
  - intros [(e & He) _]. rewrite H1 in He. discriminate He.
Qed.

(* ===================================================================== *)
(** ** NT-Xent on a batch of eight *)
(* ===================================================================== *)

Section SoftmaxRow.

Local Open Scope R_scope.

Variable i : nat.
Variable l : nat -> R.

Lemma fold_Rplus_acc (s : list R) (a : R) :
  fold_left Rplus s a = a + rsum s.
Proof.
  unfold rsum. revert a. induction s as [|b s IH]; intros a; simpl; [lra|].
  rewrite (IH (a + b)), (IH (0 + b)). lra.
Qed.

Lemma rsum_cons (b : R) (s : list R) : rsum (b :: s) = b + rsum s.
Proof. unfold rsum at 1. simpl. rewrite fold_Rplus_acc. lra. Qed.

Lemma rsum_scale (f : nat -> R) (c : R) (s : list nat) :
  rsum (map (fun j => f j * c) s) = rsum (map f s) * c.
Proof.
  induction s as [|j s IH]; simpl map.
  - unfold rsum. simpl. lra.
  - rewrite !rsum_cons, IH. lra.
Qed.

Lemma rsum_nonneg (s : list R) : (forall b, In b s -> 0 <= b) -> 0 <= rsum s.
Proof.
  intros H. apply fold_Rplus_nonneg; [lra|]. now apply Forall_forall.
Qed.

Lemma rsum_ge_member (s : list R) (b : R) :
  (forall c, In c s -> 0 <= c) -> In b s -> b <= rsum s.
Proof.
  induction s as [|c s IH]; intros H Hin; [contradiction|].
  rewrite rsum_cons.
  assert (Hs : 0 <= rsum s)
    by (apply rsum_nonneg; intros d Hd; apply H; now right).
  destruct Hin as [<- | Hin].
  - lra.
  - assert (0 <= c) by (apply H; now left).
    assert (b <= rsum s) by (apply IH; [intros d Hd; apply H; now right | exact Hin]).
    lra.
Qed.

Lemma weight_nonneg (j : nat) : 0 <= weight i l j.
Proof.
  unfold weight. destruct (i =? j)%nat; [lra|]. left. apply exp_pos.
Qed.

Lemma weights_positive (n k : nat) :
  (k < n)%nat -> k <> i -> 0 < rsum (map (weight i l) (seq 0 n)).
Proof.
  intros Hk Hki.
  assert (Hw : weight i l k <= rsum (map (weight i l) (seq 0 n))).
  { apply rsum_ge_member.
    - intros c Hc. apply in_map_iff in Hc. destruct Hc as (j & <- & _).
      apply weight_nonneg.
    - apply in_map. apply in_seq. lia. }
  unfold weight in Hw at 1.
  replace (i =? k)%nat with false in Hw
    by (symmetry; apply Nat.eqb_neq; congruence).
  pose proof (exp_pos (l k)). lra.
Qed.

Lemma fsum_Fin_map {A} (f : A -> R) (s : list A) :
  fsum (map (fun j => Fin (f j)) s) = Fin (rsum (map f s)).
Proof. rewrite <- (map_map f Fin). apply fsum_Fin. Qed.

Lemma fexp_logit (j : nat) : fexp (logit i l j) = Fin (weight i l j).
Proof. unfold logit, weight. now destruct (i =? j)%nat. Qed.

Lemma fexp_logit_shifted (m : R) (j : nat) :
  fexp (fsub (logit i l j) (Fin m)) = Fin (weight i l j * exp (- m)).
Proof.
  unfold logit, weight. destruct (i =? j)%nat; simpl.
  - now rewrite Rmult_0_l.
  - now rewrite exp_plus.
Qed.

Lemma row_max_logits (n k : nat) :
  (k < n)%nat -> k <> i -> is_finite (row_max (map (logit i l) (seq 0 n))).
Proof.
  intros Hk Hki.
  assert (G : forall s, is_finite (row_max (map (logit i l) s))
                        \/ (row_max (map (logit i l) s) = NInf /\ ~ In k s)).
  { induction s as [|j s IH]; simpl.
    - right. split; [reflexivity | tauto].
    - unfold logit at 1 3. destruct (Nat.eqb_spec i j) as [E|E].
      + destruct IH as [(r & ->) | [-> Hn]].
        * left. simpl. now eexists.
        * right. split; [reflexivity|]. intros [H|H]; [congruence | tauto].
      + left. destruct IH as [(r & ->) | [-> Hn]]; simpl; now eexists. }
  destruct (G (seq 0 n)) as [H | [_ H]]; [exact H|].
  exfalso. apply H. apply in_seq. lia.
Qed.

(** The stable [log_softmax] of the row, at a column [k] other than [i], is
    the logit less the logarithm of the sum of the exponentials. *)
Lemma log_softmax_logits (n k : nat) :
  (k < n)%nat -> k <> i ->
  nth k (log_softmax (map (logit i l) (seq 0 n))) NaN
  = Fin (l k - ln (rsum (map (weight i l) (seq 0 n)))).
Proof.
  intros Hk Hki. unfold log_softmax. cbv zeta.
  destruct (row_max_logits Hk Hki) as (m & ->).
  rewrite !map_map.
  rewrite (map_ext _ _ (fexp_logit_shifted m)).
  rewrite fsum_Fin_map, rsum_scale.
  pose proof (weights_positive Hk Hki) as HS.
  pose proof (exp_pos (- m)) as Hm.
  assert (HP : 0 < rsum (map (weight i l) (seq 0 n)) * exp (- m))
    by (apply Rmult_lt_0_compat; assumption).
  simpl flog. destruct (Rlt_dec 0 (rsum (map (weight i l) (seq 0 n)) * exp (- m)))
    as [_|H]; [|contradiction].
  rewrite nth_indep
    with (d' := (fun j => fsub (fsub (logit i l j) (Fin m))
                               (Fin (ln (rsum (map (weight i l) (seq 0 n)) * exp (- m)))))
                  0%nat)
    by (now rewrite length_map, length_seq).
  rewrite (map_nth (fun j => fsub (fsub (logit i l j) (Fin m))
                                  (Fin (ln (rsum (map (weight i l) (seq 0 n))
                                            * exp (- m)))))).
  rewrite seq_nth by exact Hk. simpl Nat.add. unfold logit.
  replace (i =? k)%nat with false by (symmetry; apply Nat.eqb_neq; congruence).
  simpl. f_equal. rewrite ln_mult by assumption. rewrite ln_exp. lra.
Qed.

(** The same quantity as the specification writes it. *)
Lemma spec_softmax_logits (n k : nat) :
  (k < n)%nat -> k <> i ->
  flog (fdiv (fexp (logit i l k)) (fsum (map (fun j => fexp (logit i l j)) (seq 0 n))))
  = Fin (l k - ln (rsum (map (weight i l) (seq 0 n)))).
Proof.
  intros Hk Hki.
  rewrite (map_ext _ _ fexp_logit), fsum_Fin_map, fexp_logit.
  pose proof (weights_positive Hk Hki) as HS.
  rewrite fdiv_Fin by lra. unfold weight at 1.
  replace (i =? k)%nat with false by (symmetry; apply Nat.eqb_neq; congruence).
  pose proof (exp_pos (l k)) as He.
  assert (HP : 0 < exp (l k) / rsum (map (weight i l) (seq 0 n)))
    by (apply Rdiv_lt_0_compat; assumption).
  simpl. destruct (Rlt_dec 0 (exp (l k) / rsum (map (weight i l) (seq 0 n))))
    as [_|H]; [|contradiction].
  f_equal. unfold Rdiv. rewrite ln_mult.
  - rewrite ln_Rinv by assumption. rewrite ln_exp. lra.
  - assumption.
  - now apply Rinv_0_lt_compat.
Qed.

End SoftmaxRow.

Lemma partner_below_eight (i : nat) :
  i < 8 ->
  nth i xent_target 0%Z = partner i
  /\ Z.to_nat (partner i) < 8 /\ Z.to_nat (partner i) <> i.
Proof.
  intros Hi. do 8 (destruct i as [|i]; [repeat split; simpl; lia|]). lia.
Qed.

(** On a real-valued batch of exactly eight vectors and a positive
    temperature, [nt_xent_loss] returns the mean softmax cross entropy of
    the specification. *)
Lemma xent_value_spec (xr : list (list R)) (t : R) :
  length xr = 8 -> (0 < t)%R ->
  xent_value (of_reals xr) t = inr (spec_nt_xent_loss (of_reals xr) t).
Proof.
  intros Hn Ht. rewrite xent_value_8 by (now rewrite length_of_reals).
  unfold spec_nt_xent_loss. rewrite length_of_reals, Hn.
  do 2 f_equal. apply map_seq_ext. intros i Hi.
  destruct (@partner_below_eight i) as (Hp & Hk & Hki); [lia|].
  rewrite Hp. unfold spec_xent_row. f_equal.
  set (k := Z.to_nat (partner i)) in *.
  set (l := fun j => (rcos (nth i xr []) (nth j xr []) / t)%R).
  assert (E1 : xent_logits (of_reals xr) t i = map (logit i l) (seq 0 8)).
  { unfold xent_logits. rewrite length_of_reals, Hn. apply map_ext. intros j.
    unfold logit. destruct (i =? j).
    - simpl. destruct (Rlt_dec t 0) as [H|_]; [lra | reflexivity].
    - rewrite cos_sim_comm, similarity_reals, fdiv_Fin by lra. reflexivity. }
  assert (E2 : forall j, spec_logit (of_reals xr) t i j = logit i l j).
  { intros j. unfold spec_logit, logit. destruct (i =? j).
    - simpl. destruct (Rlt_dec t 0) as [H|_]; [lra | reflexivity].
    - rewrite similarity_reals, fdiv_Fin by lra. reflexivity. }
  rewrite E1, (@log_softmax_logits i l 8 k Hk Hki).
  rewrite length_of_reals, Hn, E2.
  rewrite (map_ext (fun j => fexp (spec_logit (of_reals xr) t i j))
                   (fun j => fexp (logit i l j)))
    by (intros j; now rewrite E2).
  now rewrite (@spec_softmax_logits i l 8 k Hk Hki).
Qed.

Lemma nt_xent_loss_of_eight (h : heap) (x : ref) (xr : list (list R)) (t : R) :
  nth_error h x = Some (FloatT (of_reals xr)) ->
  length xr = 8 -> (0 < t)%R ->
  fst (nt_xent_loss x t h) = inr (spec_nt_xent_loss (of_reals xr) t).
Proof.
  intros Hx Hn Ht. rewrite (@nt_xent_loss_run h x (of_reals xr) t Hx).
  simpl fst. now apply xent_value_spec.
Qed.

(* ===================================================================== *)
(** ** The cells of the cosine-similarity notebook *)
(* ===================================================================== *)

Lemma broadcast_same_length {A B C} (f : A -> B -> result C)
      (l1 : list A) (l2 : list B) :
  length l1 = length l2 ->
  broadcast f l1 l2 = map_result (fun p => f (fst p) (snd p)) (combine l1 l2).
Proof.
  intros H.
  destruct l1 as [|a [|a' l1]], l2 as [|b [|b' l2]]; try discriminate H;
    try reflexivity.
  unfold broadcast. now rewrite H, Nat.eqb_refl.
Qed.

Lemma map_result_inr_in {A B} (f : A -> result B) (h : A -> B) (l : list A) :
  (forall a, In a l -> f a = inr (h a)) -> map_result f l = inr (map h l).
Proof.
  induction l as [|a l IH]; intros H; simpl; [reflexivity|].
  rewrite (H a (or_introl eq_refl)), IH; [reflexivity|].
  intros b Hb. apply H. now right.
Qed.

Lemma in_combine_shapes {A} (b d : nat) (x1 x2 : list (list (list A)))
      (p : list (list A) * list (list A)) :
  Forall (has_shape b d) x1 -> Forall (has_shape b d) x2 ->
  In p (combine x1 x2) -> length (fst p) = length (snd p).
Proof.
  intros H1 H2 Hin. destruct p as [r1 r2]. simpl.
  rewrite Forall_forall in H1, H2.
  destruct (H1 r1 (in_combine_l _ _ _ _ Hin)) as [E1 _].
  destruct (H2 r2 (in_combine_r _ _ _ _ Hin)) as [E2 _]. congruence.
Qed.

Lemma cosine_similarity_same_shape (a b d : nat) (x1 x2 : list matrix) :
  has_shape3 a b d x1 -> has_shape3 a b d x2 ->
  cosine_similarity x1 x2 = inr (zip_with (zip_with cos_sim) x1 x2).
Proof.
  intros [L1 S1] [L2 S2]. unfold cosine_similarity.
  rewrite broadcast_same_length by congruence.
  unfold zip_with at 1.
  apply map_result_inr_in with (h := fun p => zip_with cos_sim (fst p) (snd p)).
  intros p Hp. rewrite broadcast_same_length
    by (exact (@in_combine_shapes _ b d x1 x2 p S1 S2 Hp)).
  apply (map_result_inr (fun q => cos_sim (fst q) (snd q))).
Qed.

Lemma length_zip_with {A B C} (f : A -> B -> C) (l1 : list A) (l2 : list B) :
  length l1 = length l2 -> length (zip_with f l1 l2) = length l1.
Proof.
  intros H. unfold zip_with. rewrite length_map, length_combine, H.
  apply Nat.min_id.
Qed.

Lemma nth_zip_with {A B C} (f : A -> B -> C) (l1 : list A) (l2 : list B)
      (i : nat) (d1 : A) (d2 : B) (d : C) :
  length l1 = length l2 -> i < length l1 ->
  nth i (zip_with f l1 l2) d = f (nth i l1 d1) (nth i l2 d2).
Proof.
  intros H Hi. unfold zip_with.
  rewrite nth_indep with (d' := (fun p => f (fst p) (snd p)) (d1, d2))
    by (rewrite length_map, length_combine, <- H, Nat.min_id; exact Hi).
  rewrite (map_nth (fun p => f (fst p) (snd p))).
  now rewrite combine_nth by exact H.
Qed.

(** X1.  On two tensors of one shape [(a, b, d)] (the notebook's are of
    shape (10, 4, 5)) [F.cosine_similarity] along the last dimension does
    not fail and returns a tensor of shape [(a, b)], whose entry [(i, j)] is
    the cosine similarity of the two vectors at [(i, j)]. *)
Theorem cosine_similarity_shape (a b d : nat) (x1 x2 : list matrix) :
  has_shape3 a b d x1 -> has_shape3 a b d x2 ->
  exists m,
    cosine_similarity x1 x2 = inr m
    /\ has_shape a b m
    /\ forall i j, i < a -> j < b ->
         entry m i j = cos_sim (nth j (nth i x1 []) []) (nth j (nth i x2 []) []).
Proof.
  intros H1 H2. exists (zip_with (zip_with cos_sim) x1 x2).
  split; [now apply (cosine_similarity_same_shape (a := a) (b := b) (d := d))|].
  destruct H1 as [L1 S1], H2 as [L2 S2]. unfold matrix in *.
  assert (Hrow : forall i, i < a ->
            length (nth i x1 []) = b /\ length (nth i x2 []) = b).
  { intros i Hi. rewrite Forall_forall in S1, S2. split.
    - apply (S1 (nth i x1 [])). apply nth_In. lia.
    - apply (S2 (nth i x2 [])). apply nth_In. lia. }
  split; [split|].
  - rewrite length_zip_with; congruence.
  - apply Forall_forall. intros row Hrow'.
    apply (In_nth _ _ []) in Hrow'. destruct Hrow' as (i & Hi & <-).
    rewrite length_zip_with in Hi by congruence.
    rewrite (nth_zip_with _ x1 x2 [] [] []) by (congruence || lia).
    destruct (Hrow i) as [E1 E2]; [lia|].
    rewrite length_zip_with; congruence.
  - intros i j Hi Hj. unfold entry.
    rewrite (nth_zip_with _ x1 x2 [] [] []) by (congruence || lia).
    destruct (Hrow i Hi) as [E1 E2].
    apply nth_zip_with; [congruence | lia].
Qed.

Lemma cosine_similarity_shape_witness :
  exists m,
    cosine_similarity [[[Fin 1; Fin 0]; [Fin 0; Fin 2]]]
                      [[[Fin 3; Fin 4]; [Fin 0; Fin 5]]] = inr m
    /\ has_shape 1 2 m
    /\ forall i j, i < 1 -> j < 2 ->
         entry m i j
         = cos_sim (nth j (nth i [[[Fin 1; Fin 0]; [Fin 0; Fin 2]]] []) [])
                   (nth j (nth i [[[Fin 3; Fin 4]; [Fin 0; Fin 5]]] []) []).
Proof.
  apply (@cosine_similarity_shape 1 2 2).
  - split; [reflexivity|]. repeat constructor.
  - split; [reflexivity|]. repeat constructor.
Defined.

Lemma has_shape_3_2 {A} (x : list (list A)) :
  has_shape 3 2 x ->
  exists a0 b0 a1 b1 a2 b2, x = [[a0; b0]; [a1; b1]; [a2; b2]].
Proof.
  intros [L S].
  destruct x as [|r0 [|r1 [|r2 [|r3 x]]]]; try discriminate L.
  inversion S as [|? ? H0 S0]; subst.
  inversion S0 as [|? ? H1 S1]; subst.
  inversion S1 as [|? ? H2 S2]; subst.
  destruct r0 as [|a0 [|b0 [|]]]; try discriminate H0.
  destruct r1 as [|a1 [|b1 [|]]]; try discriminate H1.
  destruct r2 as [|a2 [|b2 [|]]]; try discriminate H2.
  now exists a0, b0, a1, b1, a2, b2.
Qed.

(** X2.  For every tensor [x] of shape (3, 2), the pairwise cosine
    similarity computed on the explicitly expanded tensors
    ([x[None,:,:].expand(3, 3, 2)] against [x[:,None,:].expand(3, 3, 2)]) is
    the one computed by broadcasting [x[None,:,:]] against [x[:,None,:]],
    which is the matrix the two losses start from. *)
Theorem expanded_pairs_is_broadcast (x : matrix) :
  has_shape 3 2 x ->
  expanded_pairs x = broadcast_pairs x
  /\ broadcast_pairs x = inr (similarity x).
Proof.
  intros H. split.
  - destruct (has_shape_3_2 H) as (a0 & b0 & a1 & b1 & a2 & b2 & ->).
    reflexivity.
  - apply cosine_similarity_unsqueeze.
Qed.

Lemma expanded_pairs_is_broadcast_witness :
  expanded_pairs batch3 = broadcast_pairs batch3
  /\ broadcast_pairs batch3 = inr (similarity batch3).
Proof.
  apply expanded_pairs_is_broadcast. split; [reflexivity|].
  repeat constructor.
Defined.

(** X3.  The explicit [expand(3, 3, 2)] only fits a batch of three vectors
    (or of one, which it repeats): for any other number of vectors the
    expanded computation fails with [RuntimeError], where the broadcast
    computation returns the similarity matrix. *)
Theorem expanded_pairs_other_sizes (x : matrix) :
  length x <> 1 -> length x <> 3 ->
  expanded_pairs x = inl RuntimeError
  /\ broadcast_pairs x = inr (similarity x).
Proof.
  intros H1 H3. split; [|apply cosine_similarity_unsqueeze].
  unfold expanded_pairs, expand_3d, unsqueeze0. cbv zeta. simpl expand_dim.
  unfold and_then at 2. simpl map_result. unfold expand_2d at 1.
  assert (E : expand_dim 3 x = inl RuntimeError).
  { unfold expand_dim. destruct x as [|r [|r' x]].
    - reflexivity.
    - contradiction H1. reflexivity.
    - apply Nat.eqb_neq in H3. now rewrite H3. }
  rewrite E. reflexivity.
Qed.

Lemma expanded_pairs_other_sizes_witness :
  expanded_pairs batch4 = inl RuntimeError
  /\ broadcast_pairs batch4 = inr (similarity batch4).
Proof.
  apply expanded_pairs_other_sizes; simpl; lia.
Defined.

Section UnitVectors.

Local Open Scope R_scope.

Lemma rnorm_unit (a : R) : rnorm [a] = Rabs a.
Proof.
  unfold rnorm, rsum. simpl. replace (0 + a * a) with (Rsqr a)
    by (unfold Rsqr; lra).
  apply sqrt_Rsqr_abs.
Qed.

Lemma rcos_unit (a b : R) :
  eps <= Rabs a -> eps <= Rabs b ->
  rcos [a] [b] = a * b / (Rabs a * Rabs b).
Proof.
  intros Ha Hb. unfold rcos. rewrite !rnorm_unit.
  rewrite !Rmax_left by assumption.
  unfold rdot, rsum, zip_with. simpl. now rewrite Rplus_0_l.
Qed.

Lemma rcos_unit_sign (a b : R) :
  eps <= Rabs a -> eps <= Rabs b ->
  (0 < a * b -> rcos [a] [b] = 1) /\ (a * b < 0 -> rcos [a] [b] = -1).
Proof.
  intros Ha Hb. rewrite rcos_unit by assumption.
  pose proof eps_pos as He.
  assert (Hab : Rabs a * Rabs b = Rabs (a * b)) by (now rewrite Rabs_mult).
  rewrite Hab. split; intros H.
  - rewrite Rabs_right by lra. field.
    split; intros E; rewrite E in H; lra.
  - rewrite Rabs_left by lra. field.
    split; intros E; rewrite E in H; lra.
Qed.

End UnitVectors.

(** X4.  The notebook's pairwise similarity of the elements of a tensor of
    three real numbers, each compared as a vector of size one: where the
    magnitudes are at least [eps], entry [(i, j)] is 1 when elements [i] and
    [j] have the same sign and -1 when their signs differ (the notebook's
    text says "always 1"; its printed matrix has the -1 entries). *)
Theorem scalar_pairs_signs (a b c : R) (i j : nat) :
  (eps <= Rabs a)%R -> (eps <= Rabs b)%R -> (eps <= Rabs c)%R ->
  i < 3 -> j < 3 ->
  exists m,
    scalar_pairs (map Fin [a; b; c]) = inr m
    /\ has_shape 3 3 m
    /\ ((0 < nth i [a; b; c] 0 * nth j [a; b; c] 0)%R -> entry m i j = Fin 1)
    /\ ((nth i [a; b; c] 0 * nth j [a; b; c] 0 < 0)%R -> entry m i j = Fin (-1)).
Proof.
  intros Ha Hb Hc Hi Hj.
  exists (map (fun u => map (fun v => cos_sim [Fin v] [Fin u]) [a; b; c])
              [a; b; c]).
  split; [reflexivity|]. split; [split; [reflexivity | repeat constructor]|].
  assert (Hu : forall k, k < 3 -> (eps <= Rabs (nth k [a; b; c] 0))%R).
  { intros k Hk. destruct k as [|[|[|k]]]; simpl; try assumption. lia. }
  assert (E : entry (map (fun u => map (fun v => cos_sim [Fin v] [Fin u])
                                       [a; b; c]) [a; b; c]) i j
              = Fin (rcos [nth j [a; b; c] 0%R] [nth i [a; b; c] 0%R])).
  { rewrite <- (cos_sim_reals [nth j [a; b; c] 0%R] [nth i [a; b; c] 0%R]).
    destruct i as [|[|[|i]]]; try lia; destruct j as [|[|[|j]]]; try lia;
      reflexivity. }
  rewrite E.
  destruct (@rcos_unit_sign (nth j [a; b; c] 0%R) (nth i [a; b; c] 0%R))
    as [Hpos Hneg]; try (apply Hu; assumption).
  split; intros H.
  - rewrite Hpos; [reflexivity|]. now rewrite Rmult_comm.
  - rewrite Hneg; [reflexivity|]. now rewrite Rmult_comm.
Qed.

Lemma scalar_pairs_signs_witness :
  exists m,
    scalar_pairs (map Fin [2; -3; 1]%R) = inr m
    /\ has_shape 3 3 m
    /\ ((0 < nth 0 [2; -3; 1] 0 * nth 1 [2; -3; 1] 0)%R -> entry m 0 1 = Fin 1)
    /\ ((nth 0 [2; -3; 1] 0 * nth 1 [2; -3; 1] 0 < 0)%R
        -> entry m 0 1 = Fin (-1)).
Proof.
  apply (@scalar_pairs_signs 2 (-3) 1 0 1); try lia.
  - unfold eps. rewrite Rabs_right; lra.
  - unfold eps. rewrite Rabs_left; lra.
  - unfold eps. rewrite Rabs_right; lra.
Defined.

(* ===================================================================== *)
(** ** Diagonal, range and scale of the similarities *)
(* ===================================================================== *)

Section Similarities.

Local Open Scope R_scope.

Lemma rsum_nil : rsum [] = 0.
Proof. reflexivity. Qed.

Lemma rdot_cons (a b : R) (u v : list R) :
  rdot (a :: u) (b :: v) = a * b + rdot u v.
Proof. unfold rdot, zip_with. simpl. apply rsum_cons. Qed.

Lemma rdot_self (u : list R) : rdot u u = rsum (map (fun a => a * a) u).
Proof.
  induction u as [|a u IH]; [reflexivity|].
  rewrite rdot_cons. simpl map. now rewrite rsum_cons, IH.
Qed.

Lemma rnorm_sqr (u : list R) : rnorm u * rnorm u = rdot u u.
Proof.
  unfold rnorm. rewrite rdot_self. apply sqrt_sqrt. apply rsum_squares_nonneg.
Qed.

Lemma rnorm_nonneg (u : list R) : 0 <= rnorm u.
Proof. unfold rnorm. apply sqrt_pos. Qed.

Lemma rcos_self (u : list R) : eps <= rnorm u -> rcos u u = 1.
Proof.
  intros H. unfold rcos. rewrite Rmax_left by exact H.
  rewrite rnorm_sqr. pose proof eps_pos as He.
  assert (0 < rdot u u) by (rewrite <- rnorm_sqr; nra).
  field. lra.
Qed.

Lemma rdot_scaled (c d : R) (u v : list R) :
  rdot (map (Rmult c) u) (map (Rmult d) v) = c * d * rdot u v.
Proof.
  revert v. induction u as [|a u IH]; intros [|b v]; simpl map;
    try (unfold rdot, zip_with, rsum; simpl; lra).
  rewrite !rdot_cons, IH. lra.
Qed.

Lemma rnorm_scaled (c : R) (u : list R) :
  0 <= c -> rnorm (map (Rmult c) u) = c * rnorm u.
Proof.
  intros Hc.
  assert (H0 : 0 <= rnorm (map (Rmult c) u)) by apply rnorm_nonneg.
  assert (H1 : 0 <= c * rnorm u)
    by (apply Rmult_le_pos; [exact Hc | apply rnorm_nonneg]).
  apply Rsqr_inj; try assumption. unfold Rsqr.
  rewrite rnorm_sqr, rdot_scaled.
  replace (c * rnorm u * (c * rnorm u)) with (c * c * (rnorm u * rnorm u))
    by lra.
  now rewrite rnorm_sqr.
Qed.

Lemma rcos_scaled (c : R) (u v : list R) :
  0 < c ->
  eps <= rnorm u -> eps <= c * rnorm u ->
  eps <= rnorm v -> eps <= c * rnorm v ->
  rcos (map (Rmult c) u) (map (Rmult c) v) = rcos u v.
Proof.
  intros Hc Hu Hcu Hv Hcv. unfold rcos.
  rewrite rdot_scaled, !rnorm_scaled by lra.
  rewrite !Rmax_left by assumption.
  pose proof eps_pos. field. repeat split; lra.
Qed.

(** The inequality of Cauchy and Schwarz on the vectors of a batch. *)
Lemma cauchy_schwarz_2 (p q r s : R) :
  (p * q + r * s) * (p * q + r * s) <= (p * p + r * r) * (q * q + s * s).
Proof.
  pose proof (Rle_0_sqr (p * s - r * q)) as H. unfold Rsqr in H.
  replace ((p * p + r * r) * (q * q + s * s))
    with ((p * q + r * s) * (p * q + r * s)
          + (p * s - r * q) * (p * s - r * q)) by ring.
  lra.
Qed.

Lemma rdot_le_norms (u v : list R) : Rabs (rdot u v) <= rnorm u * rnorm v.
Proof.
  revert v. induction u as [|a u IH]; intros v.
  - unfold rdot, zip_with. simpl. rewrite rsum_nil, Rabs_R0.
    apply Rmult_le_pos; apply rnorm_nonneg.
  - destruct v as [|b v].
    + unfold rdot, zip_with. simpl. rewrite rsum_nil, Rabs_R0.
      apply Rmult_le_pos; apply rnorm_nonneg.
    + rewrite rdot_cons.
      pose proof (IH v) as Hd.
      pose proof (rnorm_nonneg u) as Hu. pose proof (rnorm_nonneg v) as Hv.
      pose proof (rnorm_nonneg (a :: u)) as Hau.
      pose proof (rnorm_nonneg (b :: v)) as Hbv.
      pose proof (rnorm_sqr (a :: u)) as Sau. rewrite rdot_cons in Sau.
      pose proof (rnorm_sqr (b :: v)) as Sbv. rewrite rdot_cons in Sbv.
      pose proof (rnorm_sqr u) as Su. pose proof (rnorm_sqr v) as Sv.
      set (nu := rnorm u) in *. set (nv := rnorm v) in *.
      set (na := rnorm (a :: u)) in *. set (nb := rnorm (b :: v)) in *.
      set (D := rdot u v) in *.
      assert (H1 : Rabs (a * b + D) <= Rabs a * Rabs b + nu * nv).
      { eapply Rle_trans; [apply Rabs_triang|]. rewrite Rabs_mult. lra. }
      assert (H2 : Rabs a * Rabs b + nu * nv <= na * nb).
      { apply Rsqr_incr_0_var.
        - unfold Rsqr.
          pose proof (cauchy_schwarz_2 (Rabs a) (Rabs b) nu nv) as Hcs.
          assert (Ea : Rabs a * Rabs a = a * a)
            by (rewrite <- Rabs_mult; apply Rabs_right; nra).
          assert (Eb : Rabs b * Rabs b = b * b)
            by (rewrite <- Rabs_mult; apply Rabs_right; nra).
          replace (na * nb * (na * nb)) with ((na * na) * (nb * nb)) by lra.
          rewrite Sau, Sbv. rewrite <- Su, <- Sv.
          rewrite Ea, Eb in Hcs. exact Hcs.
        - apply Rmult_le_pos; assumption. }
      lra.
Qed.

Lemma rcos_range (u v : list R) : -1 <= rcos u v <= 1.
Proof.
  unfold rcos.
  pose proof (rdot_le_norms u v) as Hd.
  pose proof (rnorm_nonneg u) as Hu. pose proof (rnorm_nonneg v) as Hv.
  pose proof (Rmax_l (rnorm u) eps) as Mu.
  pose proof (Rmax_l (rnorm v) eps) as Mv.
  pose proof (floor_pos (rnorm u)) as Pu.
  pose proof (floor_pos (rnorm v)) as Pv.
  set (mu := Rmax (rnorm u) eps) in *. set (mv := Rmax (rnorm v) eps) in *.
  assert (HM : 0 < mu * mv) by (apply Rmult_lt_0_compat; assumption).
  assert (Hle : rnorm u * rnorm v <= mu * mv)
    by (apply Rmult_le_compat; assumption).
  assert (Hb : - (mu * mv) <= rdot u v <= mu * mv).
  { pose proof (Rle_abs (rdot u v)). pose proof (Rle_abs (- rdot u v)).
    rewrite Rabs_Ropp in *. lra. }
  split.
  - apply (Rmult_le_reg_r (mu * mv)); [exact HM|].
    unfold Rdiv. rewrite Rmult_assoc, Rinv_l by lra. lra.
  - apply (Rmult_le_reg_r (mu * mv)); [exact HM|].
    unfold Rdiv. rewrite Rmult_assoc, Rinv_l by lra. lra.
Qed.

End Similarities.

(* ===================================================================== *)
(** ** The losses do not see the length of the vectors *)
(* ===================================================================== *)

Lemma length_scaled (c : R) (xr : list (list R)) :
  length (scaled c xr) = length xr.
Proof. apply length_map. Qed.

Lemma nth_scaled (c : R) (xr : list (list R)) (i : nat) :
  nth i (scaled c xr) [] = map (Rmult c) (nth i xr []).
Proof.
  unfold scaled. change (@nil R) with (map (Rmult c) []) at 1. apply map_nth.
Qed.

Lemma cos_sim_scaled (c : R) (xr : list (list R)) (i j : nat) :
  (0 < c)%R ->
  Forall (fun u => (eps <= rnorm u)%R /\ (eps <= c * rnorm u)%R) xr ->
  i < length xr -> j < length xr ->
  cos_sim (nth j (of_reals (scaled c xr)) []) (nth i (of_reals (scaled c xr)) [])
  = cos_sim (nth j (of_reals xr) []) (nth i (of_reals xr) []).
Proof.
  intros Hc Hall Hi Hj. rewrite !similarity_reals, !nth_scaled.
  rewrite Forall_forall in Hall.
  destruct (Hall (nth i xr [])) as [Hi1 Hi2]; [now apply nth_In|].
  destruct (Hall (nth j xr [])) as [Hj1 Hj2]; [now apply nth_In|].
  now rewrite rcos_scaled.
Qed.

Lemma with_diagonal_scaled (v : scalar) (c : R) (xr : list (list R)) :
  (0 < c)%R ->
  Forall (fun u => (eps <= rnorm u)%R /\ (eps <= c * rnorm u)%R) xr ->
  with_diagonal v (of_reals (scaled c xr)) = with_diagonal v (of_reals xr).
Proof.
  intros Hc Hall. unfold with_diagonal.
  rewrite !length_of_reals, length_scaled.
  apply tabulate_ext. intros i j Hi Hj.
  destruct (i =? j); [reflexivity|]. now apply cos_sim_scaled.
Qed.

Lemma bxent_value_similarities (xv xv' : matrix) (p : list (Z * Z)) (t : R) :
  length xv' = length xv ->
  (forall i j, i < length xv -> j < length xv ->
               bxent_prob xv' t i j = bxent_prob xv t i j) ->
  bxent_value xv' p t = bxent_value xv p t.
Proof.
  intros Hn Hprob. unfold bxent_value. cbv zeta. rewrite Hn.
  rewrite (@tabulate_ext _ (length xv) (length xv)
             (bxent_prob xv' t) (bxent_prob xv t) Hprob).
  destruct (forallb (valid_index (length xv)) p); [|reflexivity].
  destruct (forallb _ _); [|reflexivity].
  do 2 f_equal. apply map_seq_ext. intros i Hi.
  unfold bxent_row. cbv zeta. rewrite Hn.
  assert (E : forall j, 0 <= j < 0 + length xv ->
                        bxent_bce xv' p t i j = bxent_bce xv p t i j).
  { intros j Hj. unfold bxent_bce. rewrite Hn, Hprob by lia. reflexivity. }
  rewrite (map_seq_ext
             (fun j => if positive (length xv) p i j
                       then bxent_bce xv' p t i j else Fin 0)
             (fun j => if positive (length xv) p i j
                       then bxent_bce xv p t i j else Fin 0))
    by (intros j Hj; now rewrite E).
  rewrite (map_seq_ext
             (fun j => if negb (positive (length xv) p i j)
                       then bxent_bce xv' p t i j else Fin 0)
             (fun j => if negb (positive (length xv) p i j)
                       then bxent_bce xv p t i j else Fin 0))
    by (intros j Hj; now rewrite E).
  reflexivity.
Qed.

(* ===================================================================== *)
(** ** Bounds on the losses *)
(* ===================================================================== *)

Section Bounds.

Local Open Scope R_scope.

Lemma ln_le (x y : R) : 0 < x -> x <= y -> ln x <= ln y.
Proof.
  intros Hx [Hlt | ->]; [|lra]. left. now apply ln_increasing.
Qed.

Lemma exp_le (x y : R) : x <= y -> exp x <= exp y.
Proof.
  intros [Hlt | ->]; [|lra]. left. now apply exp_increasing.
Qed.

Lemma fold_fadd_bounded (c : R) (l : list scalar) (a : R) :
  (forall b, In b l -> bounded c b) ->
  exists s, fold_left fadd l (Fin a) = Fin s
            /\ a <= s <= a + c * INR (length l).
Proof.
  revert a. induction l as [|b l IH]; intros a H.
  - exists a. simpl. split; [reflexivity | lra].
  - destruct (H b (or_introl eq_refl)) as (r & -> & Hr).
    destruct (IH (a + r)) as (s & Es & Hs).
    { intros d Hd. apply H. now right. }
    exists s. split; [exact Es|].
    change (length (Fin r :: l)) with (S (length l)). rewrite S_INR.
    assert (0 <= c) by lra.
    assert (0 <= INR (length l)) by apply pos_INR.
    nra.
Qed.

Lemma mean_bounded (c : R) (l : list scalar) :
  (forall b, In b l -> bounded c b) -> (1 <= length l)%nat ->
  bounded c (mean l).
Proof.
  intros H Hl. unfold mean, fsum.
  destruct (@fold_fadd_bounded c l 0 H) as (s & -> & Hs).
  assert (Hk : 0 < INR (length l)) by (apply lt_0_INR; lia).
  rewrite fdiv_Fin by lra.
  exists (s / INR (length l)). split; [reflexivity|]. split.
  - apply Rmult_le_reg_r with (r := INR (length l)); [exact Hk|].
    unfold Rdiv. rewrite Rmult_assoc, Rinv_l by lra. lra.
  - apply Rmult_le_reg_r with (r := INR (length l)); [exact Hk|].
    unfold Rdiv. rewrite Rmult_assoc, Rinv_l by lra. lra.
Qed.

Lemma fadd_bounded (c d : R) (a b : scalar) :
  bounded c a -> bounded d b -> bounded (c + d) (fadd a b).
Proof.
  intros (r & -> & Hr) (s & -> & Hs). exists (r + s).
  split; [reflexivity | lra].
Qed.

(** The clamped logarithm of a probability lies between -100 and 0. *)
Lemma clamp_log_range (v : R) :
  0 <= v <= 1 ->
  exists y, fmax (flog (Fin v)) (Fin (-100)) = Fin y /\ -100 <= y <= 0.
Proof.
  intros Hv. simpl. destruct (Rlt_dec 0 v) as [H|H].
  - simpl. eexists. split; [reflexivity|]. split.
    + apply Rmax_r.
    + apply Rmax_lub; [|lra]. rewrite <- ln_1. apply ln_le; lra.
  - destruct (Req_EM_T v 0) as [E|E]; [|lra]. simpl.
    eexists. split; [reflexivity | lra].
Qed.

(** Every term of the binary cross entropy against a 0/1 target lies
    between 0 and 100. *)
Lemma bce_bounded (q : R) (b : bool) :
  0 <= q <= 1 -> bounded 100 (bce (Fin q) (if b then Fin 1 else Fin 0)).
Proof.
  intros Hq. unfold bce.
  change (fsub (Fin 1) (Fin q)) with (Fin (1 + - q)).
  destruct (@clamp_log_range (1 + - q)) as (y1 & E1 & H1); [lra|].
  destruct (@clamp_log_range q) as (y2 & E2 & H2); [lra|].
  rewrite E1, E2. destruct b; simpl; eexists; (split; [reflexivity|]); lra.
Qed.

Lemma clamped_bce_bounded (xr : list (list R)) (p : list (Z * Z)) (t : R)
      (i j : nat) :
  t <> 0 -> bounded 100 (clamped_bce (of_reals xr) p t i j).
Proof.
  intros Ht. unfold clamped_bce. cbv zeta.
  pose proof (@prob_in_unit xr t j i Ht) as Hu. unfold bxent_prob in Hu.
  rewrite (Nat.eqb_sym j i) in Hu.
  apply in_unit_inv in Hu. destruct Hu as (q & Hq & Hq01). rewrite Hq.
  now apply bce_bounded.
Qed.

Lemma clamped_row_loss_bounded (xr : list (list R)) (p : list (Z * Z)) (t : R)
      (i : nat) :
  t <> 0 ->
  (i < length xr)%nat ->
  (exists j, (j < length xr)%nat /\ spec_positive p i j = false) ->
  bounded 200 (clamped_row_loss (of_reals xr) p t i).
Proof.
  intros Ht Hi (j & Hj & Hneg). unfold clamped_row_loss. cbv zeta.
  rewrite length_of_reals. set (n := length xr) in *.
  assert (Hpos : (1 <= length (positive_columns n p i))%nat).
  { apply (length_In i). apply filter_In. split.
    - apply in_seq. lia.
    - apply spec_positive_diagonal. }
  assert (Hnegs : (1 <= length (negative_columns n p i))%nat).
  { apply (length_In j). apply filter_In. split.
    - apply in_seq. lia.
    - now rewrite Hneg. }
  pose proof (filter_negb_length (spec_positive p i) (seq 0 n)) as Hsum.
  rewrite length_seq in Hsum.
  fold (positive_columns n p i) in Hsum. fold (negative_columns n p i) in Hsum.
  replace (n - length (positive_columns n p i))%nat
    with (length (negative_columns n p i)) by lia.
  rewrite <- (length_map (clamped_bce (of_reals xr) p t i) (positive_columns n p i)).
  rewrite <- (length_map (clamped_bce (of_reals xr) p t i) (negative_columns n p i)).
  replace 200 with (100 + 100) by lra.
  apply fadd_bounded; apply mean_bounded;
    try (rewrite length_map; assumption);
    intros b Hb; apply in_map_iff in Hb; destruct Hb as (k & <- & _);
    now apply clamped_bce_bounded.
Qed.

(** The softmax cross entropy of a row of eight logits that lie between
    [-B] and [B], at a column other than the excluded one. *)
Lemma softmax_row_bounds (i k : nat) (l : nat -> R) (B : R) :
  (i < 8)%nat -> (k < 8)%nat -> k <> i ->
  (forall j, - B <= l j <= B) ->
  0 <= ln (rsum (map (weight i l) (seq 0 8))) - l k <= ln 7 + 2 * B.
Proof.
  intros Hi Hk Hki Hl.
  pose proof (@weights_positive i l 8 k Hk Hki) as HS.
  assert (Hlow : exp (l k) <= rsum (map (weight i l) (seq 0 8))).
  { replace (exp (l k)) with (weight i l k).
    - apply rsum_ge_member.
      + intros c Hc. apply in_map_iff in Hc. destruct Hc as (j & <- & _).
        apply weight_nonneg.
      + apply in_map. apply in_seq. lia.
    - unfold weight.
      replace (i =? k)%nat with false by (symmetry; apply Nat.eqb_neq; congruence).
      reflexivity. }
  assert (Hup : rsum (map (weight i l) (seq 0 8)) <= 7 * exp B).
  { assert (He : forall j, exp (l j) <= exp B)
      by (intros j; apply exp_le; apply Hl).
    pose proof (He 0%nat). pose proof (He 1%nat). pose proof (He 2%nat).
    pose proof (He 3%nat). pose proof (He 4%nat). pose proof (He 5%nat).
    pose proof (He 6%nat). pose proof (He 7%nat).
    unfold rsum.
    do 8 (destruct i as [|i]; [unfold weight; simpl; lra|]). lia. }
  pose proof (exp_pos (l k)) as Hek. pose proof (exp_pos B) as HeB.
  split.
  - assert (l k <= ln (rsum (map (weight i l) (seq 0 8)))).
    { rewrite <- (ln_exp (l k)) at 1. now apply ln_le. }
    lra.
  - assert (ln (rsum (map (weight i l) (seq 0 8))) <= ln 7 + B).
    { rewrite <- (ln_exp B). rewrite <- ln_mult by lra.
      now apply ln_le. }
    pose proof (Hl k). lra.
Qed.

End Bounds.

Lemma spec_xent_row_value (xr : list (list R)) (t : R) (i : nat) :
  length xr = 8 -> (0 < t)%R -> i < 8 ->
  spec_xent_row (of_reals xr) t i
  = Fin (ln (rsum (map (weight i (fun j => (rcos (nth i xr []) (nth j xr []) / t)%R))
                       (seq 0 8)))
         - rcos (nth i xr []) (nth (Z.to_nat (partner i)) xr []) / t).
Proof.
  intros Hn Ht Hi.
  destruct (@partner_below_eight i Hi) as (_ & Hk & Hki).
  set (l := fun j => (rcos (nth i xr []) (nth j xr []) / t)%R).
  assert (E2 : forall j, spec_logit (of_reals xr) t i j = logit i l j).
  { intros j. unfold spec_logit, logit. destruct (i =? j).
    - simpl. destruct (Rlt_dec t 0) as [H|_]; [lra | reflexivity].
    - rewrite similarity_reals, fdiv_Fin by lra. reflexivity. }
  unfold spec_xent_row. rewrite length_of_reals, Hn, E2.
  rewrite (map_ext (fun j => fexp (spec_logit (of_reals xr) t i j))
                   (fun j => fexp (logit i l j)))
    by (intros j; now rewrite E2).
  rewrite (@spec_softmax_logits i l 8 (Z.to_nat (partner i)) Hk Hki).
  unfold fneg, l. cbv beta. apply f_equal. lra.
Qed.

Lemma scaled_similarity_range (u v : list R) (t : R) :
  (0 < t)%R -> (- (1 / t) <= rcos u v / t <= 1 / t)%R.
Proof.
  intros Ht. pose proof (rcos_range u v) as [H1 H2].
  assert (Hi : (0 < / t)%R) by now apply Rinv_0_lt_compat.
  unfold Rdiv. split; nra.
Qed.

(** X7.  On a real-valued batch of eight vectors and a temperature
    [t > 0], [nt_xent_loss] returns a real number between 0 and
    [ln 7 + 2 / t]: each row's cross entropy is the logarithm of at most
    seven exponentials of similarities that lie between [-1/t] and [1/t]. *)
Theorem xent_loss_bounds (h : heap) (x : ref) (xr : list (list R)) (t : R) :
  nth_error h x = Some (FloatT (of_reals xr)) ->
  length xr = 8 -> (0 < t)%R ->
  exists r,
    fst (nt_xent_loss x t h) = inr (Fin r) /\ (0 <= r <= ln 7 + 2 / t)%R.
Proof.
  intros Hx Hn Ht.
  rewrite (@nt_xent_loss_of_eight h x xr t Hx Hn Ht).
  unfold spec_nt_xent_loss. rewrite length_of_reals, Hn.
  destruct (@mean_bounded (ln 7 + 2 / t)%R
              (map (spec_xent_row (of_reals xr) t) (seq 0 8)))
    as (r & Er & Hr).
  - intros b Hb. apply in_map_iff in Hb. destruct Hb as (i & <- & Hi).
    apply in_seq in Hi.
    rewrite spec_xent_row_value by (assumption || lia).
    destruct (@partner_below_eight i) as (_ & Hk & Hki); [lia|].
    eexists. split; [reflexivity|].
    replace (2 / t)%R with (2 * (1 / t))%R by (unfold Rdiv; lra).
    apply (@softmax_row_bounds i (Z.to_nat (partner i))
             (fun j => (rcos (nth i xr []) (nth j xr []) / t)%R) (1 / t)%R);
      try assumption; try lia.
    intros j. now apply scaled_similarity_range.
  - rewrite length_map, length_seq. lia.
  - exists r. now rewrite Er.
Qed.

Lemma xent_loss_bounds_witness :
  exists r,
    fst (nt_xent_loss 0 1 [FloatT batch8]) = inr (Fin r)
    /\ (0 <= r <= ln 7 + 2 / 1)%R.
Proof.
  apply (@xent_loss_bounds [FloatT batch8] 0
           [[1; 0]; [1; 1]; [0; 1]; [2; 1]; [1; 2]; [3; 1]; [1; 3]; [2; 3]]%R
           1%R); try reflexivity.
  lra.
Defined.

(** X8.  On a real-valued batch with in-range positive pairs that leave
    every row a negative column, and a temperature other than 0,
    [nt_bxent_loss] returns a real number between 0 and 200: every binary
    cross-entropy term lies between 0 and 100, because
    [binary_cross_entropy] clamps its logarithms at -100, and a row adds the
    mean over its positives to the mean over its negatives. *)
Theorem bxent_loss_bounds (h : heap) (x pr : ref)
        (xr : list (list R)) (p : list (Z * Z)) (t : R) :
  nth_error h x = Some (FloatT (of_reals xr)) ->
  nth_error h pr = Some (PairsT p) ->
  1 <= length xr ->
  in_range (length xr) p ->
  (forall i, i < length xr ->
             exists j, j < length xr /\ spec_positive p i j = false) ->
  t <> 0%R ->
  exists r,
    fst (nt_bxent_loss x pr t h) = inr (Fin r) /\ (0 <= r <= 200)%R.
Proof.
  intros Hx Hpr Hn Hp Hneg Ht.
  rewrite (@nt_bxent_loss_run h x pr (of_reals xr) p t Hx Hpr). simpl fst.
  rewrite bxent_value_clamped by assumption.
  unfold clamped_bxent_loss. rewrite length_of_reals.
  destruct (@mean_bounded 200%R
              (map (clamped_row_loss (of_reals xr) p t) (seq 0 (length xr))))
    as (r & Er & Hr).
  - intros b Hb. apply in_map_iff in Hb. destruct Hb as (i & <- & Hi).
    apply in_seq in Hi. apply clamped_row_loss_bounded; [exact Ht | lia |].
    apply Hneg. lia.
  - rewrite length_map, length_seq. exact Hn.
  - exists r. now rewrite Er.
Qed.

Lemma bxent_loss_bounds_witness :
  exists r,
    fst (nt_bxent_loss 0 1 1 [FloatT batch3; PairsT [(0, 1); (2, 0)]%Z])
    = inr (Fin r)
    /\ (0 <= r <= 200)%R.
Proof.
  apply (@bxent_loss_bounds
           [FloatT batch3; PairsT [(0, 1); (2, 0)]%Z] 0 1
           [[1; 0]; [1; 1]; [0; 1]]%R [(0, 1); (2, 0)]%Z 1%R).
  - reflexivity.
  - reflexivity.
  - simpl. lia.
  - repeat constructor; simpl; lia.
  - intros i Hi. simpl in Hi.
    destruct i as [|[|[|i]]]; [exists 2 | exists 0 | exists 1 | lia];
      split; simpl; try lia; reflexivity.
  - lra.
Defined.

(* ===================================================================== *)
(** ** The indices of the positive pairs *)
(* ===================================================================== *)

Lemma wrap_outside (n : nat) (z : Z) :
  (z < - Z.of_nat n \/ Z.of_nat n <= z)%Z -> wrap n z = None.
Proof.
  intros H. unfold wrap.
  destruct ((0 <=? z)%Z && (z <? Z.of_nat n)%Z) eqn:E1.
  - apply andb_prop in E1. destruct E1 as [H1 H2].
    apply Z.leb_le in H1. apply Z.ltb_lt in H2. lia.
  - destruct ((- Z.of_nat n <=? z)%Z && (z <? 0)%Z) eqn:E2; [|reflexivity].
    apply andb_prop in E2. destruct E2 as [H1 H2].
    apply Z.leb_le in H1. apply Z.ltb_lt in H2. lia.
Qed.

Lemma forallb_false_in {A} (q : A -> bool) (l : list A) (a : A) :
  In a l -> q a = false -> forallb q l = false.
Proof.
  intros Hin Hq. destruct (forallb q l) eqn:E; [|reflexivity].
  rewrite forallb_forall in E. rewrite (E a Hin) in Hq. discriminate Hq.
Qed.

Lemma written_incl (n : nat) (idx : list (Z * Z)) (rc : Z * Z) :
  In rc (written n idx) -> In rc idx.
Proof.
  induction idx as [|a idx IH]; simpl; [tauto|].
  destruct (valid_index n a); simpl; [|tauto].
  intros [H | H]; [now left | right; now apply IH].
Qed.

Lemma hit_written (n : nat) (p : list (Z * Z)) (i j : nat) :
  hit n (written n p) i j = true -> positive n p i j = true.
Proof.
  unfold positive, hit. rewrite !existsb_exists.
  intros (rc & Hin & Hrc). exists rc. split; [|exact Hrc].
  unfold all_pairs, cat. apply in_or_app. left. now apply (written_incl n).
Qed.

Lemma has_shape_tabulate {A} (n k : nat) (f : nat -> nat -> A) :
  has_shape n k (tabulate n k f).
Proof.
  split; [apply length_tabulate|].
  apply Forall_forall. intros row Hrow. unfold tabulate in Hrow.
  apply in_map_iff in Hrow. destruct Hrow as (i & <- & _).
  now rewrite length_map, length_seq.
Qed.

Lemma invalid_pair_in (n : nat) (p : list (Z * Z)) (rc : Z * Z) :
  In rc p ->
  (fst rc < - Z.of_nat n \/ Z.of_nat n <= fst rc
   \/ snd rc < - Z.of_nat n \/ Z.of_nat n <= snd rc)%Z ->
  forallb (valid_index n) p = false.
Proof.
  intros Hin Hout. apply (forallb_false_in _ _ rc Hin). unfold valid_index.
  destruct Hout as [H | [H | [H | H]]].
  - now rewrite (wrap_outside _ (or_introl H)).
  - now rewrite (wrap_outside _ (or_intror H)).
  - rewrite (wrap_outside _ (z := snd rc) (or_introl H)).
    now destruct (wrap n (fst rc)).
  - rewrite (wrap_outside _ (z := snd rc) (or_intror H)).
    now destruct (wrap n (fst rc)).
Qed.

(** X9.  If some pair of [pos_indices] has a row or column index outside
    [-N, N), [nt_bxent_loss] raises [IndexError] at the assignment to
    [target], whatever the batch and the temperature.  The caller's tensors
    are as they were, and the one tensor the function has created by then
    is [target], left as the interrupted assignment wrote it: an [N] by [N]
    matrix of zeros and ones that holds 1 at every entry addressed by a
    pair listed before the first pair out of range, and 1 only at entries
    that a pair of the list or the diagonal addresses. *)
Theorem bxent_loss_index_error (h : heap) (x pr : ref) (xv : matrix)
        (p : list (Z * Z)) (t : R) (rc : Z * Z) :
  nth_error h x = Some (FloatT xv) ->
  nth_error h pr = Some (PairsT p) ->
  In rc p ->
  (fst rc < - Z.of_nat (length xv) \/ Z.of_nat (length xv) <= fst rc
   \/ snd rc < - Z.of_nat (length xv) \/ Z.of_nat (length xv) <= snd rc)%Z ->
  exists target,
    nt_bxent_loss x pr t h = (inl IndexError, h ++ [FloatT target])
    /\ has_shape (length xv) (length xv) target
    /\ forall i j, i < length xv -> j < length xv ->
         (hit (length xv) (written (length xv) p) i j = true ->
          entry target i j = Fin 1)
         /\ (entry target i j = Fin 1 \/ entry target i j = Fin 0)
         /\ (entry target i j = Fin 1 -> positive (length xv) p i j = true).
Proof.
  intros Hx Hp Hin Hout.
  pose proof (invalid_pair_in (length xv) p rc Hin Hout) as Hv.
  exists (tabulate (length xv) (length xv)
            (fun i j => if hit (length xv) (written (length xv) p) i j
                        then Fin 1 else Fin 0)).
  split.
  { rewrite (@nt_bxent_loss_run h x pr xv p t Hx Hp).
    unfold bxent_value. cbv zeta. rewrite Hv.
    now rewrite (written_target_invalid _ _ Hv). }
  split; [apply has_shape_tabulate|].
  intros i j Hi Hj. rewrite entry_tabulate by assumption.
  destruct (hit (length xv) (written (length xv) p) i j) eqn:Hhit.
  - split; [reflexivity|]. split; [now left|].
    intros _. now apply hit_written.
  - split; [discriminate|]. split; [now right|].
    intros H. injection H as H. exfalso. lra.
Qed.

Lemma bxent_loss_index_error_witness :
  exists target,
    nt_bxent_loss 0 1 1 [FloatT batch3; PairsT [(1, 2); (3, 0); (2, 1)]%Z]
    = (inl IndexError,
       [FloatT batch3; PairsT [(1, 2); (3, 0); (2, 1)]%Z] ++ [FloatT target])
    /\ has_shape 3 3 target
    /\ forall i j, i < 3 -> j < 3 ->
         (hit 3 (written 3 [(1, 2); (3, 0); (2, 1)]%Z) i j = true ->
          entry target i j = Fin 1)
         /\ (entry target i j = Fin 1 \/ entry target i j = Fin 0)
         /\ (entry target i j = Fin 1 ->
             positive 3 [(1, 2); (3, 0); (2, 1)]%Z i j = true).
Proof.
  apply (@bxent_loss_index_error
           [FloatT batch3; PairsT [(1, 2); (3, 0); (2, 1)]%Z] 0 1 batch3
           [(1, 2); (3, 0); (2, 1)]%Z 1%R (3, 0)%Z).
  - reflexivity.
  - reflexivity.
  - simpl. tauto.
  - simpl. lia.
Defined.

(** The result of [nt_bxent_loss] depends on the pair list through the
    validity of its indices and the entries it marks positive. *)
Lemma bxent_row_positive (xv : matrix) (p q : list (Z * Z)) (t : R) (i : nat) :
  (forall j, positive (length xv) p i j = positive (length xv) q i j) ->
  bxent_row xv p t i = bxent_row xv q t i.
Proof.
  intros E. unfold bxent_row. cbv zeta.
  assert (E1 : forall j,
             (if positive (length xv) p i j then bxent_bce xv p t i j else Fin 0)
             = (if positive (length xv) q i j then bxent_bce xv q t i j else Fin 0))
    by (intros j; unfold bxent_bce, bxent_label; now rewrite E).
  assert (E2 : forall j,
             (if negb (positive (length xv) p i j) then bxent_bce xv p t i j
              else Fin 0)
             = (if negb (positive (length xv) q i j) then bxent_bce xv q t i j
                else Fin 0))
    by (intros j; unfold bxent_bce, bxent_label; now rewrite E).
  assert (E3 : forall j, bxent_label (length xv) p i j = bxent_label (length xv) q i j)
    by (intros j; unfold bxent_label; now rewrite E).
  now rewrite (map_ext _ _ E1), (map_ext _ _ E2), (map_ext _ _ E3).
Qed.

Lemma bxent_value_positive (xv : matrix) (p q : list (Z * Z)) (t : R) :
  forallb (valid_index (length xv)) p = forallb (valid_index (length xv)) q ->
  (forall i j, positive (length xv) p i j = positive (length xv) q i j) ->
  bxent_value xv p t = bxent_value xv q t.
Proof.
  intros Hv E. unfold bxent_value. cbv zeta. rewrite Hv. clear Hv.
  destruct (forallb (valid_index (length xv)) q); [|reflexivity].
  destruct (forallb (forallb in_unit) _); [|reflexivity].
  do 2 f_equal. apply map_ext. intros i. apply bxent_row_positive.
  intros j. apply E.
Qed.

Lemma positive_hit (n : nat) (p q : list (Z * Z)) :
  (forall i j, hit n p i j = hit n q i j) ->
  forall i j, positive n p i j = positive n q i j.
Proof.
  intros E i j. unfold positive, all_pairs, cat, hit.
  rewrite !existsb_app. f_equal. apply E.
Qed.

Lemma wrap_from_end (n : nat) (z : Z) :
  (- Z.of_nat n <= z < Z.of_nat n)%Z ->
  wrap n (from_end n z) = wrap n z
  /\ (0 <= from_end n z < Z.of_nat n)%Z.
Proof.
  intros Hz. unfold from_end. destruct (z <? 0)%Z eqn:E.
  - apply Z.ltb_lt in E. split; [|lia].
    rewrite (@wrap_in_range n (z + Z.of_nat n)%Z) by lia.
    unfold wrap.
    replace ((0 <=? z)%Z) with false by (symmetry; apply Z.leb_gt; lia).
    simpl.
    replace ((- Z.of_nat n <=? z)%Z) with true by (symmetry; apply Z.leb_le; lia).
    replace ((z <? 0)%Z) with true by (symmetry; apply Z.ltb_lt; lia).
    reflexivity.
  - apply Z.ltb_ge in E. split; [reflexivity | lia].
Qed.

Lemma forallb_map_in {A B} (q : B -> bool) (q' : A -> bool) (f : A -> B)
      (l : list A) :
  (forall a, In a l -> q (f a) = q' a) ->
  forallb q (map f l) = forallb q' l.
Proof.
  induction l as [|a l IH]; intros H; simpl; [reflexivity|].
  rewrite (H a (or_introl eq_refl)), IH; [reflexivity|].
  intros b Hb. apply H. now right.
Qed.

Lemma existsb_map_in {A B} (q : B -> bool) (q' : A -> bool) (f : A -> B)
      (l : list A) :
  (forall a, In a l -> q (f a) = q' a) ->
  existsb q (map f l) = existsb q' l.
Proof.
  induction l as [|a l IH]; intros H; simpl; [reflexivity|].
  rewrite (H a (or_introl eq_refl)), IH; [reflexivity|].
  intros b Hb. apply H. now right.
Qed.

(** X10.  Pair indices in [-N, 0) count from the end: when every index of
    [pos_indices] lies in [-N, N), [nt_bxent_loss] returns what it returns
    for the list in which each negative index [z] is replaced by [z + N],
    and that list has all its indices in [0, N). *)
Theorem bxent_loss_negative_indices (h h' : heap) (x x' pr pr' : ref)
        (xv : matrix) (p : list (Z * Z)) (t : R) :
  nth_error h x = Some (FloatT xv) ->
  nth_error h pr = Some (PairsT p) ->
  nth_error h' x' = Some (FloatT xv) ->
  nth_error h' pr' = Some (PairsT (pairs_from_end (length xv) p)) ->
  Forall (fun rc =>
            (- Z.of_nat (length xv) <= fst rc < Z.of_nat (length xv))%Z
            /\ (- Z.of_nat (length xv) <= snd rc < Z.of_nat (length xv))%Z) p ->
  fst (nt_bxent_loss x' pr' t h') = fst (nt_bxent_loss x pr t h)
  /\ in_range (length xv) (pairs_from_end (length xv) p).
Proof.
  intros Hx Hp Hx' Hp' Hall. set (n := length xv) in *.
  assert (Hadr : forall rc i j,
             In rc p ->
             addresses n (from_end n (fst rc), from_end n (snd rc)) i j
             = addresses n rc i j
             /\ valid_index n (from_end n (fst rc), from_end n (snd rc))
                = valid_index n rc).
  { intros rc i j Hin. rewrite Forall_forall in Hall.
    destruct (Hall rc Hin) as [Hr Hc].
    destruct (@wrap_from_end n _ Hr) as [Er _].
    destruct (@wrap_from_end n _ Hc) as [Ec _].
    unfold addresses, valid_index. simpl fst. simpl snd.
    now rewrite Er, Ec. }
  split.
  - rewrite (@nt_bxent_loss_run h x pr xv p t Hx Hp).
    rewrite (@nt_bxent_loss_run h' x' pr' xv (pairs_from_end n p) t Hx' Hp').
    simpl fst. fold n. apply bxent_value_positive; fold n.
    + unfold pairs_from_end. apply forallb_map_in. intros rc Hin.
      now destruct (Hadr rc 0%nat 0%nat Hin).
    + apply positive_hit. intros i j. unfold hit, pairs_from_end.
      apply existsb_map_in. intros rc Hin.
      now destruct (Hadr rc i j Hin).
  - unfold in_range, pairs_from_end. apply Forall_forall. intros rc Hin.
    apply in_map_iff in Hin. destruct Hin as (rc0 & <- & Hin0).
    rewrite Forall_forall in Hall. destruct (Hall rc0 Hin0) as [Hr Hc].
    simpl. split.
    + now destruct (@wrap_from_end n _ Hr).
    + now destruct (@wrap_from_end n _ Hc).
Qed.

Lemma bxent_loss_negative_indices_witness :
  fst (nt_bxent_loss 0 1 1 [FloatT batch3; PairsT [(0, 2); (2, 1)]%Z])
  = fst (nt_bxent_loss 0 1 1 [FloatT batch3; PairsT [(0, -1); (-1, 1)]%Z])
  /\ in_range 3 [(0, 2); (2, 1)]%Z.
Proof.
  apply (@bxent_loss_negative_indices
           [FloatT batch3; PairsT [(0, -1); (-1, 1)]%Z]
           [FloatT batch3; PairsT [(0, 2); (2, 1)]%Z]
           0 0 1 1 batch3 [(0, -1); (-1, 1)]%Z 1%R).
  - reflexivity.
  - reflexivity.
  - reflexivity.
  - reflexivity.
  - repeat constructor; simpl; lia.
Defined.

Lemma positive_diagonal (n : nat) (p : list (Z * Z)) (i : nat) :
  i < n -> positive n p i i = true.
Proof.
  intros Hi. rewrite positive_split by exact Hi.
  rewrite Nat.eqb_refl. apply orb_true_r.
Qed.

(** X11.  The diagonal needs no declaring: putting pairs [(z, z)] with
    [0 <= z < N] in front of [pos_indices] (the notebook's own list holds
    (0, 0) and (1, 1)) changes nothing in what [nt_bxent_loss] returns,
    since the function adds every diagonal pair itself. *)
Theorem bxent_loss_diagonal_pairs (h h' : heap) (x x' pr pr' : ref)
        (xv : matrix) (p d : list (Z * Z)) (t : R) :
  nth_error h x = Some (FloatT xv) ->
  nth_error h pr = Some (PairsT p) ->
  nth_error h' x' = Some (FloatT xv) ->
  nth_error h' pr' = Some (PairsT (d ++ p)) ->
  Forall (fun rc => fst rc = snd rc
                    /\ (0 <= fst rc < Z.of_nat (length xv))%Z) d ->
  fst (nt_bxent_loss x' pr' t h') = fst (nt_bxent_loss x pr t h).
Proof.
  intros Hx Hp Hx' Hp' Hd.
  rewrite (@nt_bxent_loss_run h x pr xv p t Hx Hp).
  rewrite (@nt_bxent_loss_run h' x' pr' xv (d ++ p) t Hx' Hp').
  simpl fst. set (n := length xv) in *. rewrite Forall_forall in Hd.
  apply bxent_value_positive; fold n.
  - rewrite forallb_app.
    replace (forallb (valid_index n) d) with true; [reflexivity|].
    symmetry. apply forallb_forall. intros [r c] Hin.
    destruct (Hd _ Hin) as [E Hr]. simpl in E, Hr. subst c.
    unfold valid_index. simpl. now rewrite wrap_in_range.
  - intros i j. unfold positive, all_pairs, cat, hit.
    rewrite <- app_assoc, existsb_app.
    destruct (existsb (fun rc => addresses n rc i j) d) eqn:E; [|reflexivity].
    apply existsb_exists in E. destruct E as ([r c] & Hin & Hadr).
    destruct (Hd _ Hin) as [E Hr]. simpl in E, Hr. subst c.
    unfold addresses in Hadr. simpl in Hadr.
    rewrite wrap_in_range in Hadr by exact Hr.
    apply andb_prop in Hadr. destruct Hadr as [H1 H2].
    apply Nat.eqb_eq in H1. apply Nat.eqb_eq in H2. subst i j.
    simpl. symmetry.
    apply (@positive_diagonal n p (Z.to_nat r)). lia.
Qed.

Lemma bxent_loss_diagonal_pairs_witness :
  fst (nt_bxent_loss 0 1 1
         [FloatT batch3; PairsT ([(0, 0); (1, 1)] ++ [(0, 2)])%Z])
  = fst (nt_bxent_loss 0 1 1 [FloatT batch3; PairsT [(0, 2)]%Z]).
Proof.
  apply (@bxent_loss_diagonal_pairs
           [FloatT batch3; PairsT [(0, 2)]%Z]
           [FloatT batch3; PairsT ([(0, 0); (1, 1)] ++ [(0, 2)])%Z]
           0 0 1 1 batch3 [(0, 2)]%Z [(0, 0); (1, 1)]%Z 1%R).
  - reflexivity.
  - reflexivity.
  - reflexivity.
  - reflexivity.
  - repeat constructor; simpl; lia.
Defined.

(** X12.  A batch of fewer than two vectors has no negatives: for a
    real-valued batch that is empty or holds one vector, in-range pairs and
    a temperature other than 0, [nt_bxent_loss] raises nothing and returns
    NaN. *)
Theorem bxent_loss_small_batch (h : heap) (x pr : ref)
        (xr : list (list R)) (p : list (Z * Z)) (t : R) :
  nth_error h x = Some (FloatT (of_reals xr)) ->
  nth_error h pr = Some (PairsT p) ->
  length xr < 2 ->
  in_range (length xr) p ->
  t <> 0%R ->
  fst (nt_bxent_loss x pr t h) = inr NaN.
Proof.
  intros Hx Hpr Hn Hp Ht.
  rewrite (@nt_bxent_loss_run h x pr (of_reals xr) p t Hx Hpr). simpl fst.
  destruct xr as [|u [|u' xr]]; simpl in Hn; try lia.
  - rewrite bxent_value_clamped by assumption.
    unfold clamped_bxent_loss, mean, fsum. simpl.
    destruct (Req_EM_T 0 0) as [_|H]; [|congruence].
    unfold by_sign. destruct (Rlt_dec 0 0) as [H|_]; [lra | reflexivity].
  - apply (@bxent_value_saturated [u] p t 0); try assumption.
    + simpl. lia.
    + intros j Hj. simpl in Hj. assert (j = 0) by lia. subst j.
      apply spec_positive_diagonal.
Qed.

Lemma bxent_loss_small_batch_witness :
  fst (nt_bxent_loss 0 1 1 [FloatT (of_reals [[3; 4]]%R); PairsT [(0, 0)]%Z])
  = inr NaN.
Proof.
  apply (@bxent_loss_small_batch
           [FloatT (of_reals [[3; 4]]%R); PairsT [(0, 0)]%Z] 0 1
           [[3; 4]]%R [(0, 0)]%Z 1%R).
  - reflexivity.
  - reflexivity.
  - simpl. lia.
  - repeat constructor; simpl; lia.
  - lra.
Defined.

(* ===================================================================== *)
(** ** The batch sizes [nt_xent_loss] accepts *)
(* ===================================================================== *)

(** X13.  [nt_xent_loss] returns a loss for batches of exactly eight
    vectors: on a real-valued batch of eight and a temperature [t > 0] it
    returns the mean over the rows [i] of
    [-log(exp(L[i, partner i]) / sum_j exp(L[i, j]))] for the logits
    [L = M / t] with [-inf] on the diagonal; on a batch of any other size
    (the empty batch included) it raises [ValueError], whatever the
    temperature. *)
Theorem xent_loss_batch_sizes (h : heap) (x : ref) (xr : list (list R)) (t : R) :
  nth_error h x = Some (FloatT (of_reals xr)) ->
  (length xr = 8 -> (0 < t)%R ->
   fst (nt_xent_loss x t h) = inr (spec_nt_xent_loss (of_reals xr) t))
  /\ (length xr <> 8 -> fst (nt_xent_loss x t h) = inl ValueError).
Proof.
  intros Hx. split.
  - intros Hn Ht. now apply nt_xent_loss_of_eight.
  - intros Hn. apply (@nt_xent_loss_batch_size h x (of_reals xr) t Hx).
    now rewrite length_of_reals.
Qed.

Lemma xent_loss_batch_sizes_witness :
  fst (nt_xent_loss 0 1 [FloatT batch8])
  = inr (spec_nt_xent_loss batch8 1)
  /\ fst (nt_xent_loss 0 1 [FloatT (of_reals [])]) = inl ValueError.
Proof.
  split.
  - apply (@xent_loss_batch_sizes [FloatT batch8] 0
             [[1; 0]; [1; 1]; [0; 1]; [2; 1]; [1; 2]; [3; 1]; [1; 3]; [2; 3]]%R
             1%R eq_refl); [reflexivity | lra].
  - apply (@xent_loss_batch_sizes [FloatT (of_reals [])] 0 [] 1%R eq_refl).
    simpl. lia.
Defined.

(* ===================================================================== *)
(** ** The step-by-step cells against the two functions *)
(* ===================================================================== *)

Lemma fdiv_one (a : scalar) : fdiv a (Fin 1) = a.
Proof.
  destruct a as [r| | |]; simpl; try reflexivity.
  - destruct (Req_EM_T 1 0) as [H|_]; [lra|]. f_equal. field.
  - destruct (Rlt_dec 1 0) as [H|_]; [lra | reflexivity].
  - destruct (Rlt_dec 1 0) as [H|_]; [lra | reflexivity].
Qed.

Lemma div_scalar_one (m : matrix) : div_scalar m 1 = m.
Proof.
  unfold div_scalar. rewrite <- (map_id m) at 2. apply map_ext. intros row.
  rewrite <- (map_id row) at 2. apply map_ext. intros a. apply fdiv_one.
Qed.

Lemma nth_error_first_of_four (h : heap) (a b c d : tensor) :
  nth_error ((((h ++ [a]) ++ [b]) ++ [c]) ++ [d]) (length h) = Some a.
Proof.
  rewrite <- !app_assoc. simpl. rewrite nth_error_app2 by lia.
  now rewrite Nat.sub_diag.
Qed.

Lemma clone_last (h : heap) (c : tensor) :
  clone (length h) (h ++ [c]) = (inr (length (h ++ [c])), (h ++ [c]) ++ [c]).
Proof. unfold clone, bind. now rewrite load_last. Qed.

Lemma notebook_run (h : heap) (x : ref) (xr : list (list R)) :
  nth_error h x = Some (FloatT (of_reals xr)) ->
  length xr = 8 ->
  exists v1 v2,
    xent_value (of_reals xr) 1 = inr v1
    /\ bxent_value (of_reals xr) notebook_pos_indices (1 / 10) = inr v2
    /\ notebook x h
       = (inr (v1, v2),
          h ++ [FloatT (similarity (of_reals xr));
                FloatT (with_diagonal NInf (of_reals xr));
                LongV xent_target;
                FloatT (bxent_target (length (of_reals xr)) notebook_pos_indices);
                FloatT (with_diagonal PInf (of_reals xr))]).
Proof.
  intros Hx Hn. set (xv := of_reals xr) in *.
  assert (Hn' : length xv = 8) by (unfold xv; now rewrite length_of_reals).
  assert (Ht : (1 / 10 <> 0)%R) by lra.
  assert (Hvalid : forallb (valid_index (length xv)) notebook_pos_indices = true)
    by (rewrite Hn'; reflexivity).
  assert (Hunit : forallb (forallb in_unit)
                    (tabulate (length xv) (length xv) (bxent_prob xv (1 / 10)))
                  = true) by (apply probs_in_unit; exact Ht).
  destruct (masked_select_scatter (length xv) (length xv) (fun _ _ => Fin 0)
              (bxent_bce xv notebook_pos_indices (1 / 10))
              (positive (length xv) notebook_pos_indices))
    as (sp & Hsp1 & Hsp2).
  destruct (masked_select_scatter (length xv) (length xv) (fun _ _ => Fin 0)
              (bxent_bce xv notebook_pos_indices (1 / 10))
              (fun i j => negb (positive (length xv) notebook_pos_indices i j)))
    as (sn & Hsn1 & Hsn2).
  pose proof (@xent_value_8 xv 1 Hn') as Hv1.
  remember (mean (map (fun i => fneg (nth (Z.to_nat (nth i xent_target 0%Z))
                                          (log_softmax (xent_logits xv 1 i))
                                          NaN))
                      (seq 0 8))) as v1 eqn:Ev1.
  clear Ev1.
  assert (Hce : cross_entropy (with_diagonal NInf xv) xent_target = inr v1).
  { rewrite <- Hv1. unfold xent_value. now rewrite div_scalar_one. }
  exists v1. eexists. split; [exact Hv1|].
  split.
  { unfold bxent_value. cbv zeta. rewrite Hvalid, Hunit. reflexivity. }
  unfold notebook. cbv zeta.
  set (labels := LongV (arange 8)). rewrite <- Hn'. subst labels.
  run_step ltac:(apply (load_float_ok _ _ Hx)).
  run_step ltac:(unfold lift; rewrite cosine_similarity_unsqueeze; reflexivity).
  run_step ltac:(reflexivity).
  run_step ltac:(apply clone_last).
  run_step ltac:(rewrite setitem_mask_last, masked_fill_similarity; reflexivity).
  run_step ltac:(reflexivity).
  run_step ltac:(apply iadd_slice_last).
  run_step ltac:(apply isub_slice_last).
  run_step ltac:(apply load_float_ok; apply nth_error_before_last).
  run_step ltac:(apply load_long_ok; apply nth_error_last).
  run_step ltac:(unfold lift; fold xent_target; rewrite Hce; reflexivity).
  run_step ltac:(reflexivity).
  run_step ltac:(fold (all_pairs (length xv) notebook_pos_indices);
                 rewrite setitem_index_last, index_put_target,
                   valid_all_pairs, Hvalid,
                   (written_target_valid _ _ Hvalid);
                 cbv beta iota delta [fst snd]; reflexivity).
  run_step ltac:(unfold clone, bind, load;
                 rewrite nth_error_first_of_four; reflexivity).
  run_step ltac:(rewrite setitem_mask_last, masked_fill_similarity; reflexivity).
  run_step ltac:(apply load_float_ok; apply nth_error_last).
  run_step ltac:(apply load_float_ok; apply nth_error_before_last).
  run_step ltac:(unfold lift; rewrite bxent_probs_tabulate;
                 unfold bxent_target;
                 rewrite binary_cross_entropy_tabulate, Hunit; reflexivity).
  fold (bxent_target (length xv) notebook_pos_indices). rewrite bool_target.
  change (tabulate (length xv) (length xv)
            (fun i j => bce (bxent_prob xv (1 / 10) i j)
                            (if positive (length xv) notebook_pos_indices i j
                             then Fin 1 else Fin 0)))
    with (tabulate (length xv) (length xv)
            (bxent_bce xv notebook_pos_indices (1 / 10))).
  rewrite zeros_tabulate.
  run_step ltac:(unfold lift; rewrite Hsp1; reflexivity).
  run_step ltac:(unfold lift; rewrite Hsp2; reflexivity).
  run_step ltac:(unfold lift, logical_not; rewrite map_tabulate, Hsn1;
                 reflexivity).
  run_step ltac:(unfold lift, logical_not; rewrite map_tabulate, Hsn2;
                 reflexivity).
  unfold ret. rewrite <- !app_assoc. simpl app. f_equal. f_equal. f_equal.
  f_equal.
  replace (length (bxent_target (length xv) notebook_pos_indices))
    with (length xv) by (unfold bxent_target; now rewrite length_tabulate).
  unfold vadd, vdiv, rsub_scalar, sum_dim1, bxent_target, tabulate.
  rewrite !map_map, !zip_with_map_seq. reflexivity.
Qed.

(** X14.  On a real-valued batch of eight vectors the step-by-step cells
    compute exactly what the two functions compute: the first loss is the
    result of [nt_xent_loss(x, 1.0)], the second the result of
    [nt_bxent_loss(x, pos_indices, 0.1)] on the positive pairs of the
    notebook; both are values, no step raises.  The in-place assignments
    [y[eye.bool()] = ...] write to clones: the tensor [xcs] still holds the
    cosine similarities at the end. *)
Theorem notebook_matches_functions (h : heap) (x pr : ref)
      (xr : list (list R)) :
  nth_error h x = Some (FloatT (of_reals xr)) ->
  nth_error h pr = Some (PairsT notebook_pos_indices) ->
  length xr = 8 ->
  fst (notebook x h)
  = both (fst (nt_xent_loss x 1 h)) (fst (nt_bxent_loss x pr (1 / 10) h))
  /\ (exists v, fst (notebook x h) = inr v)
  /\ nth_error (snd (notebook x h)) (length h)
     = Some (FloatT (similarity (of_reals xr))).
Proof.
  intros Hx Hp Hn.
  destruct (@notebook_run h x xr Hx Hn) as (v1 & v2 & H1 & H2 & Hrun).
  rewrite Hrun.
  rewrite (@nt_xent_loss_run h x (of_reals xr) 1 Hx).
  rewrite (@nt_bxent_loss_run h x pr (of_reals xr) notebook_pos_indices
             (1 / 10) Hx Hp).
  simpl fst. simpl snd. rewrite H1, H2. split; [reflexivity|].
  split; [now exists (v1, v2)|].
  rewrite nth_error_app2 by lia. now rewrite Nat.sub_diag.
Qed.

Lemma notebook_matches_functions_witness :
  let h := [FloatT (of_reals [[1; 0]; [1; 1]; [0; 1]; [2; 1];
                              [1; 2]; [3; 1]; [1; 3]; [2; 3]]%R);
            PairsT notebook_pos_indices] in
  fst (notebook 0 h)
  = both (fst (nt_xent_loss 0 1 h)) (fst (nt_bxent_loss 0 1 (1 / 10) h))
  /\ (exists v, fst (notebook 0 h) = inr v)
  /\ nth_error (snd (notebook 0 h)) (length h)
     = Some (FloatT (similarity
                       (of_reals [[1; 0]; [1; 1]; [0; 1]; [2; 1];
                                  [1; 2]; [3; 1]; [1; 3]; [2; 3]]%R))).
Proof.
  intros h.
  apply (@notebook_matches_functions h 0 1
           [[1; 0]; [1; 1]; [0; 1]; [2; 1];
            [1; 2]; [3; 1]; [1; 3]; [2; 3]]%R).
  - reflexivity.
  - reflexivity.
  - reflexivity.
Defined.

(* ===================================================================== *)
(** ** The pairing steps on [torch.arange(n)] *)
(* ===================================================================== *)

Lemma length_slice_add_any (pos step : nat) (c : Z) (v : list Z) :
  length (slice_add pos step c v) = length v.
Proof.
  revert pos. induction v as [|a v IH]; intros pos; [reflexivity|].
  destruct pos; simpl; now rewrite IH.
Qed.

Lemma nth_slice_add_two (c : Z) (v : list Z) (i : nat) :
  i < length v ->
  nth i (slice_add 0 2 c v) 0%Z
  = (if Nat.even i then nth i v 0 + c else nth i v 0)%Z
  /\ nth i (slice_add 1 2 c v) 0%Z
     = (if Nat.odd i then nth i v 0 + c else nth i v 0)%Z.
Proof.
  revert i. induction v as [|a v IH]; intros i Hi; [simpl in Hi; lia|].
  destruct i as [|i].
  - split; reflexivity.
  - simpl in Hi. destruct (IH i ltac:(lia)) as [IH0 IH1].
    rewrite Nat.even_succ, Nat.odd_succ. split.
    + exact IH1.
    + exact IH0.
Qed.

Lemma nth_arange (n i : nat) :
  i < n -> nth i (arange n) 0%Z = Z.of_nat i.
Proof.
  intros Hi. unfold arange.
  change 0%Z with (Z.of_nat 0). rewrite map_nth, seq_nth by lia. reflexivity.
Qed.

Lemma nth_pair_target (n i : nat) :
  i < n -> nth i (pair_target n) 0%Z = partner i.
Proof.
  intros Hi. unfold pair_target, partner.
  assert (La : length (arange n) = n)
    by (unfold arange; now rewrite length_map, length_seq).
  destruct (@nth_slice_add_two (- (1)) (slice_add 0 2 1 (arange n)) i) as [_ H1];
    [rewrite length_slice_add_any; lia|].
  destruct (@nth_slice_add_two 1 (arange n) i) as [H0 _]; [lia|].
  rewrite H1, H0, nth_arange by exact Hi.
  rewrite <- Nat.negb_even. destruct (Nat.even i); simpl; lia.
Qed.

Lemma partner_in_even_batch (n i : nat) :
  Nat.even n = true -> i < n ->
  (0 <= partner i < Z.of_nat n)%Z
  /\ Z.to_nat (partner i) < n
  /\ partner (Z.to_nat (partner i)) = Z.of_nat i
  /\ partner i <> Z.of_nat i.
Proof.
  intros He Hi. apply Nat.even_spec in He. destruct He as [k Hk].
  unfold partner. destruct (Nat.even i) eqn:Ei.
  - apply Nat.even_spec in Ei. destruct Ei as [m Hm].
    replace (Z.to_nat (Z.of_nat i + 1)) with (S i) by lia.
    rewrite Nat.even_succ, <- Nat.negb_even.
    replace (Nat.even i) with true
      by (symmetry; apply Nat.even_spec; now exists m).
    change (negb true) with false. cbv iota. lia.
  - assert (Oi : Nat.odd i = true) by (rewrite <- Nat.negb_even, Ei; reflexivity).
    apply Nat.odd_spec in Oi. destruct Oi as [m Hm].
    replace (Z.to_nat (Z.of_nat i - 1)) with (2 * m) by lia.
    replace (Nat.even (2 * m)) with true
      by (symmetry; apply Nat.even_spec; now exists m).
    lia.
Qed.

Lemma length_pair_target (n : nat) : length (pair_target n) = n.
Proof.
  unfold pair_target, arange.
  now rewrite !length_slice_add_any, length_map, length_seq.
Qed.

Lemma in_combine_pair_target (n : nat) (input : matrix) (p : list scalar * Z) :
  length input = n ->
  Forall (fun row => length row = n) input ->
  In p (combine input (pair_target n)) ->
  exists i, i < n /\ length (fst p) = n /\ snd p = partner i.
Proof.
  intros Hl Hrows Hin.
  destruct (In_nth _ _ (@nil scalar, 0%Z) Hin) as (i & Hi & Hp).
  rewrite length_combine, length_pair_target, Hl, Nat.min_id in Hi.
  rewrite combine_nth in Hp by (now rewrite length_pair_target).
  exists i. split; [exact Hi|]. rewrite <- Hp. simpl. split.
  - rewrite Forall_forall in Hrows. apply Hrows. apply nth_In. lia.
  - now apply nth_pair_target.
Qed.

(** X15.  The steps [target[0::2] += 1; target[1::2] -= 1] on
    [torch.arange(n)] give a vector of [n] labels whose entry [i] is [i + 1]
    for even [i] and [i - 1] for odd [i].  For an even [n] every label is a
    class index in [0, n), differs from its own position, and the labelling
    pairs the positions (the label of the label of [i] is [i]);
    [F.cross_entropy] of any [n] by [n] matrix with these labels returns a
    value.  For an odd [n] the last label is [n], and [F.cross_entropy] of
    any [n] by [n] matrix with these labels raises [IndexError].  The target
    of [nt_xent_loss] is the case [n = 8]. *)
Theorem pair_target_pairs (n : nat) (input : matrix) :
  length input = n ->
  Forall (fun row => length row = n) input ->
  length (pair_target n) = n
  /\ (forall i, i < n -> nth i (pair_target n) 0%Z = partner i)
  /\ (Nat.even n = true ->
      (forall i, i < n ->
         (0 <= nth i (pair_target n) 0 < Z.of_nat n)%Z
         /\ nth i (pair_target n) 0%Z <> Z.of_nat i
         /\ nth (Z.to_nat (nth i (pair_target n) 0%Z)) (pair_target n) 0%Z
            = Z.of_nat i)
      /\ exists v, cross_entropy input (pair_target n) = inr v)
  /\ (Nat.odd n = true ->
      nth (n - 1) (pair_target n) 0%Z = Z.of_nat n
      /\ cross_entropy input (pair_target n) = inl IndexError)
  /\ xent_target = pair_target 8.
Proof.
  intros Hl Hrows.
  split; [apply length_pair_target|].
  split; [intros i Hi; now apply nth_pair_target|].
  assert (Hlen : (length input =? length (pair_target n)) = true)
    by (rewrite length_pair_target; now apply Nat.eqb_eq).
  split.
  { intros He. split.
    - intros i Hi.
      destruct (@partner_in_even_batch n i He Hi) as (Hr & Hlt & Hinv & Hne).
      rewrite (nth_pair_target Hi).
      split; [exact Hr|]. split; [exact Hne|].
      rewrite (nth_pair_target Hlt). exact Hinv.
    - unfold cross_entropy. rewrite Hlen. simpl negb.
      replace (forallb (fun p => target_ok (fst p) (snd p))
                 (combine input (pair_target n))) with true.
      + simpl. eexists. reflexivity.
      + symmetry. apply forallb_forall. intros p Hin.
        destruct (@in_combine_pair_target n input p Hl Hrows Hin) as (i & Hi & Hrow & Hp).
        destruct (@partner_in_even_batch n i He Hi) as (Hr & _).
        unfold target_ok. rewrite Hrow, Hp.
        apply andb_true_intro. split; [apply Z.leb_le | apply Z.ltb_lt]; lia. }
  split; [|reflexivity].
  intros Ho.
  assert (Hpos : 0 < n) by (destruct n; [discriminate Ho | lia]).
  assert (Hlast : nth (n - 1) (pair_target n) 0%Z = Z.of_nat n).
  { rewrite nth_pair_target by lia. unfold partner.
    replace (Nat.even (n - 1)) with true; [lia|].
    symmetry. destruct n as [|m]; [lia|].
    replace (S m - 1) with m by lia.
    rewrite Nat.odd_succ in Ho. exact Ho. }
  split; [exact Hlast|].
  unfold cross_entropy. rewrite Hlen. simpl negb.
  destruct (forallb _ (combine input (pair_target n))) eqn:Hall; [|reflexivity].
  exfalso. rewrite forallb_forall in Hall.
  assert (Hin : In (nth (n - 1) input [], nth (n - 1) (pair_target n) 0%Z)
                   (combine input (pair_target n))).
  { rewrite <- combine_nth by (now rewrite length_pair_target).
    apply nth_In. rewrite length_combine, length_pair_target, Hl. lia. }
  specialize (Hall _ Hin). simpl in Hall. rewrite Hlast in Hall.
  unfold target_ok in Hall.
  apply andb_prop in Hall. destruct Hall as [_ Hall].
  apply Z.ltb_lt in Hall.
  assert (Hrow : length (nth (n - 1) input []) = n).
  { rewrite Forall_forall in Hrows. apply Hrows. apply nth_In. lia. }
  lia.
Qed.

Lemma pair_target_pairs_witness :
  length (pair_target 3) = 3
  /\ nth (3 - 1) (pair_target 3) 0%Z = Z.of_nat 3
  /\ cross_entropy (zeros 3 3) (pair_target 3) = inl IndexError
  /\ (forall i, i < 2 ->
         (0 <= nth i (pair_target 2) 0 < Z.of_nat 2)%Z
         /\ nth i (pair_target 2) 0%Z <> Z.of_nat i
         /\ nth (Z.to_nat (nth i (pair_target 2) 0%Z)) (pair_target 2) 0%Z
            = Z.of_nat i)
  /\ exists v, cross_entropy (zeros 2 2) (pair_target 2) = inr v.
Proof.
  assert (S3 : Forall (fun row : list scalar => length row = 3) (zeros 3 3))
    by (repeat constructor).
  assert (S2 : Forall (fun row : list scalar => length row = 2) (zeros 2 2))
    by (repeat constructor).
  destruct (@pair_target_pairs 3 (zeros 3 3) eq_refl S3)
    as (H1 & _ & _ & H4 & _).
  destruct (@pair_target_pairs 2 (zeros 2 2) eq_refl S2)
    as (_ & _ & H3 & _).
  split; [exact H1|].
  split; [exact (proj1 (H4 eq_refl))|].
  split; [exact (proj2 (H4 eq_refl))|].
  exact (H3 eq_refl).
Defined.

(* ===================================================================== *)
(** ** NT-BXent against the formula of the specification *)
(* ===================================================================== *)

Section ClassBalanced.

Local Open Scope R_scope.

Lemma exp_100_bound (y : R) : y <= 99 -> 1 + exp y <= exp 100.
Proof.
  intros Hy.
  assert (H1 : exp y <= exp 99) by now apply exp_le.
  assert (H2 : 1 <= exp 99) by (rewrite <- exp_0; apply exp_le; lra).
  assert (H3 : 2 <= exp 1).
  { pose proof (exp_ineq1 1) as H. assert (N : 1 <> 0) by lra.
    specialize (H N). lra. }
  replace 100 with (1 + 99) by lra. rewrite exp_plus. nra.
Qed.

Lemma spec_sigmoid_unit (x : R) : 0 < spec_sigmoid x < 1.
Proof.
  unfold spec_sigmoid. pose proof (exp_pos (- x)) as He.
  assert (Hq : 0 < / (1 + exp (- x))) by (apply Rinv_0_lt_compat; lra).
  assert (Hm : / (1 + exp (- x)) * (1 + exp (- x)) = 1)
    by (apply Rinv_l; lra).
  unfold Rdiv. rewrite Rmult_1_l. split; [exact Hq | nra].
Qed.

Lemma spec_sigmoid_complement (x : R) : 1 - spec_sigmoid x = spec_sigmoid (- x).
Proof.
  unfold spec_sigmoid. rewrite Ropp_involutive, exp_Ropp.
  pose proof (exp_pos x) as He. field. split; lra.
Qed.

Lemma ln_spec_sigmoid (x : R) : ln (spec_sigmoid x) = - ln (1 + exp (- x)).
Proof.
  unfold spec_sigmoid. pose proof (exp_pos (- x)) as He.
  unfold Rdiv. rewrite Rmult_1_l. apply ln_Rinv. lra.
Qed.

Lemma spec_sigmoid_logs (x : R) :
  -99 <= x <= 99 ->
  -100 <= ln (spec_sigmoid x) /\ -100 <= ln (1 - spec_sigmoid x).
Proof.
  intros [Hl Hu].
  assert (B : forall y, y <= 99 -> ln (1 + exp y) <= 100).
  { intros y Hy. rewrite <- (ln_exp 100). apply ln_le.
    - pose proof (exp_pos y). lra.
    - now apply exp_100_bound. }
  rewrite spec_sigmoid_complement, !ln_spec_sigmoid, Ropp_involutive.
  split.
  - pose proof (B (- x) ltac:(lra)). lra.
  - pose proof (B x ltac:(lra)). lra.
Qed.

Lemma inverse_temperature (t : R) : 1 / 10 <= t -> 0 < t /\ 1 / t <= 10.
Proof.
  intros Ht. assert (H0 : 0 < t) by lra. split; [exact H0|].
  apply (Rmult_le_reg_r t); [exact H0|].
  unfold Rdiv. rewrite Rmult_assoc, Rinv_l by lra. lra.
Qed.

(** From the temperature 1/10 upwards the scaled similarities lie within
    [-10, 10], no logarithm reaches the clamp, and PyTorch's term is the
    term of the specification. *)
Lemma clamped_bce_textbook (xr : list (list R)) (p : list (Z * Z)) (t : R)
      (i j : nat) :
  (i < length xr)%nat -> (j < length xr)%nat -> 1 / 10 <= t ->
  clamped_bce (of_reals xr) p t i j = Fin (spec_bce xr p t i j).
Proof.
  intros Hi Hj Ht. destruct (inverse_temperature Ht) as [H0 H10].
  unfold spec_bce, spec_probability, spec_label.
  destruct (Nat.eqb i j) eqn:E.
  - apply Nat.eqb_eq in E. subst j.
    rewrite clamped_bce_diagonal by exact H0.
    rewrite spec_positive_diagonal. f_equal. rewrite ln_1. ring.
  - unfold clamped_bce. cbv zeta. rewrite E.
    rewrite (@similarity_reals xr j i), fdiv_Fin by lra.
    change (sigmoid (Fin (rcos (nth i xr []) (nth j xr []) / t)))
      with (Fin (spec_sigmoid (rcos (nth i xr []) (nth j xr []) / t))).
    pose proof (@scaled_similarity_range (nth i xr []) (nth j xr []) t H0)
      as [Hl Hu].
    destruct (@spec_sigmoid_logs (rcos (nth i xr []) (nth j xr []) / t))
      as [L1 L2]; [lra|].
    pose proof (spec_sigmoid_unit (rcos (nth i xr []) (nth j xr []) / t)) as Hq.
    destruct (spec_positive p i j); now rewrite bce_textbook.
Qed.

Lemma clamped_row_loss_textbook (xr : list (list R)) (p : list (Z * Z))
      (t : R) (i : nat) :
  (i < length xr)%nat ->
  (exists j, (j < length xr)%nat /\ spec_positive p i j = false) ->
  1 / 10 <= t ->
  clamped_row_loss (of_reals xr) p t i = Fin (spec_row_loss xr p t i).
Proof.
  intros Hi (j & Hj & Hneg) Ht.
  unfold clamped_row_loss, spec_row_loss. cbv zeta.
  rewrite length_of_reals.
  assert (Hpos : (1 <= length (positive_columns (length xr) p i))%nat).
  { apply (length_In i). apply filter_In. split.
    - apply in_seq. lia.
    - apply spec_positive_diagonal. }
  assert (Hnegs : (1 <= length (negative_columns (length xr) p i))%nat).
  { apply (length_In j). apply filter_In. split.
    - apply in_seq. lia.
    - now rewrite Hneg. }
  pose proof (filter_negb_length (spec_positive p i) (seq 0 (length xr)))
    as Hsum.
  rewrite length_seq in Hsum.
  fold (positive_columns (length xr) p i) in Hsum.
  fold (negative_columns (length xr) p i) in Hsum.
  assert (E : forall cols : list nat,
             (forall c, In c cols -> (c < length xr)%nat) ->
             map (clamped_bce (of_reals xr) p t i) cols
             = map (fun c => Fin (spec_bce xr p t i c)) cols).
  { intros cols Hcols. apply map_ext_in. intros c Hc.
    apply clamped_bce_textbook; [exact Hi | now apply Hcols | exact Ht]. }
  rewrite !E, !fsum_Fin_map.
  - rewrite !fdiv_Fin by (apply not_0_INR; lia).
    simpl fadd. rewrite minus_INR by lia. reflexivity.
  - intros c Hc. apply filter_In in Hc. destruct Hc as [Hc _].
    apply in_seq in Hc. lia.
  - intros c Hc. apply filter_In in Hc. destruct Hc as [Hc _].
    apply in_seq in Hc. lia.
Qed.

Lemma clamped_bxent_loss_textbook (xr : list (list R)) (p : list (Z * Z))
      (t : R) :
  (1 <= length xr)%nat ->
  (forall i, (i < length xr)%nat ->
             exists j, (j < length xr)%nat /\ spec_positive p i j = false) ->
  1 / 10 <= t ->
  clamped_bxent_loss (of_reals xr) p t = Fin (spec_nt_bxent_loss xr p t).
Proof.
  intros Hn Hneg Ht. unfold clamped_bxent_loss, spec_nt_bxent_loss, mean.
  rewrite length_of_reals, length_map, length_seq.
  replace (map (clamped_row_loss (of_reals xr) p t) (seq 0 (length xr)))
    with (map (fun i => Fin (spec_row_loss xr p t i)) (seq 0 (length xr))).
  - rewrite fsum_Fin_map. apply fdiv_Fin. apply not_0_INR. lia.
  - apply map_ext_in. intros i Hi. apply in_seq in Hi. symmetry.
    apply clamped_row_loss_textbook; [lia | apply Hneg; lia | exact Ht].
Qed.

End ClassBalanced.

Lemma bxent_value_bounded (xr : list (list R)) (p : list (Z * Z)) (t : R) :
  1 <= length xr ->
  in_range (length xr) p ->
  (forall i, i < length xr ->
             exists j, j < length xr /\ spec_positive p i j = false) ->
  t <> 0%R ->
  exists r, bxent_value (of_reals xr) p t = inr (Fin r) /\ (0 <= r <= 200)%R.
Proof.
  intros Hn Hp Hneg Ht.
  rewrite bxent_value_clamped by assumption.
  unfold clamped_bxent_loss. rewrite length_of_reals.
  destruct (@mean_bounded 200%R
              (map (clamped_row_loss (of_reals xr) p t) (seq 0 (length xr))))
    as (r & Er & Hr).
  - intros b Hb. apply in_map_iff in Hb. destruct Hb as (i & <- & Hi).
    apply in_seq in Hi. apply clamped_row_loss_bounded; [exact Ht | lia |].
    apply Hneg. lia.
  - rewrite length_map, length_seq. exact Hn.
  - exists r. now rewrite Er.
Qed.

Section Formula.

Local Open Scope R_scope.

Lemma spec_bce_nonneg (xr : list (list R)) (p : list (Z * Z)) (t : R)
      (i j : nat) :
  0 <= spec_bce xr p t i j.
Proof.
  unfold spec_bce, spec_probability, spec_label, spec_positive.
  destruct (Nat.eqb i j).
  - simpl orb. cbv iota. rewrite ln_1. lra.
  - simpl orb.
    pose proof (spec_sigmoid_unit (rcos (nth i xr []) (nth j xr []) / t))
      as [Hq0 Hq1].
    set (q := spec_sigmoid (rcos (nth i xr []) (nth j xr []) / t)) in *.
    assert (L1 : ln q <= 0) by (rewrite <- ln_1; apply ln_le; lra).
    assert (L2 : ln (1 - q) <= 0) by (rewrite <- ln_1; apply ln_le; lra).
    destruct (existsb _ p); lra.
Qed.

Lemma div_nonneg (a b : R) : 0 <= a -> 0 <= b -> 0 <= a / b.
Proof.
  intros Ha [Hb | <-].
  - apply Rmult_le_pos; [exact Ha|]. left. now apply Rinv_0_lt_compat.
  - unfold Rdiv. rewrite Rinv_0. lra.
Qed.

Lemma rsum_map_nonneg {A} (f : A -> R) (l : list A) :
  (forall a, 0 <= f a) -> 0 <= rsum (map f l).
Proof.
  intros H. apply rsum_nonneg. intros b Hb. apply in_map_iff in Hb.
  destruct Hb as (a & <- & _). apply H.
Qed.

Lemma spec_row_loss_parts (xr : list (list R)) (p : list (Z * Z)) (t : R)
      (i : nat) :
  0 <= rsum (map (spec_bce xr p t i) (positive_columns (length xr) p i))
       / INR (length (positive_columns (length xr) p i))
  /\ rsum (map (spec_bce xr p t i) (positive_columns (length xr) p i))
     / INR (length (positive_columns (length xr) p i))
     <= spec_row_loss xr p t i.
Proof.
  assert (Hk : (length (positive_columns (length xr) p i) <= length xr)%nat).
  { unfold positive_columns.
    pose proof (filter_length_le (spec_positive p i) (seq 0 (length xr)))
      as H.
    now rewrite length_seq in H. }
  assert (H1 : 0 <= rsum (map (spec_bce xr p t i)
                            (positive_columns (length xr) p i))
                    / INR (length (positive_columns (length xr) p i))).
  { apply div_nonneg; [|apply pos_INR].
    apply rsum_map_nonneg. intros j. apply spec_bce_nonneg. }
  assert (H2 : 0 <= rsum (map (spec_bce xr p t i)
                            (negative_columns (length xr) p i))
                    / (INR (length xr)
                       - INR (length (positive_columns (length xr) p i)))).
  { apply div_nonneg.
    - apply rsum_map_nonneg. intros j. apply spec_bce_nonneg.
    - apply le_INR in Hk. lra. }
  split; [exact H1|]. unfold spec_row_loss. cbv zeta. lra.
Qed.

Lemma spec_nt_bxent_loss_ge_row (xr : list (list R)) (p : list (Z * Z))
      (t : R) (i : nat) :
  (i < length xr)%nat ->
  spec_row_loss xr p t i / INR (length xr) <= spec_nt_bxent_loss xr p t.
Proof.
  intros Hi. unfold spec_nt_bxent_loss.
  assert (Hn : 0 < INR (length xr)) by (apply lt_0_INR; lia).
  assert (Hrow : spec_row_loss xr p t i
                 <= rsum (map (spec_row_loss xr p t) (seq 0 (length xr)))).
  { apply rsum_ge_member.
    - intros c Hc. apply in_map_iff in Hc. destruct Hc as (k & <- & _).
      destruct (spec_row_loss_parts xr p t k). lra.
    - apply in_map. apply in_seq. lia. }
  unfold Rdiv. apply Rmult_le_compat_r; [|exact Hrow].
  left. now apply Rinv_0_lt_compat.
Qed.

End Formula.

(** C2.  For every real-valued batch of [N >= 2] vectors, every in-range
    set of positive pairs that leaves each row a negative column, and every
    temperature [t >= 1/10], [nt_bxent_loss] returns the arithmetic mean
    over the rows [i] of

      (sum of bce[i,j] over the positive columns) / num_pos_i
      + (sum of bce[i,j] over the negative columns) / num_neg_i,

    where [bce[i,j] = -(T[i,j] log P[i,j] + (1 - T[i,j]) log(1 - P[i,j]))]
    is the binary cross entropy of [P = sigmoid(M / t)] against the target
    matrix [T].  The [inf] on the diagonal of [M] makes the diagonal entry
    of the tensor [loss] zero, as is the diagonal term of the formula.
    From the temperature 1/10 upwards the scaled similarities lie within
    [-10, 10], where [F.binary_cross_entropy] does not clamp a logarithm;
    for small temperatures the equation fails. *)
Theorem bxent_loss_class_balanced (h : heap) (x pr : ref)
        (xr : list (list R)) (p : list (Z * Z)) (t : R) :
  nth_error h x = Some (FloatT (of_reals xr)) ->
  nth_error h pr = Some (PairsT p) ->
  2 <= length xr ->
  in_range (length xr) p ->
  (forall i, i < length xr ->
             exists j, j < length xr /\ spec_positive p i j = false) ->
  (1 / 10 <= t)%R ->
  fst (nt_bxent_loss x pr t h) = inr (Fin (spec_nt_bxent_loss xr p t))
  /\ (forall i, i < length xr ->
        bxent_bce (of_reals xr) p t i i = Fin 0
        /\ spec_bce xr p t i i = 0%R).
Proof.
  intros Hx Hpr Hn Hp Hneg Ht.
  destruct (inverse_temperature Ht) as [H0 _].
  assert (Ht0 : t <> 0%R) by lra.
  split.
  - rewrite (@nt_bxent_loss_run h x pr (of_reals xr) p t Hx Hpr). simpl fst.
    rewrite bxent_value_clamped by assumption. f_equal.
    apply clamped_bxent_loss_textbook; [lia | exact Hneg | exact Ht].
  - intros i Hi.
    assert (E : bxent_bce (of_reals xr) p t i i = Fin 0).
    { rewrite bxent_bce_clamped
        by (rewrite length_of_reals; assumption).
      now apply clamped_bce_diagonal. }
    split; [exact E|].
    rewrite bxent_bce_clamped in E by (rewrite length_of_reals; assumption).
    rewrite clamped_bce_textbook in E by assumption.
    now injection E.
Qed.

Lemma bxent_loss_class_balanced_witness :
  fst (nt_bxent_loss 0 1 1 [FloatT batch3; PairsT [(0, 1); (2, 0)]%Z])
  = inr (Fin (spec_nt_bxent_loss [[1; 0]; [1; 1]; [0; 1]]%R
                [(0, 1); (2, 0)]%Z 1))
  /\ (forall i, i < 3 ->
        bxent_bce batch3 [(0, 1); (2, 0)]%Z 1 i i = Fin 0
        /\ spec_bce [[1; 0]; [1; 1]; [0; 1]]%R [(0, 1); (2, 0)]%Z 1 i i = 0%R).
Proof.
  apply (@bxent_loss_class_balanced
           [FloatT batch3; PairsT [(0, 1); (2, 0)]%Z] 0 1
           [[1; 0]; [1; 1]; [0; 1]]%R [(0, 1); (2, 0)]%Z 1%R).
  - reflexivity.
  - reflexivity.
  - simpl. lia.
  - repeat constructor; simpl; lia.
  - intros i Hi. simpl in Hi.
    destruct i as [|[|[|i]]]; [exists 2 | exists 0 | exists 1 | lia];
      split; simpl; try lia; reflexivity.
  - lra.
Defined.

(** At the temperature 1/1500 the equation of the specification fails.  The
    batch holds two opposite vectors declared a positive pair: their scaled
    similarity is -1500, the formula charges [log(1 + exp 1500) > 1500] for
    the pair, and [F.binary_cross_entropy], whose logarithms stop at -100,
    charges 100.  The loss returned is at most 200; the formula gives more
    than 200. *)
Lemma bxent_loss_clamped_below_formula :
  in_range 3 [(0, 1)]%Z
  /\ (forall i, i < 3 ->
                exists j, j < 3 /\ spec_positive [(0, 1)]%Z i j = false)
  /\ (0 < 1 / 1500)%R
  /\ exists r,
       fst (nt_bxent_loss 0 1 (1 / 1500)
              [FloatT (of_reals [[1; 0]; [-1; 0]; [0; 1]]%R);
               PairsT [(0, 1)]%Z])
       = inr (Fin r)
       /\ (r <= 200
           < spec_nt_bxent_loss [[1; 0]; [-1; 0]; [0; 1]]%R [(0, 1)]%Z
               (1 / 1500))%R.
Proof.
  assert (Hp : in_range 3 [(0, 1)]%Z) by (repeat constructor; simpl; lia).
  assert (Hneg : forall i, i < 3 ->
                   exists j, j < 3 /\ spec_positive [(0, 1)]%Z i j = false).
  { intros i Hi.
    destruct i as [|[|[|i]]]; [exists 2 | exists 0 | exists 1 | lia];
      split; simpl; try lia; reflexivity. }
  split; [exact Hp|]. split; [exact Hneg|]. split; [lra|].
  set (xr := [[1; 0]; [-1; 0]; [0; 1]]%R).
  set (p := [(0, 1)]%Z).
  destruct (@bxent_value_bounded xr p (1 / 1500)%R) as (r & Er & Hr0 & Hr);
    [simpl; lia | exact Hp | exact Hneg | lra |].
  exists r. split.
  { rewrite (@nt_bxent_loss_run [FloatT (of_reals xr); PairsT p] 0 1
               (of_reals xr) p (1 / 1500)%R eq_refl eq_refl).
    exact Er. }
  split; [exact Hr|].
  assert (N1 : rnorm [1; 0]%R = 1%R).
  { unfold rnorm, rsum. simpl.
    replace (0 + 1 * 1 + 0 * 0)%R with 1%R by lra. apply sqrt_1. }
  assert (N2 : rnorm [-1; 0]%R = 1%R).
  { unfold rnorm, rsum. simpl.
    replace (0 + -1 * -1 + 0 * 0)%R with 1%R by lra. apply sqrt_1. }
  assert (C : rcos [1; 0]%R [-1; 0]%R = (-1)%R).
  { unfold rcos. rewrite N1, N2.
    rewrite Rmax_left by (unfold eps; lra).
    unfold rdot, rsum. simpl. lra. }
  assert (B : (1500 <= spec_bce xr p (1 / 1500) 0 1)%R).
  { unfold spec_bce, spec_label, spec_probability.
    change (spec_positive p 0 1) with true.
    change (0 =? 1) with false. cbv iota.
    change (nth 0 xr []) with [1; 0]%R.
    change (nth 1 xr []) with [-1; 0]%R.
    rewrite C, ln_spec_sigmoid.
    replace (- (-1 / (1 / 1500)))%R with 1500%R by field.
    assert (L : (ln (exp 1500) <= ln (1 + exp 1500))%R).
    { apply ln_le; [apply exp_pos | lra]. }
    rewrite ln_exp in L. lra. }
  pose proof (@spec_nt_bxent_loss_ge_row xr p (1 / 1500)%R 0 ltac:(simpl; lia))
    as Hrow.
  destruct (spec_row_loss_parts xr p (1 / 1500)%R 0) as [_ Hpos].
  change (positive_columns (length xr) p 0) with [0; 1] in Hpos.
  pose proof (spec_bce_nonneg xr p (1 / 1500)%R 0 0) as B0.
  assert (S : (rsum (map (spec_bce xr p (1 / 1500) 0) [0; 1]%nat)
               = spec_bce xr p (1 / 1500) 0 0 + spec_bce xr p (1 / 1500) 0 1)%R).
  { unfold rsum. simpl. lra. }
  rewrite S in Hpos.
  change (INR (length [0; 1])) with (INR 2) in Hpos.
  change (INR (length xr)) with (INR 3) in Hrow.
  simpl INR in Hpos, Hrow. lra.
Qed.

(* ===================================================================== *)
(** ** The losses see the directions of the vectors only *)
(* ===================================================================== *)

Lemma xent_value_bounded (xr : list (list R)) (t : R) :
  length xr = 8 -> (0 < t)%R ->
  exists r,
    xent_value (of_reals xr) t = inr (Fin r) /\ (0 <= r <= ln 7 + 2 / t)%R.
Proof.
  intros Hn Ht. rewrite xent_value_spec by assumption.
  unfold spec_nt_xent_loss. rewrite length_of_reals, Hn.
  destruct (@mean_bounded (ln 7 + 2 / t)%R
              (map (spec_xent_row (of_reals xr) t) (seq 0 8)))
    as (r & Er & Hr).
  - intros b Hb. apply in_map_iff in Hb. destruct Hb as (i & <- & Hi).
    apply in_seq in Hi.
    rewrite spec_xent_row_value by (assumption || lia).
    destruct (@partner_below_eight i) as (_ & Hk & Hki); [lia|].
    eexists. split; [reflexivity|].
    replace (2 / t)%R with (2 * (1 / t))%R by (unfold Rdiv; lra).
    apply (@softmax_row_bounds i (Z.to_nat (partner i))
             (fun j => (rcos (nth i xr []) (nth j xr []) / t)%R) (1 / t)%R);
      try assumption; try lia.
    intros j. now apply scaled_similarity_range.
  - rewrite length_map, length_seq. lia.
  - exists r. now rewrite Er.
Qed.

Lemma rnorm_between (u : list R) (lo hi : R) :
  (0 <= lo)%R -> (0 <= hi)%R -> (lo * lo <= rdot u u <= hi * hi)%R ->
  (lo <= rnorm u <= hi)%R.
Proof.
  intros Hlo Hhi [H1 H2]. rewrite <- rnorm_sqr in H1, H2.
  pose proof (rnorm_nonneg u). split; nra.
Qed.

(** X6.  Both losses depend on the directions of the vectors only.  Take a
    real-valued batch of vectors of one size whose norms lie between [eps]
    and [max_norm], a factor [c > 0] that keeps the norms of the scaled
    vectors in that range, and a temperature [t >= 1/10].  On a batch of
    eight vectors [nt_xent_loss] returns a real number, and returns the same
    number for the scaled batch.  On a batch with in-range positive pairs
    that leave every row a negative column [nt_bxent_loss] returns a real
    number, and returns the same number for the scaled batch. *)
Theorem losses_scale_invariant (h h' : heap) (x x' pr pr' : ref)
        (xr : list (list R)) (p : list (Z * Z)) (t c : R) (d : nat) :
  nth_error h x = Some (FloatT (of_reals xr)) ->
  nth_error h pr = Some (PairsT p) ->
  nth_error h' x' = Some (FloatT (of_reals (scaled c xr))) ->
  nth_error h' pr' = Some (PairsT p) ->
  (0 < c)%R ->
  Forall (fun u => length u = d) xr ->
  Forall (fun u => (eps <= rnorm u <= max_norm)%R
                   /\ (eps <= c * rnorm u <= max_norm)%R) xr ->
  (1 / 10 <= t)%R ->
  (length xr = 8 ->
   exists r, fst (nt_xent_loss x t h) = inr (Fin r)
             /\ fst (nt_xent_loss x' t h') = inr (Fin r))
  /\ (1 <= length xr ->
      in_range (length xr) p ->
      (forall i, i < length xr ->
                 exists j, j < length xr /\ spec_positive p i j = false) ->
      exists r, fst (nt_bxent_loss x pr t h) = inr (Fin r)
                /\ fst (nt_bxent_loss x' pr' t h') = inr (Fin r)).
Proof.
  intros Hx Hp Hx' Hp' Hc _ Hnorms Ht.
  assert (Hall : Forall (fun u => (eps <= rnorm u)%R
                                  /\ (eps <= c * rnorm u)%R) xr).
  { apply (Forall_impl _ (P := fun u => (eps <= rnorm u <= max_norm)%R
                                /\ (eps <= c * rnorm u <= max_norm)%R));
      [|exact Hnorms].
    intros u [[H1 _] [H2 _]]. now split. }
  assert (Ht0 : (0 < t)%R) by lra.
  split.
  - intros Hn.
    destruct (@xent_value_bounded xr t Hn Ht0) as (r & Er & _).
    exists r.
    rewrite (@nt_xent_loss_run h x (of_reals xr) t Hx).
    rewrite (@nt_xent_loss_run h' x' (of_reals (scaled c xr)) t Hx').
    simpl fst. split; [exact Er|].
    rewrite <- Er. unfold xent_value. now rewrite with_diagonal_scaled.
  - intros Hn Hr Hneg.
    destruct (@bxent_value_bounded xr p t Hn Hr Hneg ltac:(lra))
      as (r & Er & _).
    exists r.
    rewrite (@nt_bxent_loss_run h x pr (of_reals xr) p t Hx Hp).
    rewrite (@nt_bxent_loss_run h' x' pr' (of_reals (scaled c xr)) p t Hx' Hp').
    simpl fst. split; [exact Er|].
    rewrite <- Er. apply bxent_value_similarities.
    + now rewrite !length_of_reals, length_scaled.
    + intros i j Hi Hj. rewrite length_of_reals in Hi, Hj.
      unfold bxent_prob. destruct (i =? j); [reflexivity|].
      now rewrite cos_sim_scaled.
Qed.

Lemma losses_scale_invariant_witness :
  (exists r,
     fst (nt_xent_loss 0 1
            [FloatT (of_reals [[1; 0]; [1; 1]; [0; 1]; [2; 1];
                               [1; 2]; [3; 1]; [1; 3]; [2; 3]]%R);
             PairsT [(0, 1); (2, 3)]%Z])
     = inr (Fin r)
     /\ fst (nt_xent_loss 0 1
               [FloatT (of_reals (scaled 2 [[1; 0]; [1; 1]; [0; 1]; [2; 1];
                                            [1; 2]; [3; 1]; [1; 3]; [2; 3]]%R));
                PairsT [(0, 1); (2, 3)]%Z])
        = inr (Fin r))
  /\ (exists r,
        fst (nt_bxent_loss 0 1 1
               [FloatT (of_reals [[1; 0]; [1; 1]; [0; 1]; [2; 1];
                                  [1; 2]; [3; 1]; [1; 3]; [2; 3]]%R);
                PairsT [(0, 1); (2, 3)]%Z])
        = inr (Fin r)
        /\ fst (nt_bxent_loss 0 1 1
                  [FloatT (of_reals (scaled 2 [[1; 0]; [1; 1]; [0; 1]; [2; 1];
                                               [1; 2]; [3; 1]; [1; 3];
                                               [2; 3]]%R));
                   PairsT [(0, 1); (2, 3)]%Z])
           = inr (Fin r)).
Proof.
  assert (Hnorm : forall a b : R,
             (1 <= a * a + b * b <= 16)%R ->
             (eps <= rnorm [a; b] <= max_norm)%R
             /\ (eps <= 2 * rnorm [a; b] <= max_norm)%R).
  { intros a b Hab.
    destruct (@rnorm_between [a; b] 1 4) as [H1 H2]; try lra.
    - unfold rdot, rsum. simpl. lra.
    - unfold eps, max_norm. lra. }
  destruct (@losses_scale_invariant
              [FloatT (of_reals [[1; 0]; [1; 1]; [0; 1]; [2; 1];
                                 [1; 2]; [3; 1]; [1; 3]; [2; 3]]%R);
               PairsT [(0, 1); (2, 3)]%Z]
              [FloatT (of_reals (scaled 2 [[1; 0]; [1; 1]; [0; 1]; [2; 1];
                                           [1; 2]; [3; 1]; [1; 3]; [2; 3]]%R));
               PairsT [(0, 1); (2, 3)]%Z]
              0 0 1 1
              [[1; 0]; [1; 1]; [0; 1]; [2; 1];
               [1; 2]; [3; 1]; [1; 3]; [2; 3]]%R
              [(0, 1); (2, 3)]%Z 1%R 2%R 2) as [Hxent Hbxent].
  - reflexivity.
  - reflexivity.
  - reflexivity.
  - reflexivity.
  - lra.
  - repeat (apply Forall_cons; [reflexivity|]). apply Forall_nil.
  - repeat (apply Forall_cons; [apply Hnorm; lra|]). apply Forall_nil.
  - lra.
  - split.
    + apply Hxent. reflexivity.
    + apply Hbxent.
      * simpl. lia.
      * repeat constructor; simpl; lia.
      * intros i Hi. simpl in Hi.
        destruct i as [|[|[|[|[|[|[|[|i]]]]]]]];
          [exists 2 | exists 0 | exists 0 | exists 0 | exists 0
           | exists 0 | exists 0 | exists 0 | lia];
          split; simpl; try lia; reflexivity.
Defined.
